(** * ipbin: variable-precision interval tokens for IPv4 addresses

    A shallow embedding of [ipbin.py] and the properties of its
    encoder and decoder.  Python's [float] is IEEE-754 binary64; it is
    modelled here by the Standard Library's executable specification
    [SpecFloat] at precision 53 and maximal exponent 1024, so every float
    operation of the program is carried out bit for bit. *)

From Stdlib Require Import ZArith QArith Qabs Lia Lqa List String Ascii Bool.
From Stdlib Require Import Strings.Byte.
From Stdlib Require Import Floats.SpecFloat.
From Stdlib Require Import Sorting.Sorted.
Import ListNotations.

Local Open Scope Z_scope.

(** ** Python values and control *)

Module Py.

(** Exceptions the program can raise. *)
Inductive exn : Set :=
| KeyError
| IndexError
| ValueError
| OSError.

(** The outcome of running a piece of the program.  [Fuel] is not a Python
    outcome: it marks a [while] loop cut off by the bound of the model. *)
Inductive outcome (A : Type) : Type :=
| Return (a : A)
| Raise (e : exn)
| Fuel.

Arguments Return {A} a.
Arguments Raise {A} e.
Arguments Fuel {A}.

Definition bind {A B : Type} (c : outcome A) (k : A -> outcome B) : outcome B :=
  match c with
  | Return a => k a
  | Raise e => Raise e
  | Fuel => Fuel
  end.

(** *** Floats: IEEE-754 binary64 *)

Definition float : Set := spec_float.

Definition prec : Z := 53.
Definition emax : Z := 1024.

Definition fadd : float -> float -> float := SFadd prec emax.
Definition fdiv : float -> float -> float := SFdiv prec emax.

(** Conversion of an [int] to the nearest [float] (exact below 2^53). *)
Definition float_of_int (z : Z) : float := binary_normalize prec emax z 0 false.

(** The rational number a float stands for (0 for infinities and NaN, which
    [is_finite] tells apart). *)
Definition F2Q (f : float) : Q :=
  match f with
  | S754_finite s m e =>
      let v := if s then Z.neg m else Z.pos m in
      if 0 <=? e then inject_Z (v * 2 ^ e) else v # Z.to_pos (2 ^ (- e))
  | _ => 0%Q
  end.

Definition is_finite (f : float) : bool :=
  match f with
  | S754_finite _ _ _ | S754_zero _ => true
  | _ => false
  end.

(** *** Numbers and comparison *)

(** The address handed to [encode] is an [int] or a [float]. *)
Inductive number : Set :=
| PyInt (z : Z)
| PyFloat (f : float).

(** [z > f] for an [int] and a [float]: Python compares the two exactly,
    without rounding the integer. *)
Definition int_gt_float (z : Z) (f : float) : bool :=
  match f with
  | S754_nan => false
  | S754_infinity s => s
  | S754_zero _ => 0 <? z
  | S754_finite s m e =>
      let v := if s then Z.neg m else Z.pos m in
      if 0 <=? e then v * 2 ^ e <? z else v <? z * 2 ^ (- e)
  end.

(** [v > f]. *)
Definition num_gt (v : number) (f : float) : bool :=
  match v with
  | PyInt z => int_gt_float z f
  | PyFloat g => SFltb f g
  end.

(** *** Sequences *)

(** [l[i]] on a list, with Python's negative indices and [IndexError]. *)
Definition list_index {A : Type} (l : list A) (i : Z) : outcome A :=
  let n := Z.of_nat (List.length l) in
  let i' := if i <? 0 then i + n else i in
  if (i' <? 0) || (n <=? i') then Raise IndexError
  else match nth_error l (Z.to_nat i') with
       | Some a => Return a
       | None => Raise IndexError
       end.

(** [s[i]] on a string: a one-character string, kept as its character. *)
Definition str_index (s : string) (i : Z) : outcome ascii :=
  list_index (list_ascii_of_string s) i.

(** [enumerate(s)]. *)
Fixpoint enumerate_from (i : Z) (l : list ascii) : list (Z * ascii) :=
  match l with
  | [] => []
  | c :: l' => (i, c) :: enumerate_from (i + 1) l'
  end.

Definition enumerate (s : string) : list (Z * ascii) :=
  enumerate_from 0 (list_ascii_of_string s).

(** A dictionary from characters to integers, kept in insertion order. *)
Definition dict : Set := list (ascii * Z).

Fixpoint dict_set (d : dict) (k : ascii) (v : Z) : dict :=
  match d with
  | [] => [(k, v)]
  | (k', v') :: d' =>
      if Ascii.eqb k' k then (k', v) :: d' else (k', v') :: dict_set d' k v
  end.

(** [d[k]], raising [KeyError] on a missing key. *)
Fixpoint dict_get (d : dict) (k : ascii) : outcome Z :=
  match d with
  | [] => Raise KeyError
  | (k', v) :: d' => if Ascii.eqb k' k then Return v else dict_get d' k
  end.

End Py.

Import Py.

Notation "x <- c ;; k" := (bind c (fun x => k))
  (at level 61, c at next level, right associativity).
Notation "' p <- c ;; k" := (bind c (fun x => let p := x in k))
  (at level 61, p pattern, c at next level, right associativity).

(** ** The program *)

(** [__base32 = '01abcdef'] *)
Definition base32 : string := "01abcdef".

(** [__decodemap], filled by the loop over [enumerate(__base32)]. *)
Definition decodemap : dict :=
  fold_left (fun d '(i, num) => dict_set d num i) (enumerate base32) [].

(** The literals [0.0], [4294967295.0] and the divisor [2]. *)
Definition f_zero : float := S754_zero false.
Definition f_top : float := float_of_int 4294967295.
Definition f_two : float := float_of_int 2.

(** [(a + b) / 2] *)
Definition midpoint (iv : float * float) : float :=
  fdiv (fadd (fst iv) (snd iv)) f_two.

(** [bits = [4, 2, 1]], also the masks of [decode_exactly]. *)
Definition bits : list Z := [4; 2; 1].

(** *** decode_exactly *)

(** One pass of the inner loop [for mask in [4, 2, 1]]. *)
Definition decode_mask (char_decoded : Z) (st : (float * float) * float) (mask : Z)
  : (float * float) * float :=
  let '(ip_interval, ip_range) := st in
  let ip_range := fdiv ip_range f_two in
  let mid := midpoint ip_interval in
  if Z.land char_decoded mask =? 0
  then ((fst ip_interval, mid), ip_range)
  else ((mid, snd ip_interval), ip_range).

(** The outer loop [for char in ipbin]. *)
Fixpoint decode_loop (ipbin : list ascii) (st : (float * float) * float)
  : outcome ((float * float) * float) :=
  match ipbin with
  | [] => Return st
  | char :: rest =>
      char_decoded <- dict_get decodemap char ;;
      decode_loop rest (fold_left (decode_mask char_decoded) bits st)
  end.

Definition decode_exactly (ipbin : string) : outcome (float * float) :=
  let ip_interval := (f_zero, f_top) in
  let ip_range := midpoint ip_interval in
  '(ip_interval, ip_range) <- decode_loop (list_ascii_of_string ipbin) (ip_interval, ip_range) ;;
  let ip_value := midpoint ip_interval in
  Return (ip_value, ip_range).

(** *** decode *)

Definition decode (ipbin : string) : outcome float :=
  '(ip_value, _) <- decode_exactly ipbin ;;
  Return ip_value.

(** *** encode *)

Record enc_state : Set := mk_enc {
  ip_interval : float * float;
  ipbin : list ascii;
  bit : Z;
  char : Z
}.

Definition enc_init : enc_state :=
  {| ip_interval := (f_zero, f_top); ipbin := []; bit := 0; char := 0 |}.

(** The body of the [while] loop. *)
Definition encode_body (ip_integer : number) (st : enc_state) : outcome enc_state :=
  let mid := midpoint (ip_interval st) in
  '(char', interval') <-
    (if num_gt ip_integer mid
     then b <- list_index bits (bit st) ;;
          Return (Z.lor (char st) b, (mid, snd (ip_interval st)))
     else Return (char st, (fst (ip_interval st), mid))) ;;
  if bit st <? 2
  then Return {| ip_interval := interval'; ipbin := ipbin st;
                 bit := bit st + 1; char := char' |}
  else c <- str_index base32 char' ;;
       Return {| ip_interval := interval'; ipbin := ipbin st ++ [c];
                 bit := 0; char := 0 |}.

(** [while len(ipbin) < precision], run for at most [fuel] passes. *)
Fixpoint encode_loop (fuel : nat) (ip_integer : number) (precision : Z)
    (st : enc_state) : outcome enc_state :=
  if Z.of_nat (List.length (ipbin st)) <? precision
  then match fuel with
       | O => Fuel
       | S fuel' =>
           st' <- encode_body ip_integer st ;;
           encode_loop fuel' ip_integer precision st'
       end
  else Return st.

Definition encode_with (fuel : nat) (ip_integer : number) (precision : Z)
  : outcome string :=
  let precision := Z.min precision 10 in
  st <- encode_loop fuel ip_integer precision enc_init ;;
  Return (string_of_list_ascii (ipbin st)).

(** Thirty passes are all the loop ever makes: three per character, and at
    most ten characters (see [encode_with_chars]). *)
Definition encode (ip_integer : number) (precision : Z) : outcome string :=
  encode_with 30 ip_integer precision.

(** ** Bisection: what one character of a token stands for *)

Abbreviation interval := (float * float)%type.

(** The comparison made in one pass of [encode]'s loop. *)
Definition decide (v : number) (iv : interval) : bool := num_gt v (midpoint iv).

(** The half of the interval kept after a comparison. *)
Definition narrow (b : bool) (iv : interval) : interval :=
  if b then (midpoint iv, snd iv) else (fst iv, midpoint iv).

Definition code_of (b1 b2 b3 : bool) : Z :=
  (if b1 then 4 else 0) + (if b2 then 2 else 0) + (if b3 then 1 else 0).

Definition symbol (b1 b2 b3 : bool) : ascii :=
  match b1, b2, b3 with
  | false, false, false => "0"
  | false, false, true => "1"
  | false, true, false => "a"
  | false, true, true => "b"
  | true, false, false => "c"
  | true, false, true => "d"
  | true, true, false => "e"
  | true, true, true => "f"
  end%char.

(** Three comparisons give one character and the interval left. *)
Definition enc_char (v : number) (iv : interval) : ascii * interval :=
  let b1 := decide v iv in let iv1 := narrow b1 iv in
  let b2 := decide v iv1 in let iv2 := narrow b2 iv1 in
  let b3 := decide v iv2 in
  (symbol b1 b2 b3, narrow b3 iv2).

Fixpoint enc_chars (n : nat) (v : number) (iv : interval) : list ascii * interval :=
  match n with
  | O => ([], iv)
  | S n' =>
      let '(c, iv') := enc_char v iv in
      let '(cs, iv'') := enc_chars n' v iv' in
      (c :: cs, iv'')
  end.

(** [ip_range /= 2] *)
Definition halve (r : float) : float := fdiv r f_two.

Definition in_alphabet (c : ascii) : bool :=
  existsb (Ascii.eqb c) (list_ascii_of_string base32).

(** ** Helpers for stating the properties *)

(** [decode_exactly(encode(x, p))] *)
Definition roundtrip (x : Z) (p : Z) : outcome (float * float) :=
  token <- encode (PyInt x) p ;; decode_exactly token.

(** [s[:k]] for a non-negative [k]. *)
Definition str_take (k : Z) (s : string) : string := substring 0 (Z.to_nat k) s.

(** Some character of [t] lies outside the alphabet. *)
Definition has_foreign_char (t : string) : Prop :=
  exists c, In c (list_ascii_of_string t) /\ in_alphabet c = false.

(** The margin [decode_exactly] returns for a token of [n] characters:
    [ip_range], first half the full span, halved three times per character. *)
Definition margin_of_length (n : nat) : float :=
  Nat.iter (3 * n) halve (midpoint (f_zero, f_top)).

(** [2147483647.5 / 8^n] as a rational number. *)
Definition ideal_margin (n : nat) : Q :=
  ((4294967295 # 2) / inject_Z (8 ^ Z.of_nat n))%Q.

(** Checks that [r], and [r] halved three times up to [n] times over, are
    finite floats worth exactly [q], [q/8], [q/64], ... *)
Fixpoint margins_exact (n : nat) (r : float) (q : Q) : bool :=
  is_finite r && Qeq_bool (F2Q r) q &&
  match n with
  | O => true
  | S n' => margins_exact n' (halve (halve (halve r))) (q / 8)%Q
  end.

(** A token of [n] characters ['0']. *)
Definition zeros (n : nat) : string := string_of_list_ascii (repeat "0"%char n).

(** Every character of [t] is in the alphabet. *)
Definition over_alphabet (t : string) : bool :=
  forallb in_alphabet (list_ascii_of_string t).

(** The margin law as the specification words it, for one token. *)
Definition margin_law (t : string) : Prop :=
  exists value margin,
    decode_exactly t = Return (value, margin) /\
    (F2Q margin == ideal_margin (String.length t))%Q.

(** ** Addresses as text: the library routines [iptoint] and [inttoip] call *)

Module Lib.

(** A [bytes] object. *)
Definition bytes : Set := list Byte.byte.

Definition byte_to_Z (b : Byte.byte) : Z := Z.of_N (Byte.to_N b).

Definition byte_of_Z (z : Z) : Byte.byte :=
  match Byte.of_N (Z.to_N (z mod 256)) with
  | Some b => b
  | None => Byte.x00
  end.

Definition code (c : ascii) : Z := Z.of_N (N_of_ascii c).

Definition is_digit (c : ascii) : bool := (48 <=? code c) && (code c <=? 57).

(** C's [isspace] on an ASCII character. *)
Definition is_space (c : ascii) : bool :=
  (code c =? 32) || ((9 <=? code c) && (code c <=? 13)).

(** The value of a character as a digit of the given base, if it is one. *)
Definition digit_in_base (base : Z) (c : ascii) : option Z :=
  let n := code c in
  let d := if (48 <=? n) && (n <=? 57) then n - 48
           else if (97 <=? n) && (n <=? 122) then n - 87
           else if (65 <=? n) && (n <=? 90) then n - 55
           else -1 in
  if (0 <=? d) && (d <? base) then Some d else None.

Definition digit_char (d : Z) : ascii :=
  nth (Z.to_nat d) (list_ascii_of_string "0123456789abcdef") "0"%char.

(** The digits of [n >= 0] in a base, most significant first. *)
Fixpoint to_digits (fuel : nat) (base n : Z) (acc : list ascii) : list ascii :=
  match fuel with
  | O => acc
  | S fuel' =>
      if n <? base then digit_char n :: acc
      else to_digits fuel' base (n / base) (digit_char (n mod base) :: acc)
  end.

Definition digits (base n : Z) : list ascii :=
  to_digits (S (Z.to_nat (Z.log2 n))) base n [].

(** The longest run of digits of a base at the head of a string, as a number
    continuing [acc], and what follows it. *)
Fixpoint read_digits (base acc : Z) (s : list ascii) : Z * list ascii :=
  match s with
  | c :: s' =>
      match digit_in_base base c with
      | Some d => read_digits base (acc * base + d) s'
      | None => (acc, s)
      end
  | [] => (acc, [])
  end.

(** C's [strtoul(cp, &endp, 0)] on a string that starts with a digit: a
    leading [0x] announces base 16, a leading [0] base 8, anything else
    base 10.  The number is returned unbounded; the caller rejects what
    does not fit. *)
Definition strtoul0 (cp : list ascii) : Z * list ascii :=
  match cp with
  | "0"%char :: x :: h :: rest =>
      if ((code x =? 120) || (code x =? 88))
         && (match digit_in_base 16 h with Some _ => true | None => false end)
      then read_digits 16 0 (h :: rest)
      else read_digits 8 0 cp
  | "0"%char :: _ => read_digits 8 0 cp
  | _ => read_digits 10 0 cp
  end.

(** The largest last part for 0, 1, 2, 3 parts already stored. *)
Definition max_last (stored : nat) : Z :=
  nth stored [4294967295; 16777215; 65535; 255] 0.

(** The 32-bit word of the parts stored so far ([a.], [a.b.], [a.b.c.]), the
    last part filling the remaining bytes. *)
Definition word_of_parts (stored : list Z) (last : Z) : Z :=
  fold_left (fun w '(i, p) => w + p * 256 ^ (3 - Z.of_nat i))
            (combine (seq 0 (List.length stored)) stored) 0 + last.

(** The packed form of a 32-bit word, most significant byte first. *)
Definition pack (w : Z) : bytes :=
  [byte_of_Z (w / 16777216); byte_of_Z (w / 65536); byte_of_Z (w / 256); byte_of_Z w].

(** The C library's [inet_aton] (as in the GNU C library): up to four
    numbers separated by dots, each read by [strtoul0]; every number followed
    by a dot is one byte; the last number fills the bytes left; after it the
    string ends or white space follows.  [slots] counts the dots still
    allowed. *)
Fixpoint inet_aton_loop (slots : nat) (cp : list ascii) (stored : list Z)
  : option bytes :=
  match cp with
  | [] => None
  | c :: _ =>
      if is_digit c then
        let '(val, rest) := strtoul0 cp in
        if 4294967295 <? val then None
        else match rest with
             | "."%char :: rest' =>
                 match slots with
                 | O => None
                 | S slots' =>
                     if 255 <? val then None
                     else inet_aton_loop slots' rest' (stored ++ [val])
                 end
             | _ =>
                 let trailing_ok :=
                   match rest with
                   | [] => true
                   | c' :: _ => (code c' <? 128) && is_space c'
                   end in
                 if trailing_ok && (val <=? max_last (List.length stored))
                 then Some (pack (word_of_parts stored val))
                 else None
             end
      else None
  end.

(** [socket.inet_aton]: the string goes to the C routine as a C string, so
    an embedded null character is a [ValueError]; a string the routine
    refuses is an [OSError]. *)
Definition inet_aton (ip_string : string) : outcome bytes :=
  let cp := list_ascii_of_string ip_string in
  if existsb (fun c => code c =? 0) cp then Raise ValueError
  else match inet_aton_loop 3 cp [] with
       | Some packed => Return packed
       | None => Raise OSError
       end.

(** [socket.inet_ntoa]: four bytes as decimal numbers joined by dots. *)
Definition inet_ntoa (packed : bytes) : outcome string :=
  match packed with
  | [a; b; c; d] =>
      Return (string_of_list_ascii
                (digits 10 (byte_to_Z a) ++ "."%char ::
                 digits 10 (byte_to_Z b) ++ "."%char ::
                 digits 10 (byte_to_Z c) ++ "."%char ::
                 digits 10 (byte_to_Z d)))
  | _ => Raise OSError
  end.

(** [bytes.hex()]: two lower-case hexadecimal digits per byte. *)
Definition bytes_hex (bs : bytes) : string :=
  string_of_list_ascii
    (flat_map (fun b => [digit_char (byte_to_Z b / 16);
                         digit_char (byte_to_Z b mod 16)]) bs).

(** [int(s, 16)] on a string of hexadecimal digits, which is all [bytes.hex()]
    ever produces; anything else is a [ValueError]. *)
Definition int_base16 (s : string) : outcome Z :=
  match list_ascii_of_string s with
  | [] => Raise ValueError
  | cs => match read_digits 16 0 cs with
          | (n, []) => Return n
          | _ => Raise ValueError
          end
  end.

(** [hex(n)] *)
Definition hex (n : Z) : string :=
  string_of_list_ascii
    (if n <? 0 then "-"%char :: "0"%char :: "x"%char :: digits 16 (- n)
     else "0"%char :: "x"%char :: digits 16 n).

(** [s[k:]] for a non-negative [k]. *)
Definition str_drop (k : nat) (s : string) : string :=
  string_of_list_ascii (skipn k (list_ascii_of_string s)).

(** [s.zfill(width)]: zeros on the left, after a sign if there is one. *)
Definition zfill (width : nat) (s : string) : string :=
  let cs := list_ascii_of_string s in
  let pad := repeat "0"%char (width - List.length cs) in
  string_of_list_ascii
    match cs with
    | c :: cs' =>
        if (code c =? 43) || (code c =? 45) then c :: pad ++ cs' else pad ++ cs
    | [] => pad
    end.

(** [s.encode()]: a string of ASCII characters as bytes. *)
Definition str_encode (s : string) : bytes :=
  map byte_of_ascii (list_ascii_of_string s).

(** [codecs.decode(b, 'hex')]: pairs of hexadecimal digits to bytes; an odd
    length or a foreign character is [binascii.Error], a [ValueError]. *)
Fixpoint unhexlify (bs : bytes) : outcome bytes :=
  match bs with
  | [] => Return []
  | h :: l :: rest =>
      match digit_in_base 16 (ascii_of_byte h), digit_in_base 16 (ascii_of_byte l) with
      | Some dh, Some dl =>
          tail <- unhexlify rest ;; Return (byte_of_Z (dh * 16 + dl) :: tail)
      | _, _ => Raise ValueError
      end
  | [_] => Raise ValueError
  end.

End Lib.

Import Lib.

(** *** iptoint *)

(** [int(socket.inet_aton(ip_v4).hex(), 16)] *)
Definition iptoint (ip_v4 : string) : outcome Z :=
  packed <- inet_aton ip_v4 ;;
  int_base16 (bytes_hex packed).

(** *** inttoip *)

(** [socket.inet_ntoa(codecs.decode(hex(ip_int)[2:].zfill(8).encode(), 'hex'))] *)
Definition inttoip (ip_int : Z) : outcome string :=
  packed <- unhexlify (str_encode (zfill 8 (str_drop 2 (hex ip_int)))) ;;
  inet_ntoa packed.

(** *** random_range *)






Section RandomRange.

(** The random generator: [random i] is what call number [i] of
    [random.random()] returns. *)
Variable random : nat -> float.



End RandomRange.

(** *** Dotted text, for stating the properties *)

(** Decimal numerals joined by dots. *)
Fixpoint dotted (ns : list Z) : list ascii :=
  match ns with
  | [] => []
  | [n] => digits 10 n
  | n :: ns' => digits 10 n ++ "."%char :: dotted ns'
  end.

(** The dotted quad [a.b.c.d] as [inet_ntoa] writes it: plain decimal, no
    leading zeros. *)
Definition dotted_quad (a b c d : Z) : string :=
  string_of_list_ascii (dotted [a; b; c; d]).

(** The 32-bit integer of four octets, first octet most significant. *)
Definition word (a b c d : Z) : Z := a * 16777216 + b * 65536 + c * 256 + d.

Definition is_octet (a : Z) : Prop := 0 <= a <= 255.

(** What may follow a numeral for [inet_aton] to read it whole. *)
Definition ends_numeral (rest : list ascii) : Prop :=
  rest = [] \/ exists r, rest = "."%char :: r.

(** The parts of a string between its dots. *)
Fixpoint split_dots (cs : list ascii) : list (list ascii) :=
  match cs with
  | [] => [[]]
  | c :: cs' =>
      if Ascii.eqb c "."%char then [] :: split_dots cs'
      else match split_dots cs' with
           | p :: ps => (c :: p) :: ps
           | [] => [[c]]
           end
  end.

(** A decimal octet as the specification words it: one to three decimal
    digits worth at most 255. *)
Definition octet_text (p : list ascii) : bool :=
  match p with
  | [] => false
  | _ :: _ =>
      forallb is_digit p && (List.length p <=? 3)%nat &&
      (fst (read_digits 10 0 p) <=? 255)
  end.

(** "Syntactically valid dotted quad", as the specification words it: four
    decimal octets separated by dots. *)
Definition dotted_quad_syntax (s : string) : bool :=
  let parts := split_dots (list_ascii_of_string s) in
  (List.length parts =? 4)%nat && forallb octet_text parts.

(** The number of dot-separated parts of a string. *)
Definition octet_count (s : string) : nat :=
  List.length (split_dots (list_ascii_of_string s)).

(** An octet written without leading zeros. *)
Definition canonical_octet (p : list ascii) : bool :=
  octet_text p &&
  match p with
  | c :: _ :: _ => negb (Ascii.eqb c "0"%char)
  | _ => true
  end.

(** A dotted quad written as [inet_ntoa] writes it. *)
Definition canonical_quad (s : string) : bool :=
  let parts := split_dots (list_ascii_of_string s) in
  (List.length parts =? 4)%nat && forallb canonical_octet parts.

(** The string round trip of one address text. *)
Definition text_round_trip (s : string) : Prop :=
  exists n, iptoint s = Return n /\ inttoip n = Return s.

(** The integer round trip of one address. *)
Definition int_round_trip (n : Z) : Prop :=
  exists s, inttoip n = Return s /\ iptoint s = Return n.

(** Decimal numerals, each followed by a dot. *)
Definition dotted_prefix (ns : list Z) : list ascii :=
  flat_map (fun n => digits 10 n ++ ["."%char]) ns.

(** A part that is not numeric: nothing at all, or something that does not
    start with a digit. *)
Definition not_numeric (cp : list ascii) : Prop :=
  match cp with
  | [] => True
  | c :: _ => is_digit c = false
  end.

(** Parts joined by dots. *)
Fixpoint join_dots (ps : list (list ascii)) : list ascii :=
  match ps with
  | [] => []
  | [p] => p
  | p :: ps' => p ++ "."%char :: join_dots ps'
  end.

(** ** The bisection on integers

    Every float the bisection meets is zero or a normal positive number; it
    is followed here as the integer it is worth once multiplied by 2^60,
    with the rounding of binary64 sums written out on integers. *)

(** Rounding [M / 2^n] to the nearest integer, ties to even. *)
Definition rne (M n : Z) : Z :=
  let q := M / 2 ^ n in
  let rem := M mod 2 ^ n in
  let h := 2 ^ (n - 1) in
  if rem <? h then q
  else if h <? rem then q + 1
  else if Z.even q then q else q + 1.

(** Rounding a positive integer to 53 significant bits. *)
Definition rnd53 (S : Z) : Z :=
  let n := Z.log2 S - 52 in
  if n <=? 0 then S else rne S n * 2 ^ n.

Definition midZ (a b : Z) : Z := rnd53 (a + b) / 2.

(** [f] is zero or a normal positive float, worth [N / 2^60]. *)
Definition repr (f : float) (N : Z) : Prop :=
  (f = S754_zero false /\ N = 0) \/
  (exists m e, f = S754_finite false m e /\ Z.log2 (Z.pos m) = 52 /\
               -60 <= e <= 700 /\ N = Z.pos m * 2 ^ (e + 60)).

(** The bisection on integers: every float of the program, times 2^60. *)
Definition zinterval : Set := (Z * Z)%type.

Definition zmid (iv : zinterval) : Z := midZ (fst iv) (snd iv).

Definition zdecide (x : Z) (iv : zinterval) : bool := zmid iv <? x * 2 ^ 60.

Definition znarrow (b : bool) (iv : zinterval) : zinterval :=
  if b then (zmid iv, snd iv) else (fst iv, zmid iv).

Fixpoint zbisect (n : nat) (x : Z) (iv : zinterval) : zinterval :=
  match n with
  | O => iv
  | S n' => zbisect n' x (znarrow (zdecide x iv) iv)
  end.

(** The bisection of [encode], one comparison at a time. *)
Fixpoint bisect (n : nat) (v : number) (iv : interval) : interval :=
  match n with
  | O => iv
  | S n' => bisect n' v (narrow (decide v iv) iv)
  end.

Definition ztop : zinterval := (0, 4294967295 * 2 ^ 60).

(** The width of the exact interval after [k] bisections, times 2^60. *)
Definition W (k : nat) : Z := 4294967295 * 2 ^ (60 - Z.of_nat k).

(** After [k] bisections the interval around [X] is the exact one,
    [j*W k, (j+1)*W k], up to [k * 2^39]. *)
Definition Inv (k : nat) (iv : zinterval) (X : Z) : Prop :=
  exists j, 0 <= j /\ j + 1 <= 2 ^ Z.of_nat k /\
    Z.abs (fst iv - j * W k) <= Z.of_nat k * 2 ^ 39 /\
    Z.abs (snd iv - (j + 1) * W k) <= Z.of_nat k * 2 ^ 39 /\
    fst iv <= X <= snd iv.

Definition safe (iv : zinterval) : Prop := 2 ^ 60 <= fst iv + snd iv < 2 ^ 94.

Definition repr_iv (iv : interval) (ziv : zinterval) : Prop :=
  repr (fst iv) (fst ziv) /\ repr (snd iv) (snd ziv).

(** The same rounding with shifts and masks, for computing. *)
Definition rne_fast (M n : Z) : Z :=
  let q := Z.shiftr M n in
  let rem := Z.land M (Z.ones n) in
  let h := Z.shiftl 1 (n - 1) in
  if rem <? h then q
  else if h <? rem then q + 1
  else if Z.even q then q else q + 1.

Definition rnd53_fast (S : Z) : Z :=
  let n := Z.log2 S - 52 in
  if n <=? 0 then S else Z.shiftl (rne_fast S n) n.

Definition zmid_fast (iv : zinterval) : Z := Z.div2 (rnd53_fast (fst iv + snd iv)).

(** Checks, for every integer [x] whose bisection can end in a leaf under
    [iv], that the midpoint of the leaf is within 2 of [x]. *)
Definition zleaf_ok (iv : zinterval) : bool :=
  let v := zmid_fast iv in
  (v - 2305843009213693952 <=? Z.shiftl (- Z.shiftr (- fst iv) 60) 60) &&
  (Z.shiftl (Z.shiftr (snd iv) 60) 60 <=? v + 2305843009213693952).

Fixpoint ztree_ok (n : nat) (iv : zinterval) : bool :=
  match n with
  | O => zleaf_ok iv
  | S n' =>
      let m := zmid_fast iv in
      ztree_ok n' (fst iv, m) && ztree_ok n' (m, snd iv)
  end.

Fixpoint zdescend (n : nat) (b : bool) (iv : zinterval) : zinterval :=
  match n with
  | O => iv
  | S n' =>
      zdescend n' b (if b then (zmid_fast iv, snd iv) else (fst iv, zmid_fast iv))
  end.

(** Checks that the midpoints met going down [n] times on side [b] are all
    on the far side of [bound]. *)
Fixpoint zpath_ok (n : nat) (b : bool) (bound : Z) (iv : zinterval) : bool :=
  match n with
  | O => true
  | S n' =>
      (if b then zmid_fast iv <? bound else bound <=? zmid_fast iv) &&
      zpath_ok n' b bound (if b then (zmid_fast iv, snd iv) else (fst iv, zmid_fast iv))
  end.

(** [decode(encode(x, p))] *)
Definition roundtrip_value (x : Z) (p : Z) : outcome float :=
  token <- encode (PyInt x) p ;; decode token.

(** The allowance for the rounding of the midpoints: 2^-16. *)
Definition rounding_allowance : Q := 1 # 65536.

(** ** Sequences of comparisons

    A token is three comparisons per character; what follows names the
    comparisons themselves, for the encoder and for any token. *)

(** The comparisons [encode] makes in its first [n] passes. *)
Fixpoint decisions (n : nat) (v : number) (iv : interval) : list bool :=
  match n with
  | O => []
  | S n' => decide v iv :: decisions n' v (narrow (decide v iv) iv)
  end.

(** The interval reached by a sequence of comparisons. *)
Fixpoint follow (bs : list bool) (iv : interval) : interval :=
  match bs with
  | [] => iv
  | b :: bs' => follow bs' (narrow b iv)
  end.

(** The characters a sequence of comparisons spells, three by three. *)
Fixpoint spell (bs : list bool) : list ascii :=
  match bs with
  | b1 :: b2 :: b3 :: bs' => symbol b1 b2 b3 :: spell bs'
  | _ => []
  end.

(** Sequences of comparisons in lexicographic order, [false] first. *)
Fixpoint bits_le (bs cs : list bool) : Prop :=
  match bs, cs with
  | b :: bs', c :: cs' => (b = false /\ c = true) \/ (b = c /\ bits_le bs' cs')
  | [], _ => True
  | _ :: _, [] => False
  end.

(** ** Tokens as numerals in base 8 *)

(** The character of a digit in base 8. *)
Definition token_digit (d : Z) : ascii :=
  nth (Z.to_nat (d mod 8)) (list_ascii_of_string base32) "0"%char.

(** The [n] lowest digits of [j] in base 8, most significant first, written
    with the alphabet. *)
Fixpoint octal (n : nat) (j : Z) : list ascii :=
  match n with
  | O => []
  | S n' => token_digit (j / 8 ^ Z.of_nat n') :: octal n' j
  end.

(** The token of [n] characters for the bin number [j]. *)
Definition bin_token (n : nat) (j : Z) : string := string_of_list_ascii (octal n j).

(** The position of a character in the alphabet, as [decode_exactly] looks it
    up (0 for a character that is not there). *)
Definition alphabet_position (c : ascii) : Z :=
  match dict_get decodemap c with
  | Return i => i
  | _ => 0
  end.

(** A token read as a numeral in base 8: the number of its bin. *)
Definition token_index (t : string) : Z :=
  fold_left (fun j c => 8 * j + alphabet_position c) (list_ascii_of_string t) 0.

(** A character repeated: [c * n]. *)
Definition run (c : ascii) (n : Z) : string :=
  string_of_list_ascii (repeat c (Z.to_nat n)).

(** ** Numbers handed to [encode] *)

(** A finite float of binary64: its mantissa and exponent are in the
    format. *)
Definition finite_binary64 (f : float) : Prop :=
  is_finite f = true /\ valid_binary prec emax f = true.

(** The least integer not below [2^60 * f], for a finite float [f]. *)
Definition scaled_ceiling (f : float) : Z :=
  match f with
  | S754_finite s m e =>
      let v := if s then Z.neg m else Z.pos m in
      if 0 <=? e + 60 then v * 2 ^ (e + 60) else - (- v / 2 ^ (- (e + 60)))
  | _ => 0
  end.

(** A number [encode] can be handed: an [int], or a finite float of binary64. *)
Definition is_number (v : number) : Prop :=
  match v with
  | PyInt _ => True
  | PyFloat f => finite_binary64 f
  end.

(** The rational number it stands for. *)
Definition value_of (v : number) : Q :=
  match v with
  | PyInt z => inject_Z z
  | PyFloat f => F2Q f
  end.

(** The least integer not below [2^60 * v]. *)
Definition scaled (v : number) : Z :=
  match v with
  | PyInt z => z * 2 ^ 60
  | PyFloat f => scaled_ceiling f
  end.

(** [decode_exactly(encode(v, p))] for a float [v]. *)
Definition roundtrip_float (v : float) (p : Z) : outcome (float * float) :=
  token <- encode (PyFloat v) p ;; decode_exactly token.

(** ** The bisection on integers, along any sequence of comparisons *)

(** The same on the integer bisection, for an address times 2^60. *)
Fixpoint zdecisions (n : nat) (X : Z) (iv : zinterval) : list bool :=
  match n with
  | O => []
  | S n' => (zmid iv <? X) :: zdecisions n' X (znarrow (zmid iv <? X) iv)
  end.

(** The interval reached by a sequence of comparisons, on the integers. *)
Fixpoint zfollow (bs : list bool) (iv : zinterval) : zinterval :=
  match bs with
  | [] => iv
  | b :: bs' => zfollow bs' (znarrow b iv)
  end.

(** A sequence of comparisons read as a binary numeral continuing [j]. *)
Definition index_from (j : Z) (bs : list bool) : Z :=
  fold_left (fun j b => 2 * j + Z.b2z b) bs j.

(** After [k] comparisons spelling [j] the interval is the exact one,
    [j*W k, (j+1)*W k], up to [k * 2^39]. *)
Definition Near (k : nat) (j : Z) (iv : zinterval) : Prop :=
  0 <= j /\ j + 1 <= 2 ^ Z.of_nat k /\
  Z.abs (fst iv - j * W k) <= Z.of_nat k * 2 ^ 39 /\
  Z.abs (snd iv - (j + 1) * W k) <= Z.of_nat k * 2 ^ 39.

(** [X] is in the interval, above its lower end unless that is 0. *)
Definition inside (X : Z) (iv : zinterval) : Prop :=
  (fst iv < X \/ fst iv = 0) /\ 0 <= X <= snd iv.

(** Checks that the integers of the leaf [iv] all have the quotient [j] by 4. *)
Definition zleaf_bin_ok (j : Z) (iv : zinterval) : bool :=
  let lo := if fst iv =? 0 then 0 else Z.shiftr (fst iv) 60 + 1 in
  let hi := Z.shiftr (snd iv) 60 in
  (4 * j <=? lo) && (hi <=? 4 * j + 3).

Fixpoint ztree_bin_ok (n : nat) (j : Z) (iv : zinterval) : bool :=
  match n with
  | O => zleaf_bin_ok j iv
  | S n' =>
      let m := zmid_fast iv in
      ztree_bin_ok n' (2 * j) (fst iv, m) && ztree_bin_ok n' (2 * j + 1) (m, snd iv)
  end.

(** No null character in a string. *)
Definition no_nul (s : string) : Prop :=
  existsb (fun c => code c =? 0) (list_ascii_of_string s) = false.


(** * Properties *)

(** ** The loops, one character at a time *)

Section Loops.

Variable v : number.

Lemma encode_body_bit0 (st : enc_state) :
  bit st = 0 -> char st = 0 ->
  encode_body v st =
  Return {| ip_interval := narrow (decide v (ip_interval st)) (ip_interval st);
            ipbin := ipbin st; bit := 1;
            char := if decide v (ip_interval st) then 4 else 0 |}.
Proof.
  intros Hb Hc. unfold encode_body, decide, narrow. rewrite Hb, Hc.
  destruct (num_gt v (midpoint (ip_interval st))); reflexivity.
Qed.

Lemma encode_body_bit1 (st : enc_state) :
  bit st = 1 ->
  encode_body v st =
  Return {| ip_interval := narrow (decide v (ip_interval st)) (ip_interval st);
            ipbin := ipbin st; bit := 2;
            char := if decide v (ip_interval st)
                    then Z.lor (char st) 2 else char st |}.
Proof.
  intros Hb. unfold encode_body, decide, narrow. rewrite Hb.
  destruct (num_gt v (midpoint (ip_interval st))); reflexivity.
Qed.

Lemma encode_body_bit2 (st : enc_state) (b1 b2 : bool) :
  bit st = 2 ->
  char st = (if b2 then Z.lor (if b1 then 4 else 0) 2 else if b1 then 4 else 0) ->
  encode_body v st =
  Return {| ip_interval := narrow (decide v (ip_interval st)) (ip_interval st);
            ipbin := ipbin st ++ [symbol b1 b2 (decide v (ip_interval st))];
            bit := 0; char := 0 |}.
Proof.
  intros Hb Hc. unfold encode_body, decide, narrow. rewrite Hb, Hc.
  destruct (num_gt v (midpoint (ip_interval st))), b1, b2; reflexivity.
Qed.

(** Three passes from a character boundary append one character. *)
Lemma encode_loop_char (fuel : nat) (precision : Z) (st : enc_state) :
  bit st = 0 -> char st = 0 ->
  Z.of_nat (List.length (ipbin st)) < precision ->
  encode_loop (3 + fuel) v precision st =
  encode_loop fuel v precision
    {| ip_interval := snd (enc_char v (ip_interval st));
       ipbin := ipbin st ++ [fst (enc_char v (ip_interval st))];
       bit := 0; char := 0 |}.
Proof.
  intros Hb Hc Hlen.
  assert (Hlt : (Z.of_nat (List.length (ipbin st)) <? precision) = true)
    by (apply Z.ltb_lt; exact Hlen).
  change (3 + fuel)%nat with (S (S (S fuel))).
  cbn [encode_loop]. rewrite Hlt.
  rewrite (encode_body_bit0 st Hb Hc). cbn [bind ipbin]. rewrite Hlt.
  rewrite encode_body_bit1 by reflexivity. cbn [bind ipbin ip_interval char].
  rewrite Hlt.
  rewrite (encode_body_bit2 _ (decide v (ip_interval st))
             (decide v (narrow (decide v (ip_interval st)) (ip_interval st))))
    by reflexivity.
  cbn [bind ip_interval ipbin]. reflexivity.
Qed.

(** The whole loop, from a character boundary, with fuel to spare. *)
Lemma encode_loop_chars (n : nat) : forall (fuel : nat) (precision : Z) (st : enc_state),
  bit st = 0 -> char st = 0 ->
  precision = Z.of_nat (List.length (ipbin st)) + Z.of_nat n ->
  (3 * n <= fuel)%nat ->
  encode_loop fuel v precision st =
  Return {| ip_interval := snd (enc_chars n v (ip_interval st));
            ipbin := ipbin st ++ fst (enc_chars n v (ip_interval st));
            bit := 0; char := 0 |}.
Proof.
  induction n as [|n IH]; intros fuel precision st Hb Hc Hp Hf.
  - assert (Hge : (Z.of_nat (List.length (ipbin st)) <? precision) = false)
      by (apply Z.ltb_ge; lia).
    destruct fuel; cbn [encode_loop]; rewrite Hge; cbn [enc_chars fst snd];
      rewrite app_nil_r; destruct st; cbn in *; subst; reflexivity.
  - replace fuel with (3 + (fuel - 3))%nat by lia.
    rewrite encode_loop_char by (try assumption; lia).
    rewrite IH; cbn [bit char ipbin ip_interval]; try reflexivity.
    + cbn [enc_chars]. destruct (enc_char v (ip_interval st)) as [c iv'].
      cbn [fst snd]. destruct (enc_chars n v iv') as [cs iv''].
      cbn [fst snd]. rewrite <- app_assoc. reflexivity.
    + rewrite length_app. cbn [List.length]. lia.
    + lia.
Qed.

(** The loop does not run at all for a precision of zero or less. *)
Lemma encode_loop_nonpos (fuel : nat) (precision : Z) (st : enc_state) :
  precision <= Z.of_nat (List.length (ipbin st)) ->
  encode_loop fuel v precision st = Return st.
Proof.
  intros H. assert (Hge : (Z.of_nat (List.length (ipbin st)) <? precision) = false)
    by (apply Z.ltb_ge; lia).
  destruct fuel; cbn [encode_loop]; rewrite Hge; reflexivity.
Qed.

(** What [encode] returns: the characters of as many bisection triples as
    the clamped precision asks for. *)
Lemma encode_with_chars (fuel : nat) (precision : Z) :
  (30 <= fuel)%nat ->
  encode_with fuel v precision =
  Return (string_of_list_ascii
            (fst (enc_chars (Z.to_nat (Z.min precision 10)) v (f_zero, f_top)))).
Proof.
  intros Hf. unfold encode_with.
  destruct (Z.le_gt_cases (Z.min precision 10) 0) as [Hle | Hgt].
  - rewrite encode_loop_nonpos by (cbn; lia).
    replace (Z.to_nat (Z.min precision 10)) with 0%nat by lia. reflexivity.
  - rewrite (encode_loop_chars (Z.to_nat (Z.min precision 10)));
      try reflexivity; cbn [enc_init ipbin List.length]; lia.
Qed.

Lemma encode_chars (precision : Z) :
  encode v precision =
  Return (string_of_list_ascii
            (fst (enc_chars (Z.to_nat (Z.min precision 10)) v (f_zero, f_top)))).
Proof. apply encode_with_chars. lia. Qed.

Lemma enc_chars_length (n : nat) : forall iv,
  List.length (fst (enc_chars n v iv)) = n.
Proof.
  induction n as [|n IH]; intros iv; cbn [enc_chars]; [reflexivity|].
  destruct (enc_char v iv) as [c iv']. specialize (IH iv').
  destruct (enc_chars n v iv') as [cs iv'']. cbn in *. now rewrite IH.
Qed.

Lemma enc_chars_firstn (n : nat) : forall (m : nat) iv,
  (n <= m)%nat ->
  firstn n (fst (enc_chars m v iv)) = fst (enc_chars n v iv).
Proof.
  induction n as [|n IH]; intros m iv Hle; [reflexivity|].
  destruct m as [|m]; [lia|]. cbn [enc_chars].
  destruct (enc_char v iv) as [c iv']. specialize (IH m iv' ltac:(lia)).
  destruct (enc_chars m v iv') as [cs1 iv1], (enc_chars n v iv') as [cs2 iv2].
  cbn in *. now rewrite IH.
Qed.

End Loops.

Lemma Return_pair_inj {A B : Type} (a a' : A) (b b' : B) :
  Return (a, b) = Return (a', b') -> a' = a /\ b' = b.
Proof. intros H. injection H as -> ->. split; reflexivity. Qed.

(** ** Decoding, one character at a time *)

Lemma dict_get_symbol (b1 b2 b3 : bool) :
  dict_get decodemap (symbol b1 b2 b3) = Return (code_of b1 b2 b3).
Proof. destruct b1, b2, b3; reflexivity. Qed.

Lemma decode_masks (b1 b2 b3 : bool) (iv : interval) (r : float) :
  fold_left (decode_mask (code_of b1 b2 b3)) bits (iv, r) =
  (narrow b3 (narrow b2 (narrow b1 iv)), halve (halve (halve r))).
Proof. destruct b1, b2, b3; reflexivity. Qed.

Lemma in_alphabet_symbol (c : ascii) :
  in_alphabet c = true -> exists b1 b2 b3, c = symbol b1 b2 b3.
Proof.
  unfold in_alphabet. cbn [base32 list_ascii_of_string existsb].
  rewrite !orb_true_iff. rewrite !Ascii.eqb_eq.
  intros [H|[H|[H|[H|[H|[H|[H|[H|H]]]]]]]]; try discriminate H; subst c.
  - now exists false, false, false.
  - now exists false, false, true.
  - now exists false, true, false.
  - now exists false, true, true.
  - now exists true, false, false.
  - now exists true, false, true.
  - now exists true, true, false.
  - now exists true, true, true.
Qed.

Lemma dict_get_foreign (c : ascii) :
  in_alphabet c = false -> dict_get decodemap c = Raise KeyError.
Proof.
  unfold in_alphabet. cbn [base32 list_ascii_of_string existsb].
  rewrite !orb_false_iff. intros (H0 & H1 & H2 & H3 & H4 & H5 & H6 & H7 & _).
  change decodemap with
    [("0"%char, 0); ("1"%char, 1); ("a"%char, 2); ("b"%char, 3);
     ("c"%char, 4); ("d"%char, 5); ("e"%char, 6); ("f"%char, 7)].
  cbn [dict_get].
  rewrite (Ascii.eqb_sym _ c), H0, (Ascii.eqb_sym _ c), H1,
    (Ascii.eqb_sym _ c), H2, (Ascii.eqb_sym _ c), H3, (Ascii.eqb_sym _ c), H4,
    (Ascii.eqb_sym _ c), H5, (Ascii.eqb_sym _ c), H6, (Ascii.eqb_sym _ c), H7.
  reflexivity.
Qed.

Lemma iter_halve_shift (n : nat) (r : float) :
  Nat.iter n halve (halve r) = halve (Nat.iter n halve r).
Proof. rewrite <- Nat.iter_succ_r. apply Nat.iter_succ. Qed.

Lemma iter_halve_triple (n : nat) (r : float) :
  Nat.iter (3 * n) halve (halve (halve (halve r))) = Nat.iter (3 * S n) halve r.
Proof.
  replace (3 * S n)%nat with (S (S (S (3 * n)))) by lia.
  rewrite !Nat.iter_succ. now rewrite !iter_halve_shift.
Qed.

(** A token over the alphabet decodes, and its margin is the starting one
    halved three times per character, whatever the characters are. *)
Lemma decode_loop_alphabet (cs : list ascii) : forall (iv : interval) (r : float),
  forallb in_alphabet cs = true ->
  exists iv', decode_loop cs (iv, r) =
              Return (iv', Nat.iter (3 * List.length cs) halve r).
Proof.
  induction cs as [|c cs IH]; intros iv r Hall.
  - exists iv. reflexivity.
  - cbn [forallb] in Hall. apply andb_true_iff in Hall as [Hc Hcs].
    destruct (in_alphabet_symbol c Hc) as (b1 & b2 & b3 & ->).
    cbn [decode_loop]. rewrite dict_get_symbol. cbn [bind].
    rewrite decode_masks.
    destruct (IH (narrow b3 (narrow b2 (narrow b1 iv))) (halve (halve (halve r))) Hcs)
      as [iv' Hiv'].
    exists iv'. rewrite Hiv'. cbn [List.length]. now rewrite iter_halve_triple.
Qed.

(** A foreign character stops the decoder with [KeyError]. *)
Lemma decode_loop_foreign (cs : list ascii) : forall st,
  (exists c, In c cs /\ in_alphabet c = false) ->
  decode_loop cs st = Raise KeyError.
Proof.
  induction cs as [|c cs IH]; intros st (c0 & Hin & Hc0).
  - destruct Hin.
  - cbn [decode_loop]. destruct (in_alphabet c) eqn:Hc.
    + destruct (in_alphabet_symbol c Hc) as (b1 & b2 & b3 & ->).
      rewrite dict_get_symbol. cbn [bind]. apply IH.
      exists c0. split; [|exact Hc0].
      destruct Hin as [<-|Hin]; [congruence | exact Hin].
    + now rewrite dict_get_foreign.
Qed.

(** The decoder retraces the encoder's bisection. *)
Lemma decode_loop_enc_chars (v : number) (n : nat) : forall (iv : interval) (r : float),
  decode_loop (fst (enc_chars n v iv)) (iv, r) =
  Return (snd (enc_chars n v iv), Nat.iter (3 * n) halve r).
Proof.
  induction n as [|n IH]; intros iv r; [reflexivity|].
  cbn [enc_chars]. unfold enc_char.
  set (b1 := decide v iv). set (iv1 := narrow b1 iv).
  set (b2 := decide v iv1). set (iv2 := narrow b2 iv1).
  set (b3 := decide v iv2). set (iv3 := narrow b3 iv2).
  specialize (IH iv3 (halve (halve (halve r)))).
  destruct (enc_chars n v iv3) as [cs iv'] eqn:E. cbn [fst snd] in *.
  cbn [decode_loop]. rewrite dict_get_symbol. cbn [bind]. rewrite decode_masks.
  fold iv1 iv2 iv3. rewrite IH. now rewrite iter_halve_triple.
Qed.


Lemma list_ascii_string_inv (l : list ascii) :
  list_ascii_of_string (string_of_list_ascii l) = l.
Proof. apply list_ascii_of_string_of_list_ascii. Qed.

(** The round trip in terms of the bisection. *)
Lemma roundtrip_chars (x : Z) (p : Z) :
  roundtrip x p =
  let n := Z.to_nat (Z.min p 10) in
  Return (midpoint (snd (enc_chars n (PyInt x) (f_zero, f_top))),
          Nat.iter (3 * n) halve (midpoint (f_zero, f_top))).
Proof.
  unfold roundtrip. rewrite encode_chars. cbn [bind].
  unfold decode_exactly. rewrite list_ascii_string_inv.
  rewrite decode_loop_enc_chars. reflexivity.
Qed.

Lemma substring_firstn (n : nat) : forall (l : list ascii),
  substring 0 n (string_of_list_ascii l) = string_of_list_ascii (firstn n l).
Proof.
  induction n as [|n IH]; intros [|c l]; cbn; try reflexivity.
  now rewrite IH.
Qed.

Lemma string_length_of_list (l : list ascii) :
  String.length (string_of_list_ascii l) = List.length l.
Proof. induction l as [|c l IH]; cbn; [reflexivity | now rewrite IH]. Qed.

Lemma string_length_chars (s : string) :
  String.length s = List.length (list_ascii_of_string s).
Proof. induction s as [|c s IH]; cbn; [reflexivity | now rewrite IH]. Qed.

(** ** Tokens *)

(** C2. For every integer [x] in [0, 4294967295] and precisions
    [1 <= p1 < p2 <= 10], [encode(x, p1)] is the first [p1] characters of
    [encode(x, p2)]: cutting a token short gives the token of the coarser
    precision for the same address. *)
Theorem encode_prefix_hierarchy (x p1 p2 : Z) :
  0 <= x <= 4294967295 -> 1 <= p1 -> p1 < p2 -> p2 <= 10 ->
  exists t1 t2,
    encode (PyInt x) p1 = Return t1 /\
    encode (PyInt x) p2 = Return t2 /\
    t1 = str_take p1 t2.
Proof.
  intros _ H1 H12 H2. rewrite !encode_chars.
  eexists. eexists. split; [reflexivity|]. split; [reflexivity|].
  unfold str_take. rewrite substring_firstn.
  rewrite (Z.min_l p1 10), (Z.min_l p2 10) by lia.
  rewrite enc_chars_firstn by lia. reflexivity.
Qed.

Lemma encode_prefix_hierarchy_witness :
  exists t1 t2,
    encode (PyInt 1113628805) 3 = Return t1 /\
    encode (PyInt 1113628805) 7 = Return t2 /\
    t1 = str_take 3 t2.
Proof. apply (encode_prefix_hierarchy 1113628805 3 7); lia. Defined.

(** C4. [encode] clamps its precision: above 10 it gives the token of
    precision 10, which has exactly 10 characters; at 0 or below it gives the
    token of precision 0, the empty string; it raises nothing for any
    precision. *)
Theorem encode_clamps_precision (value : number) :
  (forall p, 10 < p -> encode value p = encode value 10) /\
  (exists t, encode value 10 = Return t /\ String.length t = 10%nat) /\
  (forall p, p <= 0 -> encode value p = encode value 0) /\
  encode value 0 = Return ""%string /\
  (forall p, exists t, encode value p = Return t).
Proof.
  split; [|split; [|split; [|split]]].
  - intros p Hp. rewrite !encode_chars. now rewrite (Z.min_r p 10) by lia.
  - rewrite encode_chars. eexists. split; [reflexivity|].
    rewrite string_length_of_list, enc_chars_length. reflexivity.
  - intros p Hp. rewrite !encode_chars.
    replace (Z.to_nat (Z.min p 10)) with 0%nat by lia. reflexivity.
  - rewrite encode_chars. reflexivity.
  - intros p. rewrite encode_chars. eexists. reflexivity.
Qed.

Lemma encode_clamps_precision_witness :
  encode (PyInt 1113628805) 11 = encode (PyInt 1113628805) 10 /\
  encode (PyInt 1113628805) (-1) = encode (PyInt 1113628805) 0.
Proof.
  destruct (encode_clamps_precision (PyInt 1113628805)) as (Hhi & _ & Hlo & _).
  split; [apply Hhi | apply Hlo]; lia.
Defined.

(** C9. [decode] and [decode_exactly] raise [KeyError], and return nothing,
    for every string with a character outside the alphabet [01abcdef]. *)
Theorem decode_rejects_foreign (t : string) :
  has_foreign_char t ->
  decode_exactly t = Raise KeyError /\ decode t = Raise KeyError.
Proof.
  intros H. unfold decode, decode_exactly.
  rewrite decode_loop_foreign by exact H. split; reflexivity.
Qed.

Lemma decode_rejects_foreign_witness :
  has_foreign_char "a0g1" /\
  decode_exactly "a0g1" = Raise KeyError /\ decode "a0g1" = Raise KeyError.
Proof.
  assert (H : has_foreign_char "a0g1").
  { exists "g"%char. split; [cbn; tauto | reflexivity]. }
  split; [exact H | apply (decode_rejects_foreign "a0g1" H)].
Defined.

(** ** Margins *)

Lemma ideal_margin_succ (n : nat) :
  (ideal_margin (S n) == ideal_margin n / 8)%Q.
Proof.
  unfold ideal_margin. rewrite Nat2Z.inj_succ, Z.pow_succ_r by lia.
  rewrite inject_Z_mult.
  assert (H : ~ (inject_Z (8 ^ Z.of_nat n) == 0)%Q).
  { change 0%Q with (inject_Z 0). rewrite inject_Z_injective.
    pose proof (Z.pow_pos_nonneg 8 (Z.of_nat n)). lia. }
  change (inject_Z 8) with 8%Q. field. exact H.
Qed.

Lemma ideal_margin_pos (n : nat) : (0 < ideal_margin n)%Q.
Proof.
  unfold ideal_margin. apply Qlt_shift_div_l.
  - change 0%Q with (inject_Z 0). rewrite <- Zlt_Qlt.
    apply Z.pow_pos_nonneg; lia.
  - reflexivity.
Qed.

Lemma margins_exact_sound (N : nat) : forall (r : float) (q : Q) (k : nat),
  margins_exact N r q = true -> (k <= N)%nat ->
  is_finite (Nat.iter (3 * k) halve r) = true /\
  (F2Q (Nat.iter (3 * k) halve r) == q / inject_Z (8 ^ Z.of_nat k))%Q.
Proof.
  induction N as [|N IH]; intros r q k Hc Hk.
  - assert (k = 0)%nat by lia. subst k. cbn [margins_exact] in Hc.
    rewrite andb_true_r in Hc. apply andb_true_iff in Hc as [Hf Hq].
    apply Qeq_bool_iff in Hq. cbn [Nat.mul Nat.iter nat_rect Z.of_nat].
    split; [exact Hf|]. rewrite Hq. change (inject_Z (8 ^ 0)) with 1%Q. field.
  - cbn [margins_exact] in Hc. apply andb_true_iff in Hc as [Hc Hrest].
    apply andb_true_iff in Hc as [Hf Hq]. apply Qeq_bool_iff in Hq.
    destruct k as [|k].
    + cbn [Nat.mul Nat.iter nat_rect Z.of_nat].
      split; [exact Hf|]. rewrite Hq. change (inject_Z (8 ^ 0)) with 1%Q. field.
    + destruct (IH _ _ k Hrest ltac:(lia)) as [Hf' Hq'].
      rewrite iter_halve_triple in Hf', Hq'. split; [exact Hf'|].
      rewrite Hq'. rewrite Nat2Z.inj_succ, Z.pow_succ_r by lia.
      rewrite inject_Z_mult.
      assert (H : ~ (inject_Z (8 ^ Z.of_nat k) == 0)%Q).
      { change 0%Q with (inject_Z 0). rewrite inject_Z_injective.
        pose proof (Z.pow_pos_nonneg 8 (Z.of_nat k)). lia. }
      change (inject_Z 8) with 8%Q. field. exact H.
Qed.

(** Halving is exact down to the last normal binade and a little below:
    for up to 357 characters the margin is [2147483647.5 / 8^n] on the nose. *)
Lemma margins_exact_357 :
  margins_exact 357 (midpoint (f_zero, f_top)) (4294967295 # 2) = true.
Proof. vm_compute. reflexivity. Qed.

Lemma margin_of_length_exact (n : nat) :
  (n <= 357)%nat ->
  is_finite (margin_of_length n) = true /\
  (F2Q (margin_of_length n) == ideal_margin n)%Q.
Proof. intros Hn. exact (margins_exact_sound 357 _ _ n margins_exact_357 Hn). Qed.

Lemma decode_exactly_alphabet (t : string) :
  over_alphabet t = true ->
  exists value,
    decode_exactly t = Return (value, margin_of_length (String.length t)).
Proof.
  intros Hall. unfold decode_exactly. cbv zeta.
  destruct (decode_loop_alphabet (list_ascii_of_string t) (f_zero, f_top)
              (midpoint (f_zero, f_top)) Hall) as [iv' Hiv'].
  exists (midpoint iv'). rewrite Hiv'. cbn [bind]. unfold margin_of_length.
  now rewrite string_length_chars.
Qed.

Lemma zeros_over_alphabet (n : nat) : over_alphabet (zeros n) = true.
Proof.
  unfold over_alphabet, zeros. rewrite list_ascii_string_inv.
  induction n as [|n IH]; cbn [repeat forallb]; [reflexivity|].
  rewrite IH. reflexivity.
Qed.

Lemma zeros_length (n : nat) : String.length (zeros n) = n.
Proof. unfold zeros. now rewrite string_length_of_list, repeat_length. Qed.

(** C3. For an address [x] in [0, 4294967295] and a precision [p] in
    [1, 10], the margin of [decode_exactly(encode(x, p))] is
    [2147483647.5 / 8^p], half the width [4294967295 / 2^(3p)] left by [3p]
    bisections; one more character divides it by 8, a strict decrease. *)
Theorem margin_shrinks_by_eight (x p : Z) :
  0 <= x <= 4294967295 -> 1 <= p <= 10 ->
  exists value margin,
    roundtrip x p = Return (value, margin) /\
    (F2Q margin == ideal_margin (Z.to_nat p))%Q /\
    (2 * F2Q margin == 4294967295 / inject_Z (2 ^ (3 * p)))%Q /\
    (p < 10 ->
     exists value' margin',
       roundtrip x (p + 1) = Return (value', margin') /\
       (F2Q margin' == F2Q margin / 8)%Q /\
       (F2Q margin' < F2Q margin)%Q).
Proof.
  intros _ Hp. rewrite roundtrip_chars. cbv zeta.
  rewrite (Z.min_l p 10) by lia.
  destruct (margin_of_length_exact (Z.to_nat p) ltac:(lia)) as [_ Hm].
  eexists. eexists. split; [reflexivity|].
  fold (margin_of_length (Z.to_nat p)). split; [exact Hm|]. split.
  - rewrite Hm. unfold ideal_margin. rewrite Z2Nat.id by lia.
    replace (2 ^ (3 * p)) with (8 ^ p)
      by (rewrite Z.pow_mul_r by lia; reflexivity).
    assert (H : ~ (inject_Z (8 ^ p) == 0)%Q).
    { change 0%Q with (inject_Z 0). rewrite inject_Z_injective.
      pose proof (Z.pow_pos_nonneg 8 p). lia. }
    field. exact H.
  - intros Hlt. rewrite roundtrip_chars. cbv zeta.
    rewrite (Z.min_l (p + 1) 10) by lia.
    eexists. eexists. split; [reflexivity|].
    fold (margin_of_length (Z.to_nat (p + 1))).
    replace (Z.to_nat (p + 1)) with (S (Z.to_nat p)) by lia.
    destruct (margin_of_length_exact (S (Z.to_nat p)) ltac:(lia)) as [_ Hm'].
    rewrite Hm', Hm, ideal_margin_succ. split; [reflexivity|].
    pose proof (ideal_margin_pos (Z.to_nat p)).
    unfold Qdiv. change (/ 8)%Q with (1 # 8)%Q. lra.
Qed.

Lemma margin_shrinks_by_eight_witness :
  exists value margin,
    roundtrip 1113628805 5 = Return (value, margin) /\
    (F2Q margin == ideal_margin 5)%Q /\
    (2 * F2Q margin == 4294967295 / inject_Z (2 ^ 15))%Q /\
    (5 < 10 ->
     exists value' margin',
       roundtrip 1113628805 6 = Return (value', margin') /\
       (F2Q margin' == F2Q margin / 8)%Q /\
       (F2Q margin' < F2Q margin)%Q).
Proof. apply (margin_shrinks_by_eight 1113628805 5); lia. Defined.

(** C10, as stated, fails: a token of 358 characters is decoded with a
    margin that has left the range where halving is exact, and is no longer
    [2147483647.5 / 8^358]. *)
Lemma margin_law_fails_at_358 :
  over_alphabet (zeros 358) = true /\ ~ margin_law (zeros 358).
Proof.
  split; [apply zeros_over_alphabet|].
  intros (value & margin & Hd & Hq).
  destruct (decode_exactly_alphabet (zeros 358) (zeros_over_alphabet 358))
    as [value' Hd'].
  rewrite Hd' in Hd. apply Return_pair_inj in Hd as [_ Hm]. subst margin.
  rewrite zeros_length in Hq. apply Qeq_bool_iff in Hq.
  revert Hq. vm_compute. discriminate.
Qed.

(** C10, amended. For every token over the alphabet the margin of
    [decode_exactly] depends on the length of the token alone: it is the
    starting margin halved three times per character; for tokens of at most
    357 characters that is exactly [2147483647.5 / 8^len(t)], and for the
    empty token [2147483647.5]. *)
Theorem decode_margin_by_length (t : string) :
  over_alphabet t = true ->
  (exists value,
     decode_exactly t = Return (value, margin_of_length (String.length t))) /\
  ((String.length t <= 357)%nat -> margin_law t).
Proof.
  intros Hall. destruct (decode_exactly_alphabet t Hall) as [value Hd].
  split; [now exists value|].
  intros Hlen. exists value, (margin_of_length (String.length t)).
  split; [exact Hd|]. now apply margin_of_length_exact.
Qed.

Lemma decode_margin_by_length_witness :
  (exists value,
     decode_exactly "a0d01" = Return (value, margin_of_length 5)) /\
  ((5 <= 357)%nat -> margin_law "a0d01").
Proof. apply (decode_margin_by_length "a0d01"). reflexivity. Defined.

(** The empty token: the midpoint and half-width of the whole range. *)
Lemma decode_exactly_empty :
  exists value margin,
    decode_exactly "" = Return (value, margin) /\
    (F2Q value == 4294967295 # 2)%Q /\ (F2Q margin == 4294967295 # 2)%Q.
Proof. eexists. eexists. split; [reflexivity|]. split; reflexivity. Qed.

(** ** Numerals *)

Lemma code_digit_char (d : Z) :
  0 <= d < 16 -> code (digit_char d) = if d <? 10 then d + 48 else d + 87.
Proof.
  intros Hd.
  assert (Hc : d = 0 \/ d = 1 \/ d = 2 \/ d = 3 \/ d = 4 \/ d = 5 \/ d = 6 \/ d = 7 \/
               d = 8 \/ d = 9 \/ d = 10 \/ d = 11 \/ d = 12 \/ d = 13 \/ d = 14 \/
               d = 15) by lia.
  repeat (destruct Hc as [-> | Hc]); try subst d; reflexivity.
Qed.

Ltac bool_to_Z :=
  rewrite ?andb_true_iff, ?andb_false_iff, ?orb_true_iff, ?orb_false_iff,
    ?Z.leb_le, ?Z.leb_gt, ?Z.ltb_lt, ?Z.ltb_ge, ?Z.eqb_eq, ?Z.eqb_neq in *.

(** Settles the comparisons of the goal that linear arithmetic decides. *)
Ltac decide_cmp :=
  match goal with
  | |- context [?a <=? ?b] =>
      first [ replace (a <=? b) with true by (symmetry; apply Z.leb_le; lia)
            | replace (a <=? b) with false by (symmetry; apply Z.leb_gt; lia) ]
  | |- context [?a <? ?b] =>
      first [ replace (a <? b) with true by (symmetry; apply Z.ltb_lt; lia)
            | replace (a <? b) with false by (symmetry; apply Z.ltb_ge; lia) ]
  | |- context [?a =? ?b] =>
      first [ replace (a =? b) with true by (symmetry; apply Z.eqb_eq; lia)
            | replace (a =? b) with false by (symmetry; apply Z.eqb_neq; lia) ]
  end; cbn [andb orb negb].

Ltac split_ifs :=
  repeat match goal with
         | |- context [if ?c then _ else _] =>
             let H := fresh "Hif" in destruct c eqn:H
         end.

Lemma digit_in_base_char (base d : Z) :
  0 <= d -> d < base -> base <= 16 ->
  digit_in_base base (digit_char d) = Some d.
Proof.
  intros H0 Hd Hb. unfold digit_in_base.
  rewrite code_digit_char by lia. cbv zeta.
  destruct (d <? 10) eqn:E; bool_to_Z; repeat decide_cmp; f_equal; lia.
Qed.

Lemma to_digits_app (base : Z) (fuel : nat) : forall (n : Z) (acc : list ascii),
  to_digits fuel base n acc = to_digits fuel base n [] ++ acc.
Proof.
  induction fuel as [|fuel IH]; intros n acc; cbn [to_digits]; [reflexivity|].
  destruct (n <? base); [reflexivity|].
  rewrite (IH _ (_ :: acc)), (IH _ [_]), <- app_assoc. reflexivity.
Qed.

Lemma pow2_succ_nat (f : nat) : 2 ^ Z.of_nat (S f) = 2 * 2 ^ Z.of_nat f.
Proof. rewrite Nat2Z.inj_succ, Z.pow_succ_r by lia. reflexivity. Qed.

Lemma div_base_bound (base n b : Z) :
  2 <= base -> 0 <= n < 2 * b -> 0 <= n / base < b.
Proof.
  intros Hb Hn. split; [apply Z.div_pos; lia|].
  apply Z.div_lt_upper_bound; nia.
Qed.

(** Reading back the digits of [n] gives [n]. *)
Lemma read_to_digits (base : Z) (fuel : nat) : forall (n : Z) (rest : list ascii),
  2 <= base <= 16 -> 0 <= n < 2 ^ Z.of_nat fuel ->
  read_digits base 0 (to_digits fuel base n [] ++ rest) = read_digits base n rest.
Proof.
  induction fuel as [|fuel IH]; intros n rest Hb Hn.
  - cbn in Hn. assert (n = 0) by lia. subst n. reflexivity.
  - cbn [to_digits]. destruct (n <? base) eqn:Hlt.
    + apply Z.ltb_lt in Hlt. cbn [app read_digits].
      rewrite digit_in_base_char by lia. reflexivity.
    + apply Z.ltb_ge in Hlt. rewrite to_digits_app, <- app_assoc.
      rewrite pow2_succ_nat in Hn.
      rewrite IH by (try apply div_base_bound; lia).
      cbn [app read_digits].
      rewrite digit_in_base_char
        by (try apply Z.mod_pos_bound; try lia;
            pose proof (Z.mod_pos_bound n base); lia).
      f_equal. pose proof (Z.div_mod n base). lia.
Qed.

Lemma digits_fuel (n : Z) : 0 <= n -> n < 2 ^ Z.of_nat (S (Z.to_nat (Z.log2 n))).
Proof.
  intros Hn. rewrite Nat2Z.inj_succ, Z2Nat.id by apply Z.log2_nonneg.
  destruct (Z.eq_dec n 0) as [-> | Hne]; [reflexivity|].
  apply Z.log2_spec. lia.
Qed.

Lemma read_digits_numeral (base n : Z) (rest : list ascii) :
  2 <= base <= 16 -> 0 <= n ->
  read_digits base 0 (digits base n ++ rest) = read_digits base n rest.
Proof.
  intros Hb Hn. unfold digits. apply read_to_digits; [exact Hb|].
  split; [exact Hn | now apply digits_fuel].
Qed.

(** Every character of a numeral is a digit of the base. *)
Lemma to_digits_chars (base : Z) (fuel : nat) : forall (n : Z),
  2 <= base -> 0 <= n ->
  Forall (fun c => exists d, 0 <= d < base /\ c = digit_char d)
         (to_digits fuel base n []).
Proof.
  induction fuel as [|fuel IH]; intros n Hb Hn; cbn [to_digits]; [constructor|].
  destruct (n <? base) eqn:Hlt.
  - apply Z.ltb_lt in Hlt. constructor; [|constructor]. exists n. split; [lia|reflexivity].
  - rewrite to_digits_app. apply Forall_app. split.
    + apply IH; [lia | apply Z.div_pos; lia].
    + constructor; [|constructor]. exists (n mod base).
      split; [apply Z.mod_pos_bound; lia | reflexivity].
Qed.

(** A numeral is never empty when there is fuel, and starts with a non-zero
    digit unless the number is zero. *)
Lemma to_digits_head (base : Z) (fuel : nat) : forall (n : Z),
  2 <= base -> 0 < n < 2 ^ Z.of_nat fuel ->
  exists d tl, 1 <= d < base /\ to_digits fuel base n [] = digit_char d :: tl.
Proof.
  induction fuel as [|fuel IH]; intros n Hb Hn.
  - cbn in Hn. lia.
  - cbn [to_digits]. destruct (n <? base) eqn:Hlt.
    + apply Z.ltb_lt in Hlt. exists n, []. split; [lia|reflexivity].
    + apply Z.ltb_ge in Hlt. rewrite pow2_succ_nat in Hn.
      destruct (IH (n / base) Hb) as (d & tl & Hd & E).
      { split; [apply Z.div_str_pos; lia|]. apply (div_base_bound base n); lia. }
      rewrite to_digits_app, E. exists d, (tl ++ [digit_char (n mod base)]).
      split; [exact Hd | reflexivity].
Qed.

Lemma digits_zero (base : Z) : 2 <= base -> digits base 0 = ["0"%char].
Proof.
  intros Hb. unfold digits. cbn [Z.log2 Z.to_nat to_digits].
  replace (0 <? base) with true by (symmetry; apply Z.ltb_lt; lia). reflexivity.
Qed.

Lemma digits_head (base n : Z) :
  2 <= base -> 0 < n ->
  exists d tl, 1 <= d < base /\ digits base n = digit_char d :: tl.
Proof.
  intros Hb Hn. unfold digits. apply to_digits_head; [exact Hb|].
  split; [exact Hn | apply digits_fuel; lia].
Qed.

(** The number of digits. *)
Lemma to_digits_length (base : Z) (fuel : nat) : forall (n : Z) (k : nat),
  2 <= base -> 0 <= n < base ^ Z.of_nat (S k) ->
  (List.length (to_digits (S fuel) base n []) <= S k)%nat.
Proof.
  induction fuel as [|fuel IH]; intros n k Hb Hn.
  - cbn [to_digits]. destruct (n <? base); cbn; lia.
  - remember (S fuel) as f. cbn [to_digits]. destruct (n <? base) eqn:Hlt.
    + cbn. lia.
    + apply Z.ltb_ge in Hlt. rewrite to_digits_app, length_app. cbn [List.length].
      destruct k as [|k].
      * cbn in Hn. lia.
      * subst f. specialize (IH (n / base) k Hb).
        rewrite (Nat2Z.inj_succ (S k)), Z.pow_succ_r in Hn by lia.
        assert (0 <= n / base < base ^ Z.of_nat (S k)).
        { split; [apply Z.div_pos; lia|]. apply Z.div_lt_upper_bound; lia. }
        specialize (IH H). lia.
Qed.

(** ** Bytes *)

Lemma byte_to_Z_range (b : Byte.byte) : 0 <= byte_to_Z b <= 255.
Proof.
  unfold byte_to_Z. pose proof (Byte.to_N_bounded b). lia.
Qed.

Lemma byte_to_of_Z (z : Z) : byte_to_Z (byte_of_Z z) = z mod 256.
Proof.
  unfold byte_to_Z, byte_of_Z.
  pose proof (Z.mod_pos_bound z 256 ltac:(lia)) as Hm.
  destruct (Byte.of_N (Z.to_N (z mod 256))) as [b|] eqn:E.
  - apply Byte.to_of_N in E. rewrite E. lia.
  - apply Byte.of_N_None_iff in E. lia.
Qed.

Lemma byte_of_to_Z (b : Byte.byte) : byte_of_Z (byte_to_Z b) = b.
Proof.
  unfold byte_of_Z, byte_to_Z. pose proof (Byte.to_N_bounded b).
  rewrite Z.mod_small by lia. rewrite N2Z.id, Byte.of_to_N. reflexivity.
Qed.

(** [int(bs.hex(), 16)] reads four bytes as one big-endian number. *)
Lemma int_base16_bytes_hex (b0 b1 b2 b3 : Byte.byte) :
  int_base16 (bytes_hex [b0; b1; b2; b3]) =
  Return (word (byte_to_Z b0) (byte_to_Z b1) (byte_to_Z b2) (byte_to_Z b3)).
Proof.
  unfold int_base16, bytes_hex. rewrite list_ascii_string_inv.
  cbn [flat_map app read_digits].
  pose proof (byte_to_Z_range b0). pose proof (byte_to_Z_range b1).
  pose proof (byte_to_Z_range b2). pose proof (byte_to_Z_range b3).
  repeat (rewrite digit_in_base_char;
          [ | first [apply Z.div_pos; lia | apply Z.mod_pos_bound; lia]
            | first [apply Z.div_lt_upper_bound; lia | apply Z.mod_pos_bound; lia]
            | lia ]).
  f_equal. unfold word.
  pose proof (Z.div_mod (byte_to_Z b0) 16). pose proof (Z.div_mod (byte_to_Z b1) 16).
  pose proof (Z.div_mod (byte_to_Z b2) 16). pose proof (Z.div_mod (byte_to_Z b3) 16).
  lia.
Qed.

(** ** inet_aton on decimal numerals *)

Lemma is_digit_char (d : Z) : 0 <= d < 10 -> is_digit (digit_char d) = true.
Proof.
  intros Hd. unfold is_digit. rewrite code_digit_char by lia.
  repeat decide_cmp. reflexivity.
Qed.

Lemma code_digit_char_pos (d : Z) : 0 <= d < 16 -> 48 <= code (digit_char d).
Proof.
  intros Hd. rewrite code_digit_char by lia. destruct (d <? 10) eqn:E; bool_to_Z; lia.
Qed.

Lemma digits_cons (n : Z) :
  0 <= n ->
  exists c tl, digits 10 n = c :: tl /\ is_digit c = true.
Proof.
  intros Hn. destruct (Z.eq_dec n 0) as [-> | Hne].
  - exists "0"%char, []. split; reflexivity.
  - destruct (digits_head 10 n ltac:(lia) ltac:(lia)) as (d & tl & Hd & E).
    exists (digit_char d), tl. split; [exact E | apply is_digit_char; lia].
Qed.

Lemma strtoul0_decimal_head (d : Z) (l : list ascii) :
  1 <= d < 10 ->
  strtoul0 (digit_char d :: l) = read_digits 10 0 (digit_char d :: l).
Proof.
  intros Hd.
  assert (Hc : d = 1 \/ d = 2 \/ d = 3 \/ d = 4 \/ d = 5 \/ d = 6 \/ d = 7 \/
               d = 8 \/ d = 9) by lia.
  repeat (destruct Hc as [-> | Hc]); try subst d; reflexivity.
Qed.

Lemma read_digits_stop (base n : Z) (rest : list ascii) :
  ends_numeral rest -> read_digits base n rest = (n, rest).
Proof. intros [-> | [r ->]]; reflexivity. Qed.

Lemma strtoul0_numeral (n : Z) (rest : list ascii) :
  0 <= n -> ends_numeral rest ->
  strtoul0 (digits 10 n ++ rest) = (n, rest).
Proof.
  intros Hn Hrest. destruct (Z.eq_dec n 0) as [-> | Hne].
  - rewrite digits_zero by lia.
    destruct Hrest as [-> | [r ->]]; [reflexivity|].
    destruct r as [|h r]; reflexivity.
  - destruct (digits_head 10 n ltac:(lia) ltac:(lia)) as (d & tl & Hd & E).
    pose proof (read_digits_numeral 10 n rest ltac:(lia) Hn) as Hr.
    rewrite E in Hr |- *. cbn [app] in Hr |- *.
    rewrite strtoul0_decimal_head by lia. rewrite Hr.
    now apply read_digits_stop.
Qed.

(** A numeral followed by a dot: one byte stored, if a slot is left. *)
Lemma inet_aton_loop_dot (slots : nat) (v : Z) (rest : list ascii) (stored : list Z) :
  0 <= v ->
  inet_aton_loop slots (digits 10 v ++ "."%char :: rest) stored =
  if 4294967295 <? v then None
  else match slots with
       | O => None
       | S slots' =>
           if 255 <? v then None
           else inet_aton_loop slots' rest (stored ++ [v])
       end.
Proof.
  intros Hv.
  pose proof (strtoul0_numeral v ("."%char :: rest) Hv
                (or_intror (ex_intro _ rest eq_refl))) as Hs.
  destruct (digits_cons v Hv) as (c & tl & E & Hc).
  rewrite E in Hs |- *. cbn [app] in Hs |- *.
  destruct slots; cbn [inet_aton_loop]; rewrite Hc, Hs; reflexivity.
Qed.

(** A numeral at the end of the string: it fills the bytes left. *)
Lemma inet_aton_loop_last (slots : nat) (v : Z) (stored : list Z) :
  0 <= v ->
  inet_aton_loop slots (digits 10 v) stored =
  if 4294967295 <? v then None
  else if v <=? max_last (List.length stored)
       then Some (pack (word_of_parts stored v))
       else None.
Proof.
  intros Hv.
  pose proof (strtoul0_numeral v [] Hv (or_introl eq_refl)) as Hs.
  rewrite app_nil_r in Hs.
  destruct (digits_cons v Hv) as (c & tl & E & Hc).
  rewrite E in Hs |- *.
  destruct slots; cbn [inet_aton_loop]; rewrite Hc, Hs; reflexivity.
Qed.

(** Without a digit in front nothing is read. *)
Lemma inet_aton_loop_no_digit (slots : nat) (cp : list ascii) (stored : list Z) :
  match cp with [] => True | c :: _ => is_digit c = false end ->
  inet_aton_loop slots cp stored = None.
Proof.
  destruct cp as [|c cp]; intros H; destruct slots; cbn [inet_aton_loop];
    try reflexivity; now rewrite H.
Qed.

Lemma no_nul_digits (base n : Z) :
  2 <= base <= 16 -> 0 <= n ->
  existsb (fun c => code c =? 0) (digits base n) = false.
Proof.
  intros Hb Hn. unfold digits.
  pose proof (to_digits_chars base (S (Z.to_nat (Z.log2 n))) n ltac:(lia) Hn) as HF.
  induction HF as [|c l (d & Hd & ->) _ IH]; [reflexivity|].
  cbn [existsb]. rewrite IH, orb_false_r.
  pose proof (code_digit_char_pos d ltac:(lia)). apply Z.eqb_neq. lia.
Qed.

Lemma no_nul_dotted (ns : list Z) :
  Forall (fun n => 0 <= n) ns ->
  existsb (fun c => code c =? 0) (dotted ns) = false.
Proof.
  induction 1 as [|n ns Hn _ IH]; [reflexivity|].
  destruct ns as [|n' ns]; cbn [dotted].
  - apply no_nul_digits; lia.
  - rewrite existsb_app, no_nul_digits by lia. cbn [existsb orb].
    exact IH.
Qed.

Lemma word_of_three (a b c d : Z) : word_of_parts [a; b; c] d = word a b c d.
Proof.
  unfold word_of_parts, word. cbn [List.length seq combine fold_left Z.of_nat].
  change (256 ^ (3 - 0)) with 16777216.
  change (256 ^ (3 - Z.of_nat 1)) with 65536.
  change (256 ^ (3 - Z.of_nat 2)) with 256. lia.
Qed.

Lemma word_bytes (a b c d : Z) :
  is_octet a -> is_octet b -> is_octet c -> is_octet d ->
  (word a b c d / 16777216) mod 256 = a /\
  (word a b c d / 65536) mod 256 = b /\
  (word a b c d / 256) mod 256 = c /\
  word a b c d mod 256 = d.
Proof.
  unfold is_octet, word. intros Ha Hb Hc Hd.
  repeat split; Z.div_mod_to_equations; lia.
Qed.

(** [iptoint] on a dotted quad of four octets. *)
Lemma iptoint_dotted_quad (a b c d : Z) :
  is_octet a -> is_octet b -> is_octet c -> is_octet d ->
  iptoint (dotted_quad a b c d) = Return (word a b c d).
Proof.
  intros Ha Hb Hc Hd. pose proof Ha as Ha'. pose proof Hb as Hb'.
  pose proof Hc as Hc'. pose proof Hd as Hd'. unfold is_octet in Ha', Hb', Hc', Hd'.
  unfold iptoint, inet_aton, dotted_quad. rewrite list_ascii_string_inv.
  rewrite no_nul_dotted by (repeat constructor; lia).
  cbn [dotted]. rewrite !inet_aton_loop_dot, inet_aton_loop_last by lia.
  cbn [List.length app max_last nth]. repeat decide_cmp.
  cbn [bind]. unfold pack. rewrite int_base16_bytes_hex, !byte_to_of_Z.
  rewrite word_of_three.
  destruct (word_bytes a b c d Ha Hb Hc Hd) as (-> & -> & -> & ->). reflexivity.
Qed.

(** ** inttoip on an address in range *)

Lemma read_digits_zeros (k : nat) (cs : list ascii) :
  read_digits 16 0 (repeat "0"%char k ++ cs) = read_digits 16 0 cs.
Proof. induction k as [|k IH]; [reflexivity | exact IH]. Qed.

Lemma hex_digit_char (d : Z) :
  0 <= d < 16 -> digit_in_base 16 (digit_char d) = Some d.
Proof. intros Hd. apply digit_in_base_char; lia. Qed.

(** Eight hexadecimal digits make four bytes, worth what the digits read. *)
Lemma unhexlify_eight (cs : list ascii) :
  List.length cs = 8%nat ->
  Forall (fun c => exists d, 0 <= d < 16 /\ c = digit_char d) cs ->
  exists a b c d,
    is_octet a /\ is_octet b /\ is_octet c /\ is_octet d /\
    unhexlify (map byte_of_ascii cs) =
      Return [byte_of_Z a; byte_of_Z b; byte_of_Z c; byte_of_Z d] /\
    read_digits 16 0 cs = (word a b c d, []).
Proof.
  intros Hlen HF.
  do 8 (destruct cs as [|? cs]; [discriminate Hlen|]).
  destruct cs; [|discriminate Hlen].
  repeat match goal with
         | H : Forall _ (_ :: _) |- _ =>
             let d := fresh "d" in
             let Hd := fresh "Hd" in
             apply Forall_cons_iff in H as [(d & Hd & ->) H]
         end.
  exists (d * 16 + d0), (d1 * 16 + d2), (d3 * 16 + d4), (d5 * 16 + d6).
  unfold is_octet. repeat (split; [lia|]).
  cbn [map unhexlify read_digits]. rewrite !ascii_of_byte_of_ascii.
  rewrite !hex_digit_char by lia. cbn [bind]. split; [reflexivity|].
  f_equal. unfold word. lia.
Qed.

Lemma digits16_not_sign (n : Z) :
  0 <= n ->
  exists c tl, digits 16 n = c :: tl /\ (code c =? 43) || (code c =? 45) = false.
Proof.
  intros Hn. unfold digits.
  pose proof (to_digits_chars 16 (S (Z.to_nat (Z.log2 n))) n ltac:(lia) Hn) as HF.
  cbn [to_digits] in *.
  destruct (n <? 16).
  - eexists. eexists. split; [reflexivity|].
    apply Forall_cons_iff in HF as [(d & Hd & ->) _].
    pose proof (code_digit_char_pos d Hd). repeat decide_cmp. reflexivity.
  - rewrite to_digits_app in *.
    destruct (to_digits (Z.to_nat (Z.log2 n)) 16 (n / 16) []) as [|c tl] eqn:E.
    + cbn [app] in *. eexists. eexists. split; [reflexivity|].
      apply Forall_cons_iff in HF as [(d & Hd & ->) _].
      pose proof (code_digit_char_pos d Hd). repeat decide_cmp. reflexivity.
    + cbn [app] in *. eexists. eexists. split; [reflexivity|].
      apply Forall_cons_iff in HF as [(d & Hd & ->) _].
      pose proof (code_digit_char_pos d Hd). repeat decide_cmp. reflexivity.
Qed.

Lemma digits16_length (n : Z) :
  0 <= n < 4294967296 -> (List.length (digits 16 n) <= 8)%nat.
Proof.
  intros Hn. unfold digits. apply to_digits_length; [lia|].
  change (16 ^ Z.of_nat 8) with 4294967296. exact Hn.
Qed.

(** The bytes [inttoip] hands to [inet_ntoa]. *)
Lemma inttoip_packed (n : Z) :
  0 <= n < 4294967296 ->
  exists a b c d,
    is_octet a /\ is_octet b /\ is_octet c /\ is_octet d /\
    n = word a b c d /\
    unhexlify (str_encode (zfill 8 (str_drop 2 (hex n)))) =
      Return [byte_of_Z a; byte_of_Z b; byte_of_Z c; byte_of_Z d].
Proof.
  intros Hn. unfold hex. replace (n <? 0) with false by (symmetry; apply Z.ltb_ge; lia).
  unfold str_drop. rewrite list_ascii_string_inv. cbn [skipn].
  unfold zfill. rewrite list_ascii_string_inv.
  destruct (digits16_not_sign n ltac:(lia)) as (c0 & tl & E & Hsign).
  pose proof (digits16_length n Hn) as Hlen.
  pose proof (to_digits_chars 16 (S (Z.to_nat (Z.log2 n))) n ltac:(lia) ltac:(lia)) as HF.
  fold (digits 16 n) in HF.
  pose proof (read_digits_numeral 16 n [] ltac:(lia) ltac:(lia)) as Hr.
  rewrite app_nil_r in Hr. cbn [read_digits] in Hr.
  rewrite E in *. rewrite Hsign.
  unfold str_encode. rewrite list_ascii_string_inv.
  set (pad := repeat "0"%char (8 - List.length (c0 :: tl))).
  destruct (unhexlify_eight (pad ++ c0 :: tl)) as (a & b & c & d & Ha & Hb & Hc & Hd & Hu & Hv).
  - rewrite length_app. unfold pad. rewrite repeat_length. lia.
  - apply Forall_app. split; [|exact HF].
    unfold pad. apply Forall_forall. intros x Hx. apply repeat_spec in Hx. subst x.
    exists 0. split; [lia | reflexivity].
  - exists a, b, c, d. repeat (split; [assumption|]). split; [|exact Hu].
    unfold pad in Hv. rewrite read_digits_zeros, Hr in Hv. congruence.
Qed.

Lemma inet_ntoa_octets (a b c d : Z) :
  is_octet a -> is_octet b -> is_octet c -> is_octet d ->
  inet_ntoa [byte_of_Z a; byte_of_Z b; byte_of_Z c; byte_of_Z d] =
  Return (dotted_quad a b c d).
Proof.
  unfold is_octet. intros Ha Hb Hc Hd. unfold inet_ntoa, dotted_quad.
  rewrite !byte_to_of_Z, !Z.mod_small by lia. reflexivity.
Qed.

(** [inttoip] writes an address in range as the quad of its four bytes. *)
Lemma inttoip_word (a b c d : Z) :
  is_octet a -> is_octet b -> is_octet c -> is_octet d ->
  inttoip (word a b c d) = Return (dotted_quad a b c d).
Proof.
  intros Ha Hb Hc Hd. unfold inttoip.
  destruct (inttoip_packed (word a b c d)) as (a' & b' & c' & d' & Ha' & Hb' & Hc' & Hd' & Hw & Hu).
  { unfold is_octet, word in *. lia. }
  assert (a' = a /\ b' = b /\ c' = c /\ d' = d) as (-> & -> & -> & ->).
  { unfold is_octet, word in *. lia. }
  rewrite Hu. cbn [bind]. now apply inet_ntoa_octets.
Qed.

Lemma word_octets (n : Z) :
  0 <= n < 4294967296 ->
  exists a b c d,
    is_octet a /\ is_octet b /\ is_octet c /\ is_octet d /\ n = word a b c d.
Proof.
  intros Hn.
  exists (n / 16777216), (n / 65536 mod 256), (n / 256 mod 256), (n mod 256).
  unfold is_octet, word. repeat split; Z.div_mod_to_equations; lia.
Qed.

(** The routines on a few strings, as the C library and CPython answer. *)
Example iptoint_forms :
  iptoint "66.96.160.133" = Return 1113628805 /\
  iptoint "1.2.3" = Return 16908291 /\
  iptoint "1.0xff" = Return 16777471 /\
  iptoint "010.0.0.1" = Return 134217729 /\
  iptoint "4294967295" = Return 4294967295 /\
  iptoint "4294967296" = Raise OSError /\
  iptoint "1.2.3.4.5" = Raise OSError /\
  iptoint "256.1.1.1" = Raise OSError /\
  iptoint "08.1.1.1" = Raise OSError /\
  iptoint "1.2.3.4x" = Raise OSError /\
  iptoint "" = Raise OSError.
Proof. vm_compute. repeat split. Qed.

Example inttoip_forms :
  inttoip 1113628805 = Return "66.96.160.133"%string /\
  inttoip 0 = Return "0.0.0.0"%string /\
  inttoip 4294967295 = Return "255.255.255.255"%string /\
  inttoip 4294967296 = Raise ValueError /\
  inttoip (-5) = Raise ValueError /\
  inttoip 68719476736 = Raise OSError.
Proof. vm_compute. repeat split. Qed.

Example encode_forms :
  encode (PyInt 1113628805) 5 = Return "a0ce0"%string /\
  encode (PyInt 1113628805) 10 = Return "a0ce0ac0c1"%string /\
  encode (PyInt 4294967295) 10 = Return "ffffffffff"%string /\
  encode (PyInt 0) 3 = Return "000"%string.
Proof. vm_compute. repeat split. Qed.

(** ** Which strings inet_aton refuses *)

Lemma dotted_cons (v v2 : Z) (ns : list Z) :
  dotted (v :: v2 :: ns) = digits 10 v ++ "."%char :: dotted (v2 :: ns).
Proof. reflexivity. Qed.

Lemma inet_aton_loop_too_many (slots : nat) : forall (ns : list Z) (stored : list Z),
  Forall (fun n => 0 <= n) ns -> (S slots < List.length ns)%nat ->
  inet_aton_loop slots (dotted ns) stored = None.
Proof.
  induction slots as [|slots IH]; intros ns stored Hns Hlen;
    (destruct ns as [|v [|v2 ns]]; [cbn in Hlen; lia | cbn in Hlen; lia |]);
    apply Forall_cons_iff in Hns as [Hv Hns];
    rewrite dotted_cons, inet_aton_loop_dot by lia.
  - destruct (4294967295 <? v); reflexivity.
  - destruct (4294967295 <? v); [reflexivity|].
    destruct (255 <? v); [reflexivity|].
    apply IH; [exact Hns | cbn [List.length] in *; lia].
Qed.

Lemma inet_aton_loop_big_octet (slots : nat) : forall (ns : list Z) (stored : list Z),
  Forall (fun n => 0 <= n) ns -> List.length ns = S slots ->
  (List.length stored + slots = 3)%nat ->
  Exists (fun n => 255 < n) ns ->
  inet_aton_loop slots (dotted ns) stored = None.
Proof.
  induction slots as [|slots IH]; intros ns stored Hns Hlen Hst Hex.
  - destruct ns as [|v [|v2 ns]]; try discriminate Hlen.
    apply Forall_cons_iff in Hns as [Hv _].
    apply Exists_cons in Hex as [Hbig | Hex]; [|inversion Hex].
    cbn [dotted]. rewrite inet_aton_loop_last by lia.
    replace (List.length stored) with 3%nat by lia. cbn [max_last nth].
    destruct (4294967295 <? v); [reflexivity|]. repeat decide_cmp. reflexivity.
  - destruct ns as [|v [|v2 ns]]; try discriminate Hlen.
    apply Forall_cons_iff in Hns as [Hv Hns].
    rewrite dotted_cons, inet_aton_loop_dot by lia.
    destruct (4294967295 <? v); [reflexivity|].
    destruct (255 <? v) eqn:Hbig; [reflexivity|]. apply Z.ltb_ge in Hbig.
    apply Exists_cons in Hex as [Hex | Hex]; [lia|].
    apply IH; [exact Hns | cbn [List.length] in *; lia | | exact Hex].
    rewrite length_app. cbn [List.length]. lia.
Qed.

Lemma inet_aton_loop_not_numeric (ns : list Z) : forall (slots : nat) (stored rest : list ascii)
    (st : list Z),
  Forall is_octet ns -> (List.length ns <= slots)%nat -> not_numeric rest ->
  inet_aton_loop slots (dotted_prefix ns ++ rest) st = None.
Proof.
  induction ns as [|v ns IH]; intros slots stored rest st Hns Hlen Hrest.
  - cbn [dotted_prefix flat_map app]. now apply inet_aton_loop_no_digit.
  - apply Forall_cons_iff in Hns as [Hv Hns]. unfold is_octet in Hv.
    destruct slots as [|slots]; [cbn in Hlen; lia|].
    cbn [dotted_prefix flat_map]. rewrite <- !app_assoc. cbn [app].
    rewrite inet_aton_loop_dot by lia. repeat decide_cmp.
    apply (IH slots stored); [exact Hns | cbn in Hlen; lia | exact Hrest].
Qed.

Lemma iptoint_refused (s : string) :
  inet_aton_loop 3 (list_ascii_of_string s) [] = None ->
  exists e, iptoint s = Raise e.
Proof.
  intros H. unfold iptoint, inet_aton. rewrite H.
  destruct (existsb _ _); eexists; reflexivity.
Qed.

(** ** Addresses as text *)

(** C5, as stated, fails: the integer of [66.96.160.133] is not
    1115866757. *)
Lemma iptoint_humangeo_is_not_1115866757 :
  iptoint "66.96.160.133" <> Return 1115866757.
Proof.
  assert (H : iptoint "66.96.160.133" = Return 1113628805)
    by (vm_compute; reflexivity).
  rewrite H. discriminate.
Qed.

(** C5, amended. [iptoint("66.96.160.133")] is 1113628805, and
    [decode_exactly(encode(x, 5))] returns, for that address as for
    1115866757, a value within the margin of five characters,
    [2147483647.5 / 8^5], a little under 65536, of [x]. *)
Theorem humangeo_scenario :
  iptoint "66.96.160.133" = Return 1113628805 /\
  (forall x, x = 1113628805 \/ x = 1115866757 ->
   exists value margin,
     roundtrip x 5 = Return (value, margin) /\
     (F2Q margin == ideal_margin 5)%Q /\
     (65535 < F2Q margin < 65536)%Q /\
     (Qabs (F2Q value - inject_Z x) <= F2Q margin)%Q).
Proof.
  split; [vm_compute; reflexivity|].
  intros x [-> | ->].
  - exists (S754_finite false 4671000271611840 (-22)),
           (S754_finite false 9007199252643840 (-37)).
    split; [vm_compute; reflexivity|]. split; [vm_compute; reflexivity|].
    split; [split; vm_compute; reflexivity|].
    apply Qle_bool_iff. vm_compute. reflexivity.
  - exists (S754_finite false 4680346120445760 (-22)),
           (S754_finite false 9007199252643840 (-37)).
    split; [vm_compute; reflexivity|]. split; [vm_compute; reflexivity|].
    split; [split; vm_compute; reflexivity|].
    apply Qle_bool_iff. vm_compute. reflexivity.
Qed.

Lemma humangeo_scenario_witness :
  exists value margin,
    roundtrip 1113628805 5 = Return (value, margin) /\
    (F2Q margin == ideal_margin 5)%Q /\
    (65535 < F2Q margin < 65536)%Q /\
    (Qabs (F2Q value - inject_Z 1113628805) <= F2Q margin)%Q.
Proof.
  destruct humangeo_scenario as [_ H]. apply (H 1113628805). left. reflexivity.
Defined.

(** C7, as stated, fails: a string with three parts instead of four is
    accepted, the last part filling two bytes. *)
Lemma iptoint_accepts_three_parts :
  octet_count "1.2.3" <> 4%nat /\ iptoint "1.2.3" = Return 16908291.
Proof. split; [vm_compute; discriminate | vm_compute; reflexivity]. Qed.

(** C7, amended. [iptoint] raises, and returns nothing, for decimal
    numerals joined by dots when there are more than four of them, or four
    with one above 255 (an [OSError] both times), and for any string in which,
    after at most three octets each followed by a dot, the next part is
    empty or does not start with a digit. *)
Theorem iptoint_rejects (ns : list Z) :
  (Forall (fun n => 0 <= n) ns -> (4 < List.length ns)%nat ->
   iptoint (string_of_list_ascii (dotted ns)) = Raise OSError) /\
  (Forall (fun n => 0 <= n) ns -> List.length ns = 4%nat ->
   Exists (fun n => 255 < n) ns ->
   iptoint (string_of_list_ascii (dotted ns)) = Raise OSError) /\
  (forall rest, Forall is_octet ns -> (List.length ns <= 3)%nat ->
   not_numeric rest ->
   exists e, iptoint (string_of_list_ascii (dotted_prefix ns ++ rest)) = Raise e).
Proof.
  split; [|split].
  - intros Hns Hlen. unfold iptoint, inet_aton. rewrite list_ascii_string_inv.
    rewrite no_nul_dotted by exact Hns.
    rewrite inet_aton_loop_too_many by (try exact Hns; lia). reflexivity.
  - intros Hns Hlen Hex. unfold iptoint, inet_aton. rewrite list_ascii_string_inv.
    rewrite no_nul_dotted by exact Hns.
    rewrite inet_aton_loop_big_octet by (try assumption; cbn; lia). reflexivity.
  - intros rest Hns Hlen Hrest. apply iptoint_refused.
    rewrite list_ascii_string_inv.
    now apply (inet_aton_loop_not_numeric ns 3 [] rest []).
Qed.

Lemma iptoint_rejects_witness :
  iptoint "1.2.3.4.5" = Raise OSError /\
  iptoint "1.2.3.256" = Raise OSError /\
  (exists e, iptoint "1.2.x" = Raise e).
Proof.
  split; [|split].
  - apply (proj1 (iptoint_rejects [1; 2; 3; 4; 5])).
    + repeat (apply Forall_cons; [lia|]). apply Forall_nil.
    + cbn. lia.
  - apply (proj1 (proj2 (iptoint_rejects [1; 2; 3; 256]))).
    + repeat (apply Forall_cons; [lia|]). apply Forall_nil.
    + reflexivity.
    + do 3 apply Exists_cons_tl. apply Exists_cons_hd. lia.
  - apply (proj2 (proj2 (iptoint_rejects [1; 2])) ["x"%char]).
    + repeat (apply Forall_cons; [unfold is_octet; lia|]). apply Forall_nil.
    + cbn. lia.
    + reflexivity.
Defined.

(** C8, as stated, fails: an octet written with a leading zero is read, and
    written back without it. *)
Lemma leading_zero_breaks_round_trip :
  dotted_quad_syntax "01.2.3.4" = true /\ ~ text_round_trip "01.2.3.4".
Proof.
  split; [vm_compute; reflexivity|].
  intros (n & Hn & Hs).
  assert (H : iptoint "01.2.3.4" = Return 16909060) by (vm_compute; reflexivity).
  rewrite H in Hn. injection Hn as <-.
  assert (H' : inttoip 16909060 = Return "1.2.3.4"%string) by (vm_compute; reflexivity).
  rewrite H' in Hs. discriminate Hs.
Qed.

(** ** Canonical text *)

Lemma split_dots_cons (cs : list ascii) : exists p ps, split_dots cs = p :: ps.
Proof.
  destruct cs as [|c cs]; cbn [split_dots]; [now eexists; eexists|].
  destruct (Ascii.eqb c "."); [now eexists; eexists|].
  destruct (split_dots cs); now eexists; eexists.
Qed.

Lemma join_split_dots (cs : list ascii) : join_dots (split_dots cs) = cs.
Proof.
  induction cs as [|c cs IH]; [reflexivity|]. cbn [split_dots].
  destruct (split_dots_cons cs) as (p & ps & E). rewrite E in *.
  destruct (Ascii.eqb c ".") eqn:Hc.
  - apply Ascii.eqb_eq in Hc. subst c.
    change (join_dots ([] :: p :: ps)) with ("."%char :: join_dots (p :: ps)).
    now rewrite IH.
  - destruct ps as [|p' ps].
    + cbn [join_dots] in *. now rewrite IH.
    + change (join_dots ((c :: p) :: p' :: ps))
        with (c :: join_dots (p :: p' :: ps)).
      now rewrite IH.
Qed.

Lemma is_digit_inv (c : ascii) :
  is_digit c = true -> exists d, 0 <= d < 10 /\ c = digit_char d.
Proof.
  intros H. exists (code c - 48).
  unfold is_digit in H. bool_to_Z. split; [lia|].
  destruct c as [b0 b1 b2 b3 b4 b5 b6 b7].
  destruct b0, b1, b2, b3, b4, b5, b6, b7;
    first [reflexivity | exfalso; vm_compute in H; destruct H as [H1 H2];
                         first [now apply H1 | now apply H2]].
Qed.

Lemma digits_of_1 (d : Z) : 0 <= d <= 9 -> digits 10 d = [digit_char d].
Proof.
  intros H.
  assert (Hc : d = 0 \/ d = 1 \/ d = 2 \/ d = 3 \/ d = 4 \/ d = 5 \/ d = 6 \/
               d = 7 \/ d = 8 \/ d = 9) by lia.
  repeat (destruct Hc as [-> | Hc]); try subst d; reflexivity.
Qed.

Ltac ten_cases d :=
  let Hc := fresh "Hc" in
  assert (Hc : d = 0 \/ d = 1 \/ d = 2 \/ d = 3 \/ d = 4 \/ d = 5 \/ d = 6 \/
               d = 7 \/ d = 8 \/ d = 9) by lia;
  repeat (destruct Hc as [-> | Hc]); try subst d.

Lemma digits_of_2 (d1 d2 : Z) :
  1 <= d1 <= 9 -> 0 <= d2 <= 9 ->
  digits 10 (d1 * 10 + d2) = [digit_char d1; digit_char d2].
Proof. intros H1 H2. ten_cases d1; try lia; ten_cases d2; reflexivity. Qed.

Lemma digits_of_3 (d1 d2 d3 : Z) :
  1 <= d1 <= 9 -> 0 <= d2 <= 9 -> 0 <= d3 <= 9 ->
  digits 10 ((d1 * 10 + d2) * 10 + d3) = [digit_char d1; digit_char d2; digit_char d3].
Proof.
  intros H1 H2 H3. ten_cases d1; try lia; ten_cases d2; ten_cases d3; reflexivity.
Qed.

Lemma digit_char_zero (d : Z) :
  0 <= d < 10 -> negb (Ascii.eqb (digit_char d) "0") = true -> 1 <= d.
Proof.
  intros Hd H. destruct (Z.eq_dec d 0) as [-> | Hne]; [discriminate H | lia].
Qed.

(** An octet without leading zeros is the numeral of its value. *)
Lemma canonical_octet_digits (p : list ascii) :
  canonical_octet p = true -> exists v, is_octet v /\ p = digits 10 v.
Proof.
  unfold canonical_octet, octet_text. intros H.
  destruct p as [|c1 p]; [discriminate H|].
  apply andb_true_iff in H as [H Hz].
  apply andb_true_iff in H as [H Hv]. apply andb_true_iff in H as [Hd Hlen].
  apply Z.leb_le in Hv. apply Nat.leb_le in Hlen.
  destruct p as [|c2 [|c3 [|c4 p]]]; cbn [List.length] in Hlen; try lia;
    cbn [forallb] in Hd; rewrite ?andb_true_iff in Hd.
  - destruct Hd as [Hd1 _]. apply is_digit_inv in Hd1 as (d1 & Hd1 & ->).
    cbn [read_digits] in Hv. rewrite digit_in_base_char in Hv by lia.
    cbn [fst] in Hv. exists d1. split; [unfold is_octet; lia|].
    now rewrite digits_of_1 by lia.
  - destruct Hd as (Hd1 & Hd2 & _).
    apply is_digit_inv in Hd1 as (d1 & Hd1 & ->).
    apply is_digit_inv in Hd2 as (d2 & Hd2 & ->).
    apply digit_char_zero in Hz; [|lia].
    cbn [read_digits] in Hv. rewrite !digit_in_base_char in Hv by lia.
    cbn [fst] in Hv. exists (d1 * 10 + d2). split; [unfold is_octet; lia|].
    now rewrite digits_of_2 by lia.
  - destruct Hd as (Hd1 & Hd2 & Hd3 & _).
    apply is_digit_inv in Hd1 as (d1 & Hd1 & ->).
    apply is_digit_inv in Hd2 as (d2 & Hd2 & ->).
    apply is_digit_inv in Hd3 as (d3 & Hd3 & ->).
    apply digit_char_zero in Hz; [|lia].
    cbn [read_digits] in Hv. rewrite !digit_in_base_char in Hv by lia.
    cbn [fst] in Hv. exists ((d1 * 10 + d2) * 10 + d3).
    split; [unfold is_octet; lia|]. now rewrite digits_of_3 by lia.
Qed.

Lemma canonical_quad_dotted (s : string) :
  canonical_quad s = true ->
  exists a b c d,
    is_octet a /\ is_octet b /\ is_octet c /\ is_octet d /\ s = dotted_quad a b c d.
Proof.
  unfold canonical_quad. intros H. apply andb_true_iff in H as [Hlen Hall].
  apply Nat.eqb_eq in Hlen.
  pose proof (join_split_dots (list_ascii_of_string s)) as Hj.
  destruct (split_dots (list_ascii_of_string s)) as [|p1 [|p2 [|p3 [|p4 [|p5 ps]]]]];
    try discriminate Hlen.
  cbn [forallb] in Hall. rewrite !andb_true_iff in Hall.
  destruct Hall as (H1 & H2 & H3 & H4 & _).
  apply canonical_octet_digits in H1 as (a & Ha & ->).
  apply canonical_octet_digits in H2 as (b & Hb & ->).
  apply canonical_octet_digits in H3 as (c & Hc & ->).
  apply canonical_octet_digits in H4 as (d & Hd & ->).
  exists a, b, c, d. repeat (split; [assumption|]).
  unfold dotted_quad. rewrite <- (string_of_list_ascii_of_string s), <- Hj.
  reflexivity.
Qed.

(** C8, amended. For every dotted quad written without leading zeros,
    [inttoip(iptoint(s)) == s]; and for every integer [n] in
    [0, 4294967295], [iptoint(inttoip(n)) == n]. *)
Theorem address_round_trip :
  (forall s, canonical_quad s = true -> text_round_trip s) /\
  (forall n, 0 <= n <= 4294967295 -> int_round_trip n).
Proof.
  split.
  - intros s Hs.
    destruct (canonical_quad_dotted s Hs) as (a & b & c & d & Ha & Hb & Hc & Hd & ->).
    exists (word a b c d). split.
    + now apply iptoint_dotted_quad.
    + now apply inttoip_word.
  - intros n Hn.
    destruct (word_octets n ltac:(lia)) as (a & b & c & d & Ha & Hb & Hc & Hd & ->).
    exists (dotted_quad a b c d). split.
    + now apply inttoip_word.
    + now apply iptoint_dotted_quad.
Qed.

Lemma address_round_trip_witness :
  text_round_trip "66.96.160.133" /\ int_round_trip 1113628805.
Proof.
  destruct address_round_trip as [Ht Hi]. split.
  - apply (Ht "66.96.160.133"%string). reflexivity.
  - apply (Hi 1113628805). lia.
Defined.

(** ** Binary64 sums and halves, exactly *)

Lemma digits_log2 (p : positive) :
  Z.pos (digits2_pos p) = Z.log2 (Z.pos p) + 1.
Proof.
  assert (H : forall q, digits2_pos q = Pos.size q).
  { induction q as [q IH|q IH|]; cbn; [now rewrite IH .. | reflexivity]. }
  destruct p; cbn [Z.log2]; rewrite ?H; cbn [Pos.size]; lia.
Qed.

Lemma digits_bounds (p : positive) :
  2 ^ (Z.pos (digits2_pos p) - 1) <= Z.pos p < 2 ^ Z.pos (digits2_pos p).
Proof.
  rewrite digits_log2. replace (Z.log2 (Z.pos p) + 1 - 1) with (Z.log2 (Z.pos p)) by lia.
  apply Z.log2_spec. lia.
Qed.

Lemma iter_xO (m d : positive) :
  Z.pos (Pos.iter xO m d) = Z.pos m * 2 ^ Z.pos d.
Proof.
  induction d as [|d IH] using Pos.peano_ind.
  - cbn [Pos.iter]. lia.
  - rewrite Pos.iter_succ, Pos2Z.inj_succ, Z.pow_succ_r by lia.
    rewrite Pos2Z.inj_xO, IH. lia.
Qed.

Lemma shl_align_fst (m : positive) (e e' : Z) :
  e' <= e -> Z.pos (fst (shl_align m e e')) = Z.pos m * 2 ^ (e - e').
Proof.
  intros Hle. unfold shl_align. destruct (e' - e) as [|d|d] eqn:E.
  - replace (e - e') with 0 by lia. cbn [fst]. lia.
  - lia.
  - cbn [fst]. rewrite iter_xO. f_equal. f_equal. lia.
Qed.

Lemma iter_pos_nat {A : Type} (f : A -> A) (p : positive) : forall x,
  iter_pos f p x = Nat.iter (Pos.to_nat p) f x.
Proof.
  induction p as [p IH|p IH|]; intros x; cbn [iter_pos].
  - rewrite !IH, Pos2Nat.inj_xI. rewrite <- Nat.iter_succ_r, <- Nat.iter_add.
    f_equal. lia.
  - rewrite !IH, Pos2Nat.inj_xO, <- Nat.iter_add. f_equal. lia.
  - reflexivity.
Qed.

Lemma shr_1_spec (m : Z) (r s : bool) :
  0 <= m ->
  shr_1 {| shr_m := m; shr_r := r; shr_s := s |} =
  {| shr_m := m / 2; shr_r := Z.odd m; shr_s := r || s |}.
Proof.
  intros Hm. destruct m as [|[p|p|]|p]; try lia; cbn [shr_1 Z.odd].
  - reflexivity.
  - f_equal. rewrite Pos2Z.inj_xI. apply Z.div_unique with 1; lia.
  - f_equal. rewrite Pos2Z.inj_xO. apply Z.div_unique with 0; lia.
  - reflexivity.
Qed.

Lemma shr_iter_spec (M : Z) (k : nat) :
  0 <= M ->
  Nat.iter (S k) shr_1 {| shr_m := M; shr_r := false; shr_s := false |} =
  {| shr_m := M / 2 ^ Z.of_nat (S k);
     shr_r := Z.odd (M / 2 ^ Z.of_nat k);
     shr_s := negb (M mod 2 ^ Z.of_nat k =? 0) |}.
Proof.
  intros HM. induction k as [|k IH].
  - cbn [Nat.iter nat_rect]. rewrite shr_1_spec by lia.
    change (2 ^ Z.of_nat 1) with 2. change (2 ^ Z.of_nat 0) with 1.
    rewrite Z.div_1_r, Z.mod_1_r. reflexivity.
  - rewrite Nat.iter_succ, IH.
    assert (Hp : 0 < 2 ^ Z.of_nat k) by (apply Z.pow_pos_nonneg; lia).
    assert (Hp' : 2 ^ Z.of_nat (S k) = 2 ^ Z.of_nat k * 2)
      by (rewrite Nat2Z.inj_succ, Z.pow_succ_r by lia; lia).
    rewrite shr_1_spec by (apply Z.div_pos; lia).
    f_equal.
    + rewrite (Nat2Z.inj_succ (S k)), Z.pow_succ_r by lia.
      rewrite Z.div_div by lia. f_equal. lia.
    + rewrite Hp', Z.rem_mul_r by lia. rewrite Zmod_odd.
      pose proof (Z.mod_pos_bound M (2 ^ Z.of_nat k) Hp).
      clear IH.
      destruct (Z.odd (M / 2 ^ Z.of_nat k));
        destruct (Z.eqb_spec (M mod 2 ^ Z.of_nat k) 0) as [E2|E2];
        match goal with |- context [?a =? 0] => destruct (Z.eqb_spec a 0) end;
        cbn [negb orb]; try reflexivity; exfalso; nia.
Qed.

Lemma round_record_rne (M : Z) (k : nat) :
  0 <= M ->
  round_nearest_even (M / 2 ^ Z.of_nat (S k))
    (loc_of_shr_record
       {| shr_m := M / 2 ^ Z.of_nat (S k);
          shr_r := Z.odd (M / 2 ^ Z.of_nat k);
          shr_s := negb (M mod 2 ^ Z.of_nat k =? 0) |}) =
  rne M (Z.of_nat (S k)).
Proof.
  intros HM. unfold rne. cbv zeta.
  replace (Z.of_nat (S k) - 1) with (Z.of_nat k) by lia.
  assert (Hp : 0 < 2 ^ Z.of_nat k) by (apply Z.pow_pos_nonneg; lia).
  assert (Hp' : 2 ^ Z.of_nat (S k) = 2 ^ Z.of_nat k * 2)
    by (rewrite Nat2Z.inj_succ, Z.pow_succ_r by lia; lia).
  replace (M mod 2 ^ Z.of_nat (S k)) with (M mod (2 ^ Z.of_nat k * 2))
    by (now rewrite Hp').
  rewrite Z.rem_mul_r by lia. rewrite Zmod_odd.
  pose proof (Z.mod_pos_bound M (2 ^ Z.of_nat k) Hp) as Ht.
  set (t := M mod 2 ^ Z.of_nat k) in *. set (h := 2 ^ Z.of_nat k) in *.
  destruct (Z.odd (M / h)); destruct (Z.eqb_spec t 0) as [E|E];
    cbn [negb loc_of_shr_record round_nearest_even].
  - rewrite E. replace (0 + h * 1 <? h) with false by (symmetry; apply Z.ltb_ge; lia).
    replace (h <? 0 + h * 1) with false by (symmetry; apply Z.ltb_ge; lia).
    reflexivity.
  - replace (t + h * 1 <? h) with false by (symmetry; apply Z.ltb_ge; lia).
    replace (h <? t + h * 1) with true by (symmetry; apply Z.ltb_lt; lia).
    reflexivity.
  - replace (t + h * 0 <? h) with true by (symmetry; apply Z.ltb_lt; lia).
    reflexivity.
  - replace (t + h * 0 <? h) with true by (symmetry; apply Z.ltb_lt; lia).
    reflexivity.
Qed.

(** The right shift that brings a mantissa back to 53 bits. *)
Lemma shr_fexp_pos (m : positive) (e : Z) :
  -1020 <= e ->
  shr_fexp prec emax (Z.pos m) e loc_Exact =
  if Z.log2 (Z.pos m) - 52 <=? 0
  then ({| shr_m := Z.pos m; shr_r := false; shr_s := false |}, e)
  else (Nat.iter (Z.to_nat (Z.log2 (Z.pos m) - 52)) shr_1
          {| shr_m := Z.pos m; shr_r := false; shr_s := false |},
        e + (Z.log2 (Z.pos m) - 52)).
Proof.
  intros He. unfold shr_fexp, fexp, emin, prec, emax, Zdigits2.
  cbn [shr_record_of_loc]. rewrite digits_log2.
  pose proof (Z.log2_nonneg (Z.pos m)) as Hl.
  replace (Z.max (Z.log2 (Z.pos m) + 1 + e - 53) (3 - 1024 - 53) - e)
    with (Z.log2 (Z.pos m) - 52) by lia.
  unfold shr. destruct (Z.log2 (Z.pos m) - 52) as [|p|p] eqn:E.
  - reflexivity.
  - replace (Z.pos p <=? 0) with false by (symmetry; apply Z.leb_gt; lia).
    rewrite iter_pos_nat. reflexivity.
  - reflexivity.
Qed.

Lemma log2_53 (m : Z) : 2 ^ 52 <= m < 2 ^ 53 -> Z.log2 m = 52.
Proof. intros H. apply Z.log2_unique; [lia | exact H]. Qed.

(** What [binary_round_aux] makes of a positive integer of at least 53
    bits: 53 bits, rounded to nearest even. *)
Lemma binary_round_aux_pos (M : positive) (ez : Z) :
  52 <= Z.log2 (Z.pos M) -> -1000 <= ez -> ez + Z.log2 (Z.pos M) <= 900 ->
  exists m e,
    binary_round_aux prec emax false (Z.pos M) ez loc_Exact = S754_finite false m e /\
    Z.log2 (Z.pos m) = 52 /\ ez <= e <= 900 /\
    Z.pos m * 2 ^ (e - ez) = rnd53 (Z.pos M).
Proof.
  intros Hd Hez Hup. unfold binary_round_aux. rewrite shr_fexp_pos by lia.
  unfold rnd53. cbv zeta.
  pose proof (Z.log2_spec (Z.pos M) ltac:(lia)) as Hspec.
  destruct (Z.leb_spec (Z.log2 (Z.pos M) - 52) 0) as [Hn|Hn].
  - (* exactly 53 bits: nothing to round *)
    assert (Hl : Z.log2 (Z.pos M) = 52) by lia.
    cbn [shr_m loc_of_shr_record round_nearest_even].
    rewrite shr_fexp_pos by lia. rewrite Hl.
    change (52 - 52 <=? 0) with true. cbn [shr_m].
    replace (ez <=? emax - prec) with true
      by (symmetry; apply Z.leb_le; unfold emax, prec; lia).
    exists M, ez. split; [reflexivity|]. split; [exact Hl|]. split; [lia|].
    rewrite Z.sub_diag. lia.
  - set (n := Z.log2 (Z.pos M) - 52) in *.
    destruct (Z.to_nat n) as [|k] eqn:Ek; [lia|].
    assert (Hnk : n = Z.of_nat (S k)) by lia.
    rewrite shr_iter_spec by lia. cbn [shr_m].
    rewrite round_record_rne by lia. rewrite <- Hnk.
    assert (Hpn : 0 < 2 ^ n) by (apply Z.pow_pos_nonneg; lia).
    assert (Hq : 2 ^ 52 <= Z.pos M / 2 ^ n < 2 ^ 53).
    { replace (Z.log2 (Z.pos M)) with (52 + n) in Hspec by lia.
      replace (Z.succ (52 + n)) with (53 + n) in Hspec by lia.
      rewrite !Z.pow_add_r in Hspec by lia. split.
      - apply Z.div_le_lower_bound; lia.
      - apply Z.div_lt_upper_bound; lia. }
    assert (Hr : Z.pos M / 2 ^ n <= rne (Z.pos M) n <= Z.pos M / 2 ^ n + 1).
    { unfold rne. cbv zeta.
      destruct (_ <? _); [lia|]. destruct (_ <? _); [lia|]. destruct (Z.even _); lia. }
    destruct (rne (Z.pos M) n) as [|m''|m''] eqn:Em; try lia.
    rewrite shr_fexp_pos by lia.
    destruct (Z.leb_spec (Z.log2 (Z.pos m'') - 52) 0) as [Hn2|Hn2].
    + cbn [shr_m].
      replace (ez + n <=? emax - prec) with true
        by (symmetry; apply Z.leb_le; unfold emax, prec; lia).
      assert (Z.pos m'' < 2 ^ 53).
      { destruct (Z.lt_ge_cases (Z.pos m'') (2 ^ 53)) as [Hlt|Hge]; [exact Hlt|].
        pose proof (Z.log2_le_mono _ _ Hge) as Hmono.
        rewrite Z.log2_pow2 in Hmono by lia. lia. }
      exists m'', (ez + n). split; [reflexivity|].
      split; [apply log2_53; lia|]. split; [lia|].
      replace (ez + n - ez) with n by lia. reflexivity.
    + assert (Hm : Z.pos m'' = 2 ^ 53).
      { destruct (Z.lt_ge_cases (Z.pos m'') (2 ^ 53)) as [Hlt|Hge]; [|lia].
        rewrite log2_53 in Hn2 by lia. lia. }
      rewrite Hm. change (Z.log2 (2 ^ 53) - 52) with 1.
      change (Z.to_nat 1) with 1%nat. cbn [Nat.iter nat_rect].
      rewrite shr_1_spec by lia. cbn [shr_m].
      change (2 ^ 53 / 2) with (Z.pos (2 ^ 52)).
      replace (ez + n + 1 <=? emax - prec) with true
        by (symmetry; apply Z.leb_le; unfold emax, prec; lia).
      exists (2 ^ 52)%positive, (ez + n + 1). split; [reflexivity|].
      split; [reflexivity|]. split; [lia|].
      replace (ez + n + 1 - ez) with (n + 1) by lia.
      rewrite Z.pow_add_r by lia. change (Z.pos (2 ^ 52)) with (2 ^ 52).
      change (2 ^ 53) with (2 ^ 52 * 2). lia.
Qed.

Lemma rne_scale (M n t : Z) :
  0 < n -> 0 <= t -> rne (M * 2 ^ t) (n + t) = rne M n.
Proof.
  intros Hn Ht. unfold rne. cbv zeta.
  assert (H2t : 0 < 2 ^ t) by (apply Z.pow_pos_nonneg; lia).
  assert (H2n : 0 < 2 ^ n) by (apply Z.pow_pos_nonneg; lia).
  assert (H2h : 0 < 2 ^ (n - 1)) by (apply Z.pow_pos_nonneg; lia).
  rewrite (Z.pow_add_r 2 n t) by lia.
  rewrite Z.div_mul_cancel_r by lia.
  rewrite Z.mul_mod_distr_r by lia.
  replace (n + t - 1) with (n - 1 + t) by lia. rewrite (Z.pow_add_r 2 (n - 1) t) by lia.
  set (r := M mod 2 ^ n). set (h := 2 ^ (n - 1)) in *. set (s := 2 ^ t) in *.
  destruct (Z.ltb_spec r h) as [H1|H1].
  - replace (r * s <? h * s) with true by (symmetry; apply Z.ltb_lt; nia). reflexivity.
  - replace (r * s <? h * s) with false by (symmetry; apply Z.ltb_ge; nia).
    destruct (Z.ltb_spec h r) as [H3|H3].
    + replace (h * s <? r * s) with true by (symmetry; apply Z.ltb_lt; nia). reflexivity.
    + replace (h * s <? r * s) with false by (symmetry; apply Z.ltb_ge; nia). reflexivity.
Qed.

Lemma rne_exact (M t : Z) : 0 < t -> rne (M * 2 ^ t) t = M.
Proof.
  intros Ht. unfold rne. cbv zeta.
  assert (H2t : 0 < 2 ^ t) by (apply Z.pow_pos_nonneg; lia).
  assert (H2h : 0 < 2 ^ (t - 1)) by (apply Z.pow_pos_nonneg; lia).
  rewrite Z.div_mul, Z.mod_mul by lia.
  replace (0 <? 2 ^ (t - 1)) with true by (symmetry; apply Z.ltb_lt; lia).
  reflexivity.
Qed.

(** Rounding commutes with scaling by a power of two. *)
Lemma rnd53_scale (M t : Z) :
  0 < M -> 52 <= Z.log2 M -> 0 <= t -> rnd53 (M * 2 ^ t) = rnd53 M * 2 ^ t.
Proof.
  intros HM Hl Ht. unfold rnd53. cbv zeta.
  rewrite Z.log2_mul_pow2 by lia.
  destruct (Z.leb_spec (Z.log2 M - 52) 0) as [Hn|Hn];
    destruct (Z.leb_spec (t + Z.log2 M - 52) 0) as [Hn'|Hn']; try lia.
  - assert (Z.log2 M = 52) by lia.
    replace (t + Z.log2 M - 52) with t by lia. rewrite rne_exact by lia. reflexivity.
  - replace (t + Z.log2 M - 52) with (Z.log2 M - 52 + t) by lia.
    rewrite rne_scale by lia. rewrite Z.pow_add_r by lia. lia.
Qed.

(** A number of 53 bits, scaled, rounds to itself. *)
Lemma rnd53_exact (m t : Z) :
  Z.log2 m = 52 -> 0 <= t -> rnd53 (m * 2 ^ t) = m * 2 ^ t.
Proof.
  intros Hl Ht.
  assert (0 < m). { destruct m; cbn in Hl; lia. }
  rewrite rnd53_scale by lia. unfold rnd53. cbv zeta. rewrite Hl. reflexivity.
Qed.

(** The sum of two normal positive floats. *)
Lemma fadd_normal (m1 m2 : positive) (e1 e2 : Z) :
  Z.log2 (Z.pos m1) = 52 -> Z.log2 (Z.pos m2) = 52 ->
  -1000 <= e1 <= 800 -> -1000 <= e2 <= 800 ->
  exists m e,
    fadd (S754_finite false m1 e1) (S754_finite false m2 e2) = S754_finite false m e /\
    Z.log2 (Z.pos m) = 52 /\ Z.min e1 e2 <= e <= 900 /\
    Z.pos m * 2 ^ (e - Z.min e1 e2) =
    rnd53 (Z.pos m1 * 2 ^ (e1 - Z.min e1 e2) + Z.pos m2 * 2 ^ (e2 - Z.min e1 e2)).
Proof.
  intros Hl1 Hl2 He1 He2. unfold fadd, SFadd. cbn [cond_Zopp].
  set (ez := Z.min e1 e2).
  pose proof (shl_align_fst m1 e1 ez ltac:(lia)) as Ha.
  pose proof (shl_align_fst m2 e2 ez ltac:(lia)) as Hb.
  set (a := fst (shl_align m1 e1 ez)) in *. set (b := fst (shl_align m2 e2 ez)) in *.
  rewrite <- Ha, <- Hb. change (Z.pos a + Z.pos b) with (Z.pos (a + b)).
  cbn [binary_normalize]. unfold binary_round.
  pose proof (Z.log2_spec (Z.pos m1) ltac:(lia)) as Hs1.
  pose proof (Z.log2_spec (Z.pos m2) ltac:(lia)) as Hs2.
  rewrite Hl1 in Hs1. rewrite Hl2 in Hs2.
  assert (Hp1 : 1 <= 2 ^ (e1 - ez)) by (pose proof (Z.pow_pos_nonneg 2 (e1 - ez)); lia).
  assert (Hp2 : 1 <= 2 ^ (e2 - ez)) by (pose proof (Z.pow_pos_nonneg 2 (e2 - ez)); lia).
  assert (Hlow : 52 <= Z.log2 (Z.pos (a + b))).
  { change 52 with (Z.log2 (2 ^ 52)). apply Z.log2_le_mono.
    rewrite Pos2Z.inj_add. nia. }
  assert (Hhigh : Z.log2 (Z.pos (a + b)) < 54 + (Z.max e1 e2 - ez)).
  { apply Z.log2_lt_pow2; [lia|]. rewrite Pos2Z.inj_add, Ha, Hb.
    rewrite Z.pow_add_r by lia. change (2 ^ 54) with (2 * 2 ^ 53).
    assert (2 ^ (e1 - ez) <= 2 ^ (Z.max e1 e2 - ez)) by (apply Z.pow_le_mono_r; lia).
    assert (2 ^ (e2 - ez) <= 2 ^ (Z.max e1 e2 - ez)) by (apply Z.pow_le_mono_r; lia).
    change (Z.succ 52) with 53 in *. nia. }
  assert (Hal : shl_align (a + b) ez
                  (fexp prec emax (Z.pos (digits2_pos (a + b)) + ez)) = ((a + b)%positive, ez)).
  { unfold shl_align, fexp, emin, prec, emax. rewrite digits_log2.
    match goal with
    | |- match ?x with _ => _ end = _ => destruct x as [|p|p] eqn:E
    end; try reflexivity.
    pose proof (Pos2Z.neg_is_neg p).
    change IntDef.Z.max with Z.max in E. lia. }
  rewrite Hal.
  destruct (binary_round_aux_pos (a + b) ez Hlow ltac:(lia) ltac:(lia))
    as (m & e & Hr & Hm & He & Hv).
  exists m, e. split; [exact Hr|]. split; [exact Hm|]. split; [lia|].
  rewrite Hv. reflexivity.
Qed.

(** Halving a normal positive float only lowers its exponent. *)
Lemma fdiv_two_normal (m : positive) (e : Z) :
  Z.log2 (Z.pos m) = 52 -> -1000 <= e <= 900 ->
  fdiv (S754_finite false m e) f_two = S754_finite false m (e - 1).
Proof.
  intros Hl He. change f_two with (S754_finite false (2 ^ 52) (-51)).
  unfold fdiv, SFdiv. cbn [xorb]. unfold SFdiv_core_binary.
  unfold Zdigits2, fexp, emin, prec, emax. rewrite digits_log2, Hl.
  change (Z.pos (digits2_pos (2 ^ 52))) with 53.
  replace (Z.min (Z.max (52 + 1 + e - (53 + -51) - 53) (3 - 1024 - 53)) (e - -51))
    with (e - 2) by lia.
  replace (e - -51 - (e - 2)) with 53 by lia.
  rewrite Z.shiftl_mul_pow2 by lia.
  assert (Hdiv : Z.div_eucl (Z.pos m * 2 ^ 53) (Z.pos (2 ^ 52)) = (Z.pos m~0, 0)).
  { pose proof (Z.div_eucl_eq (Z.pos m * 2 ^ 53) (Z.pos (2 ^ 52)) ltac:(lia)) as H.
    pose proof (Z.mod_pos_bound (Z.pos m * 2 ^ 53) (Z.pos (2 ^ 52)) ltac:(lia)) as Hb.
    unfold Z.modulo in Hb. destruct (Z.div_eucl _ _) as [q r].
    change (Z.pos (2 ^ 52)) with (2 ^ 52) in *. change (2 ^ 53) with (2 ^ 52 * 2) in *.
    rewrite Pos2Z.inj_xO. change (2 ^ 52) with 4503599627370496 in *.
    assert (Hq : q = 2 * Z.pos m) by nia.
    assert (Hr : r = 0) by (subst q; lia). now rewrite Hq, Hr. }
  rewrite Hdiv.
  change (new_location (Z.pos (2 ^ 52)) 0) with loc_Exact.
  assert (Hl2 : Z.log2 (Z.pos m~0) = 53).
  { rewrite Pos2Z.inj_xO. rewrite Z.log2_double by lia. lia. }
  unfold binary_round_aux. rewrite shr_fexp_pos by lia. rewrite Hl2.
  change (53 - 52 <=? 0) with false. change (Z.to_nat (53 - 52)) with 1%nat.
  cbn [Nat.iter nat_rect]. rewrite shr_1_spec by lia. cbn [shr_m shr_r shr_s].
  change (Z.odd (Z.pos m~0)) with false.
  replace (Z.pos m~0 / 2) with (Z.pos m)
    by (rewrite Pos2Z.inj_xO; apply Z.div_unique with 0; lia).
  cbn [andb orb loc_of_shr_record round_nearest_even].
  rewrite shr_fexp_pos by lia. rewrite Hl. change (52 - 52 <=? 0) with true.
  cbn [shr_m].
  replace (e - 2 + (53 - 52) <=? 1024 - 53) with true by (symmetry; apply Z.leb_le; lia).
  f_equal. lia.
Qed.

Lemma rne_bounds (M n : Z) : M / 2 ^ n <= rne M n <= M / 2 ^ n + 1.
Proof.
  unfold rne. cbv zeta.
  destruct (_ <? _); [lia|]. destruct (_ <? _); [lia|]. destruct (Z.even _); lia.
Qed.

(** Rounding moves a number by at most half a unit in the last place. *)
Lemma rne_error (M n : Z) :
  0 < n -> 2 * Z.abs (rne M n * 2 ^ n - M) <= 2 ^ n.
Proof.
  intros Hn. unfold rne. cbv zeta.
  assert (H2h : 0 < 2 ^ (n - 1)) by (apply Z.pow_pos_nonneg; lia).
  assert (H2n : 2 ^ n = 2 * 2 ^ (n - 1)).
  { replace n with (Z.succ (n - 1)) at 1 by lia. rewrite Z.pow_succ_r by lia. lia. }
  pose proof (Z.div_mod M (2 ^ n) ltac:(lia)) as Hdm.
  pose proof (Z.mod_pos_bound M (2 ^ n) ltac:(lia)) as Hb.
  set (q := M / 2 ^ n) in *. set (r := M mod 2 ^ n) in *. set (h := 2 ^ (n - 1)) in *.
  rewrite H2n in *.
  destruct (Z.ltb_spec r h); [nia|]. destruct (Z.ltb_spec h r); [nia|].
  destruct (Z.even q); nia.
Qed.

Lemma rnd53_error (S : Z) :
  0 < S -> 53 <= Z.log2 S -> 2 * Z.abs (rnd53 S - S) <= 2 ^ (Z.log2 S - 52).
Proof.
  intros HS Hl. unfold rnd53. cbv zeta.
  replace (Z.log2 S - 52 <=? 0) with false by (symmetry; apply Z.leb_gt; lia).
  apply rne_error. lia.
Qed.

Lemma rnd53_lower (S : Z) : 0 < S -> 2 ^ Z.log2 S <= rnd53 S.
Proof.
  intros HS. unfold rnd53. cbv zeta.
  pose proof (Z.log2_spec S HS) as Hspec.
  destruct (Z.leb_spec (Z.log2 S - 52) 0) as [Hn|Hn]; [lia|].
  set (n := Z.log2 S - 52) in *.
  assert (Hpn : 0 < 2 ^ n) by (apply Z.pow_pos_nonneg; lia).
  replace (Z.log2 S) with (52 + n) in * by lia.
  rewrite Z.pow_add_r in * by lia.
  pose proof (rne_bounds S n).
  assert (2 ^ 52 <= S / 2 ^ n) by (apply Z.div_le_lower_bound; lia).
  nia.
Qed.

(** The value of a represented float. *)
Lemma F2Q_repr (f : float) (N : Z) :
  repr f N -> (F2Q f == N # (2 ^ 60))%Q.
Proof.
  intros [[-> ->] | (m & e & -> & _ & He & ->)]; [reflexivity|].
  unfold F2Q. destruct (Z.leb_spec 0 e) as [H0|H0]; unfold Qeq; cbn [Qnum Qden inject_Z].
  - rewrite Z.pow_add_r by lia. change (Z.pos (2 ^ 60)) with (2 ^ 60). lia.
  - assert (Hp : 0 < 2 ^ (- e)) by (apply Z.pow_pos_nonneg; lia).
    rewrite Z2Pos.id by exact Hp. change (Z.pos (2 ^ 60)) with (2 ^ 60).
    rewrite <- Z.mul_assoc, <- Z.pow_add_r by lia.
    replace (e + 60 + - e) with 60 by lia. reflexivity.
Qed.

Lemma repr_finite (f : float) (N : Z) : repr f N -> is_finite f = true.
Proof. intros [[-> _] | (m & e & -> & _)]; reflexivity. Qed.

Lemma repr_nonneg (f : float) (N : Z) : repr f N -> 0 <= N.
Proof.
  intros [[_ ->] | (m & e & _ & _ & He & ->)]; [lia|].
  pose proof (Z.pow_pos_nonneg 2 (e + 60)). nia.
Qed.

(** Python's exact comparison of an integer with a represented float. *)
Lemma int_gt_float_repr (x : Z) (f : float) (N : Z) :
  repr f N -> int_gt_float x f = (N <? x * 2 ^ 60).
Proof.
  intros [[-> ->] | (m & e & -> & _ & He & ->)]; unfold int_gt_float.
  - destruct (Z.ltb_spec 0 x); symmetry; [apply Z.ltb_lt | apply Z.ltb_ge]; lia.
  - destruct (Z.leb_spec 0 e) as [H0|H0].
    + rewrite Z.pow_add_r by lia.
      destruct (Z.ltb_spec (Z.pos m * 2 ^ e) x); symmetry;
        [apply Z.ltb_lt | apply Z.ltb_ge]; nia.
    + assert (Hp : 0 < 2 ^ (e + 60)) by (apply Z.pow_pos_nonneg; lia).
      assert (Hs : 2 ^ 60 = 2 ^ (- e) * 2 ^ (e + 60)).
      { rewrite <- Z.pow_add_r by lia. f_equal. lia. }
      rewrite Hs.
      destruct (Z.ltb_spec (Z.pos m) (x * 2 ^ (- e))); symmetry;
        [apply Z.ltb_lt | apply Z.ltb_ge]; nia.
Qed.

Lemma repr_half (m : positive) (e : Z) (N : Z) :
  Z.log2 (Z.pos m) = 52 -> -59 <= e <= 701 -> N = Z.pos m * 2 ^ (e + 60) ->
  repr (fdiv (S754_finite false m e) f_two) (N / 2).
Proof.
  intros Hl He ->. rewrite fdiv_two_normal by lia. right.
  exists m, (e - 1). split; [reflexivity|]. split; [exact Hl|]. split; [lia|].
  replace (e + 60) with (Z.succ (e - 1 + 60)) by lia.
  rewrite Z.pow_succ_r by lia.
  symmetry. apply Z.div_unique with 0; lia.
Qed.

Lemma normal_exponent (m : positive) (e lo hi : Z) :
  Z.log2 (Z.pos m) = 52 -> 0 <= e + 60 ->
  2 ^ lo <= Z.pos m * 2 ^ (e + 60) < 2 ^ hi -> 0 <= lo -> 0 <= hi ->
  lo - 112 <= e <= hi - 113 + 1.
Proof.
  intros Hl He [H1 H2] Hlo Hhi.
  pose proof (Z.log2_spec (Z.pos m) ltac:(lia)) as Hs. rewrite Hl in Hs.
  change (Z.succ 52) with 53 in Hs.
  assert (Hp : 0 < 2 ^ (e + 60)) by (apply Z.pow_pos_nonneg; lia).
  split.
  - destruct (Z.le_gt_cases (lo - 112) e) as [H|H]; [exact H|exfalso].
    assert (2 ^ 53 * 2 ^ (e + 60) <= 2 ^ lo).
    { rewrite <- Z.pow_add_r by lia. apply Z.pow_le_mono_r; lia. }
    nia.
  - destruct (Z.le_gt_cases e (hi - 112)) as [H|H]; [lia|exfalso].
    assert (2 ^ hi <= 2 ^ 52 * 2 ^ (e + 60)).
    { rewrite <- Z.pow_add_r by lia. apply Z.pow_le_mono_r; lia. }
    nia.
Qed.

(** The midpoint of two represented floats is the integer midpoint, rounded
    as the float sum is. *)
Lemma mid_repr (a b : float) (Na Nb : Z) :
  repr a Na -> repr b Nb -> 2 ^ 60 <= Na + Nb < 2 ^ 94 ->
  repr (midpoint (a, b)) (midZ Na Nb).
Proof.
  intros Ha Hb Hsum. unfold midpoint, midZ. cbn [fst snd].
  destruct Ha as [[-> ->] | (m1 & e1 & -> & Hl1 & He1 & ->)];
    destruct Hb as [[-> ->] | (m2 & e2 & -> & Hl2 & He2 & ->)].
  - cbn in Hsum. lia.
  - change (fadd (S754_zero false) (S754_finite false m2 e2))
      with (S754_finite false m2 e2).
    rewrite Z.add_0_l in *. rewrite rnd53_exact by lia.
    pose proof (normal_exponent m2 e2 60 94 Hl2 ltac:(lia) Hsum ltac:(lia) ltac:(lia)).
    apply repr_half; [exact Hl2 | lia | reflexivity].
  - change (fadd (S754_finite false m1 e1) (S754_zero false))
      with (S754_finite false m1 e1).
    rewrite Z.add_0_r in *. rewrite rnd53_exact by lia.
    pose proof (normal_exponent m1 e1 60 94 Hl1 ltac:(lia) Hsum ltac:(lia) ltac:(lia)).
    apply repr_half; [exact Hl1 | lia | reflexivity].
  - destruct (fadd_normal m1 m2 e1 e2 Hl1 Hl2 ltac:(lia) ltac:(lia))
      as (m & e & Hr & Hm & He & Hv).
    rewrite Hr. set (ez := Z.min e1 e2) in *.
    set (M := Z.pos m1 * 2 ^ (e1 - ez) + Z.pos m2 * 2 ^ (e2 - ez)) in *.
    assert (HS : Z.pos m1 * 2 ^ (e1 + 60) + Z.pos m2 * 2 ^ (e2 + 60) = M * 2 ^ (ez + 60)).
    { unfold M. rewrite Z.mul_add_distr_r, <- !Z.mul_assoc, <- !Z.pow_add_r by lia.
      f_equal; f_equal; f_equal; lia. }
    rewrite HS in *.
    assert (Hp1 : 1 <= 2 ^ (e1 - ez)) by (pose proof (Z.pow_pos_nonneg 2 (e1 - ez)); lia).
    assert (Hp2 : 1 <= 2 ^ (e2 - ez)) by (pose proof (Z.pow_pos_nonneg 2 (e2 - ez)); lia).
    pose proof (Z.log2_spec (Z.pos m1) ltac:(lia)) as Hs1. rewrite Hl1 in Hs1.
    assert (HM : 2 ^ 52 <= M) by (unfold M; nia).
    assert (HlM : 52 <= Z.log2 M).
    { change 52 with (Z.log2 (2 ^ 52)). apply Z.log2_le_mono. exact HM. }
    rewrite rnd53_scale by lia. rewrite <- Hv.
    rewrite <- Z.mul_assoc, <- Z.pow_add_r by lia.
    replace (e - ez + (ez + 60)) with (e + 60) by lia.
    assert (Hval : 2 ^ 60 <= Z.pos m * 2 ^ (e + 60) < 2 ^ 95).
    { assert (E : Z.pos m * 2 ^ (e + 60) = rnd53 (M * 2 ^ (ez + 60))).
      { rewrite rnd53_scale by lia. rewrite <- Hv.
        rewrite <- Z.mul_assoc, <- Z.pow_add_r by lia. f_equal. f_equal. lia. }
      rewrite E. set (S := M * 2 ^ (ez + 60)) in *.
      assert (HSpos : 0 < S) by lia.
      pose proof (rnd53_lower S HSpos) as Hlo.
      pose proof (Z.log2_spec S HSpos) as Hspec.
      assert (60 <= Z.log2 S).
      { change 60 with (Z.log2 (2 ^ 60)). apply Z.log2_le_mono. lia. }
      assert (Z.log2 S < 94) by (apply Z.log2_lt_pow2; lia).
      assert (2 ^ 60 <= 2 ^ Z.log2 S) by (apply Z.pow_le_mono_r; lia).
      pose proof (rnd53_error S HSpos ltac:(lia)) as Herr.
      assert (2 ^ (Z.log2 S - 52) <= 2 ^ 41) by (apply Z.pow_le_mono_r; lia).
      change (2 ^ 95) with (2 * 2 ^ 94). change (2 ^ 41) with 2199023255552 in *.
      change (2 ^ 94) with 19807040628566084398385987584 in *. lia. }
    pose proof (normal_exponent m e 60 95 Hm ltac:(lia) Hval ltac:(lia) ltac:(lia)).
    apply repr_half; [exact Hm | lia | reflexivity].
Qed.

(** ** The integer bisection stays near the exact one *)

Lemma W_succ (k : nat) : (k < 60)%nat -> W k = 2 * W (S k).
Proof.
  intros Hk. unfold W. rewrite Nat2Z.inj_succ.
  replace (60 - Z.of_nat k) with (Z.succ (60 - Z.succ (Z.of_nat k))) by lia.
  rewrite Z.pow_succ_r by lia. lia.
Qed.

Lemma W_total (k : nat) : (k <= 60)%nat -> 2 ^ Z.of_nat k * W k = 4294967295 * 2 ^ 60.
Proof.
  intros Hk. unfold W. rewrite Z.mul_comm, <- Z.mul_assoc, <- Z.pow_add_r by lia.
  f_equal. f_equal. lia.
Qed.

Lemma W_lower (k : nat) : (k <= 31)%nat -> 4294967295 * 2 ^ 29 <= W k.
Proof.
  intros Hk. unfold W. apply Z.mul_le_mono_nonneg_l; [lia|].
  apply Z.pow_le_mono_r; lia.
Qed.

Lemma Inv_safe (k : nat) (iv : zinterval) (X : Z) :
  (k <= 31)%nat -> Inv k iv X -> safe iv.
Proof.
  intros Hk (j & Hj0 & Hj1 & Hl & Hh & HX). unfold safe.
  pose proof (W_total k ltac:(lia)) as Ht. pose proof (W_lower k Hk) as Hw.
  assert (Hk' : Z.of_nat k * 2 ^ 39 <= 31 * 2 ^ 39) by nia.
  assert (Hjw : 0 <= j * W k) by nia.
  assert (Hjw' : (j + 1) * W k <= 2 ^ Z.of_nat k * W k) by nia.
  assert (Hjw'' : W k <= (j + 1) * W k) by nia.
  rewrite Ht in Hjw'.
  change (2 ^ 39) with 549755813888 in *. change (2 ^ 29) with 536870912 in *.
  change (2 ^ 60) with 1152921504606846976 in *.
  change (2 ^ 94) with 19807040628566084398385987584.
  lia.
Qed.

Lemma midZ_error (a b : Z) :
  2 ^ 60 <= a + b < 2 ^ 94 ->
  2 * midZ a b = rnd53 (a + b) /\ Z.abs (2 * midZ a b - (a + b)) <= 2 ^ 40.
Proof.
  intros HS. unfold midZ. set (S := a + b) in *.
  assert (HSpos : 0 < S) by lia.
  assert (60 <= Z.log2 S).
  { change 60 with (Z.log2 (2 ^ 60)). apply Z.log2_le_mono. lia. }
  assert (Z.log2 S < 94) by (apply Z.log2_lt_pow2; lia).
  pose proof (rnd53_error S HSpos ltac:(lia)) as Herr.
  assert (2 ^ (Z.log2 S - 52) <= 2 ^ 41) by (apply Z.pow_le_mono_r; lia).
  assert (Heven : rnd53 S = 2 * (rnd53 S / 2)).
  { assert (Hc : exists c, rnd53 S = c * 2).
    { unfold rnd53. cbv zeta.
      replace (Z.log2 S - 52 <=? 0) with false by (symmetry; apply Z.leb_gt; lia).
      set (n := Z.log2 S - 52). exists (rne S n * 2 ^ (n - 1)).
      replace (2 ^ n) with (2 ^ (n - 1) * 2); [lia|].
      rewrite Z.mul_comm, <- Z.pow_succ_r by (unfold n; lia). f_equal. lia. }
    destruct Hc as [c Hc]. rewrite Hc, Z.div_mul by lia. lia. }
  split; [lia|].
  change (2 ^ 41) with (2 * 2 ^ 40) in *. lia.
Qed.

(** One bisection keeps the invariant. *)
Lemma Inv_step (k : nat) (iv : zinterval) (x : Z) :
  (k <= 30)%nat -> Inv k iv (x * 2 ^ 60) ->
  Inv (S k) (znarrow (zdecide x iv) iv) (x * 2 ^ 60).
Proof.
  intros Hk HI. pose proof (Inv_safe k iv _ ltac:(lia) HI) as Hsafe.
  destruct HI as (j & Hj0 & Hj1 & Hl & Hh & HX). unfold safe in Hsafe.
  destruct (midZ_error _ _ Hsafe) as [_ Herr].
  unfold Inv, znarrow, zdecide, zmid.
  rewrite (W_succ k) in * by lia. set (w := W (S k)) in *.
  set (M := midZ (fst iv) (snd iv)) in *.
  assert (Hp : 2 ^ Z.of_nat (S k) = 2 * 2 ^ Z.of_nat k)
    by (rewrite Nat2Z.inj_succ, Z.pow_succ_r by lia; reflexivity).
  assert (HkE : Z.of_nat (S k) * 2 ^ 39 = Z.of_nat k * 2 ^ 39 + 2 ^ 39) by lia.
  change (2 ^ 40) with (2 * 2 ^ 39) in Herr.
  set (E := 2 ^ 39) in *. set (kE := Z.of_nat k * E) in *.
  destruct (Z.ltb_spec M (x * 2 ^ 60)) as [Hb|Hb]; cbn [fst snd].
  - exists (2 * j + 1). rewrite Hp, HkE. repeat split; try lia.
  - exists (2 * j). rewrite Hp, HkE. repeat split; try lia.
Qed.

Lemma Inv_init (x : Z) :
  0 <= x <= 4294967295 -> Inv 0 ztop (x * 2 ^ 60).
Proof.
  intros Hx. exists 0. unfold ztop, W. cbn [fst snd Z.of_nat].
  change (60 - 0) with 60. repeat split; try lia.
Qed.

Lemma Inv_bisect (n : nat) : forall (k : nat) (iv : zinterval) (x : Z),
  (k + n <= 31)%nat -> Inv k iv (x * 2 ^ 60) ->
  Inv (k + n) (zbisect n x iv) (x * 2 ^ 60).
Proof.
  induction n as [|n IH]; intros k iv x Hk HI.
  - rewrite Nat.add_0_r. exact HI.
  - cbn [zbisect]. replace (k + S n)%nat with (S k + n)%nat by lia.
    apply IH; [lia|]. apply Inv_step; [lia | exact HI].
Qed.

(** The decoded value is within the margin of the address, up to the
    rounding of at most 31 midpoints. *)
Lemma zmid_within (k : nat) (iv : zinterval) (X : Z) :
  (k <= 30)%nat -> Inv k iv X ->
  Z.abs (zmid iv - X) <= W (S k) + (Z.of_nat k + 1) * 2 ^ 39.
Proof.
  intros Hk HI. pose proof (Inv_safe k iv _ ltac:(lia) HI) as Hsafe.
  destruct HI as (j & Hj0 & Hj1 & Hl & Hh & HX). unfold safe in Hsafe.
  destruct (midZ_error _ _ Hsafe) as [_ Herr]. unfold zmid.
  rewrite (W_succ k) in * by lia. set (w := W (S k)) in *.
  set (M := midZ (fst iv) (snd iv)) in *.
  change (2 ^ 40) with (2 * 2 ^ 39) in Herr. set (E := 2 ^ 39) in *. lia.
Qed.

(** Away from both ends of the address space the value decoded at full
    precision is within 2 of the address. *)
Lemma zmid_within_two (iv : zinterval) (x : Z) :
  65536 <= x <= 4294967295 - 65536 ->
  Inv 30 iv (x * 2 ^ 60) ->
  Z.abs (zmid iv - x * 2 ^ 60) <= 2 * 2 ^ 60.
Proof.
  intros Hx HI. pose proof (Inv_safe 30 iv _ ltac:(lia) HI) as Hsafe.
  destruct HI as (j & Hj0 & Hj1 & Hl & Hh & HX). unfold safe in Hsafe.
  destruct (midZ_error _ _ Hsafe) as [_ Herr]. unfold zmid.
  set (M := midZ (fst iv) (snd iv)) in *.
  change (W 30) with (4294967295 * 2 ^ 30) in *.
  change (Z.of_nat 30) with 30 in *.
  change (2 ^ 30) with 1073741824 in *. change (2 ^ 39) with 549755813888 in *.
  change (2 ^ 40) with 1099511627776 in *.
  change (2 ^ 60) with 1152921504606846976 in *.
  lia.
Qed.

(** ** From the floats to the integers and back *)

Lemma zmid_fast_eq (iv : zinterval) : zmid_fast iv = zmid iv.
Proof.
  unfold zmid_fast, zmid, midZ, rnd53_fast, rnd53. cbv zeta.
  rewrite Z.div2_div. f_equal.
  destruct (Z.leb_spec (Z.log2 (fst iv + snd iv) - 52) 0) as [Hn|Hn]; [reflexivity|].
  set (n := Z.log2 (fst iv + snd iv) - 52) in *.
  rewrite Z.shiftl_mul_pow2 by lia. f_equal.
  unfold rne_fast, rne. cbv zeta.
  rewrite Z.shiftr_div_pow2, Z.land_ones, Z.shiftl_1_l by lia. reflexivity.
Qed.

Lemma sim_step (x : Z) (iv : interval) (ziv : zinterval) :
  repr_iv iv ziv -> safe ziv ->
  repr (midpoint iv) (zmid ziv) /\
  decide (PyInt x) iv = zdecide x ziv /\
  forall b, repr_iv (narrow b iv) (znarrow b ziv).
Proof.
  intros [Hl Hh] Hs.
  assert (Hm : repr (midpoint iv) (zmid ziv)).
  { destruct iv as [lo hi]. apply mid_repr; assumption. }
  split; [exact Hm|]. split.
  - unfold decide, zdecide. cbn [num_gt]. now apply int_gt_float_repr.
  - intros [|]; unfold narrow, znarrow; split; cbn [fst snd]; assumption.
Qed.

Lemma sim_bisect (n : nat) : forall (k : nat) (x : Z) (iv : interval) (ziv : zinterval),
  (k + n <= 31)%nat -> repr_iv iv ziv -> Inv k ziv (x * 2 ^ 60) ->
  repr_iv (bisect n (PyInt x) iv) (zbisect n x ziv).
Proof.
  induction n as [|n IH]; intros k x iv ziv Hk Hr HI; [exact Hr|].
  cbn [bisect zbisect].
  destruct (sim_step x iv ziv Hr (Inv_safe k ziv _ ltac:(lia) HI)) as (_ & Hd & Hn).
  rewrite Hd. apply (IH (S k)); [lia | apply Hn | apply Inv_step; [lia | exact HI]].
Qed.

Lemma repr_top : repr_iv (f_zero, f_top) ztop.
Proof.
  split; cbn [fst snd]; [left; split; reflexivity|].
  right. exists 9007199252643840%positive, (-21). repeat split; try reflexivity; lia.
Qed.

(** The value [decode] returns for the token of [n] bisections, as an
    integer. *)
Lemma value_repr (n : nat) (x : Z) :
  (n <= 30)%nat -> 0 <= x <= 4294967295 ->
  repr (midpoint (bisect n (PyInt x) (f_zero, f_top))) (zmid (zbisect n x ztop)) /\
  Inv n (zbisect n x ztop) (x * 2 ^ 60).
Proof.
  intros Hn Hx.
  pose proof (Inv_bisect n 0 ztop x ltac:(lia) (Inv_init x Hx)) as HI.
  cbn [Nat.add] in HI. split; [|exact HI].
  pose proof (sim_bisect n 0 x _ _ ltac:(lia) repr_top (Inv_init x Hx)) as Hr.
  apply (sim_step x _ _ Hr (Inv_safe n _ _ ltac:(lia) HI)).
Qed.

Lemma enc_chars_bisect (v : number) (k : nat) : forall (iv : interval),
  snd (enc_chars k v iv) = bisect (3 * k) v iv.
Proof.
  induction k as [|k IH]; intros iv; [reflexivity|].
  replace (3 * S k)%nat with (S (S (S (3 * k)))) by lia.
  cbn [enc_chars bisect]. unfold enc_char.
  rewrite <- IH. destruct (enc_chars k v _) as [cs iv']. reflexivity.
Qed.

Lemma zbisect_add (n m : nat) : forall (x : Z) (iv : zinterval),
  zbisect (n + m) x iv = zbisect m x (zbisect n x iv).
Proof.
  induction n as [|n IH]; intros x iv; [reflexivity|]. cbn [Nat.add zbisect]. apply IH.
Qed.

Lemma zpath_descend (n : nat) (b : bool) (bound : Z) : forall (x : Z) (iv : zinterval),
  zpath_ok n b bound iv = true ->
  (if b then bound <= x * 2 ^ 60 else x * 2 ^ 60 <= bound) ->
  zbisect n x iv = zdescend n b iv.
Proof.
  induction n as [|n IH]; intros x iv Hp Hx; [reflexivity|].
  cbn [zpath_ok] in Hp. rewrite zmid_fast_eq in Hp.
  apply andb_true_iff in Hp as [Hm Hp].
  cbn [zbisect zdescend]. rewrite zmid_fast_eq. fold (znarrow b iv).
  assert (Hd : zdecide x iv = b).
  { unfold zdecide. destruct b.
    - apply Z.ltb_lt in Hm. apply Z.ltb_lt. lia.
    - apply Z.leb_le in Hm. apply Z.ltb_ge. lia. }
  rewrite Hd. now apply IH.
Qed.

Lemma ztree_sound (n : nat) : forall (x : Z) (iv : zinterval),
  ztree_ok n iv = true -> fst iv <= x * 2 ^ 60 <= snd iv ->
  Z.abs (zmid (zbisect n x iv) - x * 2 ^ 60) <= 2 * 2 ^ 60.
Proof.
  induction n as [|n IH]; intros x iv Hok Hx.
  - cbn [zbisect]. unfold ztree_ok, zleaf_ok in Hok. cbv zeta in Hok.
    rewrite zmid_fast_eq in Hok.
    rewrite !Z.shiftl_mul_pow2, !Z.shiftr_div_pow2 in Hok by lia.
    apply andb_true_iff in Hok as [H1 H2]. apply Z.leb_le in H1, H2.
    change (2 ^ 60) with 1152921504606846976 in *.
    assert (- (- fst iv / 1152921504606846976) <= x)
      by (Z.div_mod_to_equations; lia).
    assert (x <= snd iv / 1152921504606846976) by (Z.div_mod_to_equations; lia).
    lia.
  - cbn [ztree_ok] in Hok. cbv zeta in Hok. rewrite zmid_fast_eq in Hok.
    apply andb_true_iff in Hok as [H1 H2].
    cbn [zbisect]. unfold znarrow, zdecide.
    destruct (Z.ltb_spec (zmid iv) (x * 2 ^ 60)) as [Hb|Hb].
    + apply IH; [exact H2 | cbn [fst snd]; lia].
    + apply IH; [exact H1 | cbn [fst snd]; lia].
Qed.

Lemma low_path : zpath_ok 16 false (65535 * 2 ^ 60) ztop = true.
Proof. vm_compute. reflexivity. Qed.

Lemma high_path : zpath_ok 16 true ((4294967295 - 65535) * 2 ^ 60) ztop = true.
Proof. vm_compute. reflexivity. Qed.

Lemma low_tree : ztree_ok 14 (zdescend 16 false ztop) = true.
Proof. vm_compute. reflexivity. Qed.

Lemma high_tree : ztree_ok 14 (zdescend 16 true ztop) = true.
Proof. vm_compute. reflexivity. Qed.

(** At full precision the decoded value is within 2 of the address. *)
Lemma zvalue_within_two (x : Z) :
  0 <= x <= 4294967295 ->
  Z.abs (zmid (zbisect 30 x ztop) - x * 2 ^ 60) <= 2 * 2 ^ 60.
Proof.
  intros Hx.
  destruct (Z.le_gt_cases x 65535) as [Hlo|Hlo];
    [|destruct (Z.le_gt_cases (4294967295 - 65535) x) as [Hhi|Hhi]].
  - change 30%nat with (16 + 14)%nat. rewrite zbisect_add.
    pose proof (Inv_bisect 16 0 ztop x ltac:(lia) (Inv_init x Hx)) as HI.
    rewrite (zpath_descend 16 false (65535 * 2 ^ 60)) in * by (try apply low_path; lia).
    apply ztree_sound; [apply low_tree|].
    destruct HI as (j & _ & _ & _ & _ & HX). exact HX.
  - change 30%nat with (16 + 14)%nat. rewrite zbisect_add.
    pose proof (Inv_bisect 16 0 ztop x ltac:(lia) (Inv_init x Hx)) as HI.
    rewrite (zpath_descend 16 true ((4294967295 - 65535) * 2 ^ 60)) in *
      by (try apply high_path; lia).
    apply ztree_sound; [apply high_tree|].
    destruct HI as (j & _ & _ & _ & _ & HX). exact HX.
  - apply zmid_within_two; [lia|].
    apply (Inv_bisect 30 0 ztop x ltac:(lia) (Inv_init x Hx)).
Qed.

(** ** Round trips through the token *)

Lemma Qabs_scaled (N x B : Z) :
  Z.abs (N - x * 2 ^ 60) <= B ->
  (Qabs ((N # 2 ^ 60) - inject_Z x) <= B # 2 ^ 60)%Q.
Proof.
  intros H. apply Qabs_Qle_condition.
  unfold Qle, Qminus, Qplus, Qopp, inject_Z. cbn [Qnum Qden].
  rewrite !Pos.mul_1_r. change (Z.pos (2 ^ 60)) with (2 ^ 60).
  change (2 ^ 60) with 1152921504606846976 in *. split; nia.
Qed.

Lemma roundtrip_value_chars (x : Z) (p : Z) :
  roundtrip_value x p =
  Return (midpoint (bisect (3 * Z.to_nat (Z.min p 10)) (PyInt x) (f_zero, f_top))).
Proof.
  unfold roundtrip_value, decode. pose proof (roundtrip_chars x p) as H.
  unfold roundtrip in H. cbv zeta in H.
  destruct (encode (PyInt x) p) as [tok| |]; cbn [bind] in *; try discriminate H.
  rewrite H. cbn [bind]. now rewrite enc_chars_bisect.
Qed.

Lemma margin_scaled (n : nat) :
  (n <= 10)%nat -> (ideal_margin n == W (S (3 * n)) # 2 ^ 60)%Q.
Proof.
  intros Hn. do 11 (destruct n as [|n]; [vm_compute; reflexivity|]). lia.
Qed.

(** C1. For every integer [x] in [0, 4294967295] and precision [p] in
    [1, 10], [decode_exactly(encode(x, p))] returns a value and a margin with
    [|value - x| <= margin], up to the rounding of the midpoints, which is
    less than 2^-16. *)
Theorem decode_within_margin (x p : Z) :
  0 <= x <= 4294967295 -> 1 <= p <= 10 ->
  exists value margin,
    roundtrip x p = Return (value, margin) /\
    is_finite value = true /\
    (Qabs (F2Q value - inject_Z x) <= F2Q margin + rounding_allowance)%Q.
Proof.
  intros Hx Hp. rewrite roundtrip_chars. cbv zeta. rewrite (Z.min_l p 10) by lia.
  set (n := Z.to_nat p). assert (Hn : (1 <= n <= 10)%nat) by lia.
  eexists. eexists. split; [reflexivity|].
  rewrite enc_chars_bisect.
  destruct (value_repr (3 * n) x ltac:(lia) Hx) as [Hr HI].
  split; [exact (repr_finite _ _ Hr)|].
  fold (margin_of_length n).
  destruct (margin_of_length_exact n ltac:(lia)) as [_ Hm].
  rewrite Hm, (margin_scaled n) by lia. rewrite (F2Q_repr _ _ Hr).
  pose proof (zmid_within (3 * n) _ _ ltac:(lia) HI) as Hz.
  apply Qabs_scaled in Hz. eapply Qle_trans; [exact Hz|].
  unfold rounding_allowance, Qle, Qplus. cbn [Qnum Qden].
  assert (Hk : Z.of_nat (3 * n) + 1 <= 31) by lia.
  set (w := W (S (3 * n))) in *. set (k := Z.of_nat (3 * n) + 1) in *.
  change (Z.pos (2 ^ 60 * 65536)) with (2 ^ 60 * 65536).
  change (Z.pos (2 ^ 60)) with (2 ^ 60). change (Z.pos 65536) with 65536.
  change (2 ^ 60) with 1152921504606846976. change (2 ^ 39) with 549755813888.
  nia.
Qed.

Lemma decode_within_margin_witness :
  exists value margin,
    roundtrip 1113628805 5 = Return (value, margin) /\
    is_finite value = true /\
    (Qabs (F2Q value - inject_Z 1113628805) <= F2Q margin + rounding_allowance)%Q.
Proof. apply (decode_within_margin 1113628805 5); lia. Defined.

(** The allowance is needed: at seven characters the value decoded for the
    last address is further from it than the margin, by the rounding of one
    midpoint. *)
Lemma margin_exceeded_by_rounding :
  exists value margin,
    roundtrip 4294967295 7 = Return (value, margin) /\
    (F2Q margin < Qabs (F2Q value - inject_Z 4294967295))%Q.
Proof.
  eexists. eexists. split; [vm_compute; reflexivity|]. vm_compute. reflexivity.
Qed.

(** C6. For every integer [x] in [0, 4294967295],
    [decode(encode(x, 10))] differs from [x] by at most 2. *)
Theorem decode_within_two (x : Z) :
  0 <= x <= 4294967295 ->
  exists value,
    roundtrip_value x 10 = Return value /\
    is_finite value = true /\
    (Qabs (F2Q value - inject_Z x) <= 2)%Q.
Proof.
  intros Hx. rewrite roundtrip_value_chars.
  change (3 * Z.to_nat (Z.min 10 10))%nat with 30%nat.
  eexists. split; [reflexivity|].
  destruct (value_repr 30 x ltac:(lia) Hx) as [Hr _].
  split; [exact (repr_finite _ _ Hr)|].
  rewrite (F2Q_repr _ _ Hr).
  pose proof (zvalue_within_two x Hx) as Hz. apply Qabs_scaled in Hz.
  eapply Qle_trans; [exact Hz|]. vm_compute. discriminate.
Qed.

Lemma decode_within_two_witness :
  exists value,
    roundtrip_value 4294967295 10 = Return value /\
    is_finite value = true /\
    (Qabs (F2Q value - inject_Z 4294967295) <= 2)%Q.
Proof. apply (decode_within_two 4294967295). lia. Defined.

(** ** Comparisons, one at a time *)

Lemma enc_chars_decisions (v : number) (n : nat) : forall (iv : interval),
  enc_chars n v iv = (spell (decisions (3 * n) v iv), follow (decisions (3 * n) v iv) iv).
Proof.
  induction n as [|n IH]; intros iv; [reflexivity|].
  replace (3 * S n)%nat with (S (S (S (3 * n)))) by lia.
  cbn [enc_chars decisions spell follow]. unfold enc_char.
  rewrite IH. reflexivity.
Qed.

Lemma spell_mono_upto (n : nat) : forall (bs cs : list bool),
  (List.length bs <= 3 * n)%nat ->
  List.length bs = List.length cs -> bits_le bs cs ->
  (string_of_list_ascii (spell bs) <=? string_of_list_ascii (spell cs))%string = true.
Proof.
  induction n as [|n IH]; intros bs cs Hn Hlen Hle.
  - destruct bs; [|cbn in Hn; lia]. destruct cs; [reflexivity | discriminate Hlen].
  - destruct bs as [|b1 [|b2 [|b3 bs]]];
      destruct cs as [|c1 [|c2 [|c3 cs]]]; try discriminate Hlen; try reflexivity.
    cbn [spell string_of_list_ascii]. unfold String.leb. cbn [String.compare].
    cbn [bits_le] in Hle.
    assert (IH' := IH bs cs ltac:(cbn in Hn; lia) ltac:(cbn in Hlen; lia)).
    unfold String.leb in IH'.
    destruct Hle as [[-> ->] | [-> Hle]].
    + destruct b2, b3, c2, c3; reflexivity.
    + destruct Hle as [[-> ->] | [-> Hle]].
      * destruct c1, b3, c3; reflexivity.
      * destruct Hle as [[-> ->] | [-> Hle]].
        -- destruct c1, c2; reflexivity.
        -- specialize (IH' Hle). destruct c1, c2, c3; exact IH'.
Qed.

Lemma spell_mono (bs cs : list bool) :
  List.length bs = List.length cs -> bits_le bs cs ->
  (string_of_list_ascii (spell bs) <=? string_of_list_ascii (spell cs))%string = true.
Proof. apply (spell_mono_upto (List.length bs)). lia. Qed.

Lemma decisions_length (v : number) (n : nat) : forall iv, List.length (decisions n v iv) = n.
Proof. induction n as [|n IH]; intros iv; cbn; [reflexivity | now rewrite IH]. Qed.

Lemma encode_spell (v : number) (p : Z) :
  encode v p =
  Return (string_of_list_ascii
            (spell (decisions (3 * Z.to_nat (Z.min p 10)) v (f_zero, f_top)))).
Proof. rewrite encode_chars, enc_chars_decisions. reflexivity. Qed.

(** ** The bisection along any sequence of comparisons *)

Lemma Near_safe (k : nat) (j : Z) (iv : zinterval) :
  (k <= 31)%nat -> Near k j iv -> safe iv.
Proof.
  intros Hk (Hj0 & Hj1 & Hl & Hh). unfold safe.
  pose proof (W_total k ltac:(lia)) as Ht. pose proof (W_lower k Hk) as Hw.
  assert (Hk' : Z.of_nat k * 2 ^ 39 <= 31 * 2 ^ 39) by nia.
  assert (Hjw : 0 <= j * W k) by nia.
  assert (Hjw' : (j + 1) * W k <= 2 ^ Z.of_nat k * W k) by nia.
  assert (Hjw'' : W k <= (j + 1) * W k) by nia.
  rewrite Ht in Hjw'.
  change (2 ^ 39) with 549755813888 in *. change (2 ^ 29) with 536870912 in *.
  change (2 ^ 60) with 1152921504606846976 in *.
  change (2 ^ 94) with 19807040628566084398385987584.
  lia.
Qed.

Lemma Near_step (k : nat) (j : Z) (iv : zinterval) (b : bool) :
  (k <= 30)%nat -> Near k j iv -> Near (S k) (2 * j + Z.b2z b) (znarrow b iv).
Proof.
  intros Hk HN. pose proof (Near_safe k j iv ltac:(lia) HN) as Hsafe.
  destruct HN as (Hj0 & Hj1 & Hl & Hh). unfold safe in Hsafe.
  destruct (midZ_error _ _ Hsafe) as [_ Herr].
  unfold Near, znarrow, zmid.
  rewrite (W_succ k) in * by lia. set (w := W (S k)) in *.
  set (M := midZ (fst iv) (snd iv)) in *.
  assert (Hp : 2 ^ Z.of_nat (S k) = 2 * 2 ^ Z.of_nat k)
    by (rewrite Nat2Z.inj_succ, Z.pow_succ_r by lia; reflexivity).
  assert (HkE : Z.of_nat (S k) * 2 ^ 39 = Z.of_nat k * 2 ^ 39 + 2 ^ 39) by lia.
  change (2 ^ 40) with (2 * 2 ^ 39) in Herr.
  set (E := 2 ^ 39) in *. set (kE := Z.of_nat k * E) in *.
  rewrite Hp, HkE. destruct b; cbn [fst snd Z.b2z]; repeat split; lia.
Qed.

Lemma Near_top : Near 0 0 ztop.
Proof. unfold Near, ztop, W. cbn. repeat split; lia. Qed.

Lemma index_from_cons (j : Z) (b : bool) (bs : list bool) :
  index_from j (b :: bs) = index_from (2 * j + Z.b2z b) bs.
Proof. reflexivity. Qed.

Lemma Near_follow (bs : list bool) : forall (k : nat) (j : Z) (iv : zinterval),
  (k + List.length bs <= 31)%nat -> Near k j iv ->
  Near (k + List.length bs) (index_from j bs) (zfollow bs iv).
Proof.
  induction bs as [|b bs IH]; intros k j iv Hk HN.
  - cbn. now rewrite Nat.add_0_r.
  - cbn [List.length] in *. rewrite index_from_cons. cbn [zfollow].
    replace (k + S (List.length bs))%nat with (S k + List.length bs)%nat by lia.
    apply IH; [lia|]. apply Near_step; [lia | exact HN].
Qed.

(** The midpoint of an interval near the exact one is near the exact
    midpoint. *)
Lemma Near_mid (k : nat) (j : Z) (iv : zinterval) :
  (k <= 30)%nat -> Near k j iv ->
  Z.abs (zmid iv - (2 * j + 1) * W (S k)) <= (Z.of_nat k + 1) * 2 ^ 39.
Proof.
  intros Hk HN. pose proof (Near_safe k j iv ltac:(lia) HN) as Hsafe.
  destruct HN as (Hj0 & Hj1 & Hl & Hh). unfold safe in Hsafe.
  destruct (midZ_error _ _ Hsafe) as [_ Herr]. unfold zmid.
  rewrite (W_succ k) in * by lia. set (w := W (S k)) in *.
  set (M := midZ (fst iv) (snd iv)) in *.
  change (2 ^ 40) with (2 * 2 ^ 39) in Herr. set (E := 2 ^ 39) in *. lia.
Qed.

Lemma repr_follow (bs : list bool) : forall (k : nat) (j : Z) (iv : interval) (ziv : zinterval),
  (k + List.length bs <= 31)%nat -> repr_iv iv ziv -> Near k j ziv ->
  repr_iv (follow bs iv) (zfollow bs ziv).
Proof.
  induction bs as [|b bs IH]; intros k j iv ziv Hk Hr HN; [exact Hr|].
  cbn [List.length follow zfollow] in *.
  destruct (sim_step 0 iv ziv Hr (Near_safe k j ziv ltac:(lia) HN)) as (_ & _ & Hn).
  apply (IH (S k) (2 * j + Z.b2z b)); [lia | apply Hn | apply Near_step; [lia | exact HN]].
Qed.

(** The encoder's comparisons for an integer, on the integers. *)
Lemma decisions_int (n : nat) : forall (k : nat) (j : Z) (x : Z) (iv : interval) (ziv : zinterval),
  (k + n <= 31)%nat -> repr_iv iv ziv -> Near k j ziv ->
  decisions n (PyInt x) iv = zdecisions n (x * 2 ^ 60) ziv.
Proof.
  induction n as [|n IH]; intros k j x iv ziv Hk Hr HN; [reflexivity|].
  cbn [decisions zdecisions].
  destruct (sim_step x iv ziv Hr (Near_safe k j ziv ltac:(lia) HN)) as (_ & Hd & Hn).
  rewrite Hd. unfold zdecide. f_equal.
  apply (IH (S k) (2 * j + Z.b2z (zmid ziv <? x * 2 ^ 60))); [lia | apply Hn |].
  apply Near_step; [lia | exact HN].
Qed.

Lemma zdecisions_length (n : nat) : forall X iv, List.length (zdecisions n X iv) = n.
Proof. induction n as [|n IH]; intros X iv; cbn [zdecisions List.length]; [reflexivity | now rewrite IH]. Qed.

Lemma inside_step (X : Z) (iv : zinterval) :
  inside X iv -> inside X (znarrow (zmid iv <? X) iv).
Proof.
  intros [Hlo Hhi]. unfold inside, znarrow.
  destruct (Z.ltb_spec (zmid iv) X); cbn [fst snd]; split; try lia.
Qed.

Lemma inside_follow (n : nat) : forall (X : Z) (iv : zinterval),
  inside X iv -> inside X (zfollow (zdecisions n X iv) iv).
Proof.
  induction n as [|n IH]; intros X iv Hi; [exact Hi|].
  cbn [zdecisions zfollow]. apply IH. now apply inside_step.
Qed.

Lemma inside_top (x : Z) : 0 <= x <= 4294967295 -> inside (x * 2 ^ 60) ztop.
Proof. intros Hx. unfold inside, ztop. cbn [fst snd]. lia. Qed.

(** Away from both ends of the address space the thirty comparisons spell
    the quotient of the address by 4. *)
Lemma bulk_index (j : Z) (iv : zinterval) (x : Z) :
  65536 <= x <= 4294967295 - 65536 ->
  Near 30 j iv -> inside (x * 2 ^ 60) iv -> j = x / 4.
Proof.
  intros Hx (Hj0 & Hj1 & Hl & Hh) [Hlo Hhi].
  change (W 30) with (4294967295 * 2 ^ 30) in *.
  change (Z.of_nat 30) with 30 in *.
  change (2 ^ 30) with 1073741824 in *. change (2 ^ 39) with 549755813888 in *.
  change (2 ^ 60) with 1152921504606846976 in *.
  apply Z.div_unique with (x - 4 * j); lia.
Qed.

Lemma zdecisions_app (n m : nat) : forall (X : Z) (iv : zinterval),
  zdecisions (n + m) X iv =
  zdecisions n X iv ++ zdecisions m X (zfollow (zdecisions n X iv) iv).
Proof.
  induction n as [|n IH]; intros X iv; [reflexivity|].
  cbn [Nat.add zdecisions zfollow app]. now rewrite IH.
Qed.

Lemma index_from_app (bs cs : list bool) (j : Z) :
  index_from j (bs ++ cs) = index_from (index_from j bs) cs.
Proof. unfold index_from. apply fold_left_app. Qed.

Lemma zfollow_app (bs cs : list bool) : forall (iv : zinterval),
  zfollow (bs ++ cs) iv = zfollow cs (zfollow bs iv).
Proof. induction bs as [|b bs IH]; intros iv; [reflexivity | apply IH]. Qed.

Lemma zfollow_repeat (n : nat) (b : bool) : forall (iv : zinterval),
  zfollow (repeat b n) iv = zdescend n b iv.
Proof.
  induction n as [|n IH]; intros iv; [reflexivity|].
  cbn [repeat zfollow zdescend]. rewrite IH, zmid_fast_eq.
  unfold znarrow. reflexivity.
Qed.

Lemma index_from_repeat_false (n : nat) : index_from 0 (repeat false n) = 0.
Proof. induction n as [|n IH]; [reflexivity | exact IH]. Qed.

Lemma index_from_repeat_true (n : nat) (j : Z) :
  index_from j (repeat true n) = (j + 1) * 2 ^ Z.of_nat n - 1.
Proof.
  revert j. induction n as [|n IH]; intros j.
  - cbn. lia.
  - cbn [repeat]. rewrite index_from_cons, IH. cbn [Z.b2z].
    rewrite Nat2Z.inj_succ, Z.pow_succ_r by lia. lia.
Qed.

(** On the side of addresses that all the midpoints of a descent leave behind,
    the comparisons all go one way. *)
Lemma zdecisions_descend (n : nat) (b : bool) (bound : Z) : forall (X : Z) (iv : zinterval),
  zpath_ok n b bound iv = true ->
  (if b then bound <= X else X <= bound) ->
  zdecisions n X iv = repeat b n.
Proof.
  induction n as [|n IH]; intros X iv Hp Hx; [reflexivity|].
  cbn [zpath_ok] in Hp. rewrite zmid_fast_eq in Hp.
  apply andb_true_iff in Hp as [Hm Hp].
  cbn [zdecisions repeat].
  assert (Hd : (zmid iv <? X) = b).
  { destruct b.
    - apply Z.ltb_lt in Hm. apply Z.ltb_lt. lia.
    - apply Z.leb_le in Hm. apply Z.ltb_ge. lia. }
  rewrite Hd. f_equal. apply IH; [|exact Hx].
  unfold znarrow. destruct b; exact Hp.
Qed.

Lemma ztree_bin_sound (n : nat) : forall (j x : Z) (iv : zinterval),
  ztree_bin_ok n j iv = true -> inside (x * 2 ^ 60) iv ->
  index_from j (zdecisions n (x * 2 ^ 60) iv) = x / 4.
Proof.
  induction n as [|n IH]; intros j x iv Hok Hx.
  - cbn [zdecisions index_from fold_left].
    unfold ztree_bin_ok, zleaf_bin_ok in Hok. cbv zeta in Hok.
    rewrite !Z.shiftr_div_pow2 in Hok by lia.
    apply andb_true_iff in Hok as [H1 H2]. apply Z.leb_le in H1, H2.
    destruct Hx as [Hlo Hhi].
    change (2 ^ 60) with 1152921504606846976 in *.
    apply Z.div_unique with (x - 4 * j).
    destruct (Z.eqb_spec (fst iv) 0) as [H0|H0];
      Z.div_mod_to_equations; lia.
    lia.
  - cbn [ztree_bin_ok] in Hok. cbv zeta in Hok. rewrite zmid_fast_eq in Hok.
    apply andb_true_iff in Hok as [H1 H2].
    cbn [zdecisions]. rewrite index_from_cons.
    pose proof (inside_step _ iv Hx) as Hs. revert Hs.
    unfold znarrow.
    destruct (Z.ltb_spec (zmid iv) (x * 2 ^ 60)) as [Hb|Hb]; intros Hs; cbn [Z.b2z].
    + apply IH; [exact H2 | exact Hs].
    + rewrite Z.add_0_r. apply IH; [exact H1 | exact Hs].
Qed.

(** The bins of the 65536 lowest and of the 65536 highest addresses, leaf
    by leaf. *)
Lemma low_bins : ztree_bin_ok 14 0 (zdescend 16 false ztop) = true.
Proof. vm_compute. reflexivity. Qed.

Lemma high_bins : ztree_bin_ok 14 65535 (zdescend 16 true ztop) = true.
Proof. vm_compute. reflexivity. Qed.

(** The thirty comparisons of [encode] spell the quotient of the address
    by 4 in binary. *)
Lemma zdecisions_index (x : Z) :
  0 <= x <= 4294967295 -> index_from 0 (zdecisions 30 (x * 2 ^ 60) ztop) = x / 4.
Proof.
  intros Hx.
  destruct (Z.le_gt_cases x 65535) as [Hlo|Hlo];
    [|destruct (Z.le_gt_cases (4294967295 - 65535) x) as [Hhi|Hhi]].
  - change 30%nat with (16 + 14)%nat. rewrite zdecisions_app, index_from_app.
    pose proof (inside_follow 16 _ ztop (inside_top x Hx)) as Hi.
    rewrite (zdecisions_descend 16 false (65535 * 2 ^ 60)) in *
      by (try apply low_path; lia).
    rewrite index_from_repeat_false. rewrite zfollow_repeat in *.
    apply ztree_bin_sound; [apply low_bins | exact Hi].
  - change 30%nat with (16 + 14)%nat. rewrite zdecisions_app, index_from_app.
    pose proof (inside_follow 16 _ ztop (inside_top x Hx)) as Hi.
    rewrite (zdecisions_descend 16 true ((4294967295 - 65535) * 2 ^ 60)) in *
      by (try apply high_path; lia).
    rewrite index_from_repeat_true. rewrite zfollow_repeat in *.
    apply ztree_bin_sound; [apply high_bins | exact Hi].
  - pose proof (Near_follow (zdecisions 30 (x * 2 ^ 60) ztop) 0 0 ztop) as HN.
    rewrite zdecisions_length in HN. specialize (HN ltac:(lia) Near_top).
    apply (bulk_index _ _ x ltac:(lia) HN).
    apply inside_follow. now apply inside_top.
Qed.

(** ** The token of an address *)

Lemma index_from_div (bs : list bool) : forall (j : Z),
  index_from j bs / 2 ^ Z.of_nat (List.length bs) = j.
Proof.
  induction bs as [|b bs IH]; intros j.
  - cbn. apply Z.div_1_r.
  - rewrite index_from_cons. cbn [List.length].
    rewrite Nat2Z.inj_succ, Z.pow_succ_r by lia.
    rewrite (Z.mul_comm 2 (2 ^ _)), <- Z.div_div by (try apply Z.pow_pos_nonneg; lia).
    rewrite IH. destruct b; cbn [Z.b2z]; Z.div_mod_to_equations; lia.
Qed.

Lemma token_digit_code (j : Z) (b1 b2 b3 : bool) :
  token_digit (8 * j + code_of b1 b2 b3) = symbol b1 b2 b3.
Proof.
  unfold token_digit.
  replace ((8 * j + code_of b1 b2 b3) mod 8) with (code_of b1 b2 b3).
  - destruct b1, b2, b3; reflexivity.
  - symmetry. rewrite Z.add_comm, Z.mul_comm, Z.mod_add by lia.
    destruct b1, b2, b3; reflexivity.
Qed.

Lemma spell_octal (n : nat) : forall (bs : list bool) (j : Z),
  List.length bs = (3 * n)%nat -> spell bs = octal n (index_from j bs).
Proof.
  induction n as [|n IH]; intros bs j Hlen.
  - destruct bs; [reflexivity | discriminate Hlen].
  - destruct bs as [|b1 [|b2 [|b3 bs]]]; try (cbn in Hlen; lia).
    cbn [spell octal]. rewrite !index_from_cons.
    assert (Hl : List.length bs = (3 * n)%nat) by (cbn in Hlen; lia).
    replace (2 * (2 * (2 * j + Z.b2z b1) + Z.b2z b2) + Z.b2z b3)
      with (8 * j + code_of b1 b2 b3) by (unfold code_of; destruct b1, b2, b3; cbn [Z.b2z]; lia).
    rewrite <- (IH bs _ Hl). f_equal.
    replace (8 ^ Z.of_nat n) with (2 ^ Z.of_nat (List.length bs)).
    + rewrite index_from_div. symmetry. apply token_digit_code.
    + rewrite Hl. rewrite Nat2Z.inj_mul. change (Z.of_nat 3) with 3.
      rewrite Z.pow_mul_r by lia. reflexivity.
Qed.

Lemma octal_firstn (n m : nat) (j : Z) :
  firstn n (octal (n + m) j) = octal n (j / 8 ^ Z.of_nat m).
Proof.
  induction n as [|n IH]; [reflexivity|].
  cbn [Nat.add octal firstn]. rewrite IH. f_equal. f_equal.
  rewrite Z.div_div by (try apply Z.pow_pos_nonneg; lia).
  rewrite <- Z.pow_add_r by lia. f_equal. f_equal. lia.
Qed.

(** The token of full precision is the quotient of the address by 4, in
    base 8. *)
Lemma enc_chars_full (x : Z) :
  0 <= x <= 4294967295 ->
  fst (enc_chars 10 (PyInt x) (f_zero, f_top)) = octal 10 (x / 4).
Proof.
  intros Hx. rewrite enc_chars_decisions. cbn [fst].
  change (3 * 10)%nat with 30%nat.
  rewrite (decisions_int 30 0 0 x _ ztop ltac:(lia) repr_top Near_top).
  rewrite (spell_octal 10 _ 0) by apply zdecisions_length.
  now rewrite zdecisions_index.
Qed.

Lemma alphabet_position_digit (d : Z) : alphabet_position (token_digit d) = d mod 8.
Proof.
  unfold token_digit. pose proof (Z.mod_pos_bound d 8 ltac:(lia)) as H.
  remember (d mod 8) as r eqn:E. clear E.
  assert (Hc : r = 0 \/ r = 1 \/ r = 2 \/ r = 3 \/ r = 4 \/ r = 5 \/ r = 6 \/ r = 7)
    by lia.
  repeat (destruct Hc as [-> | Hc]); try subst r; reflexivity.
Qed.

(** Reading the numeral of a bin number gives the number back. *)
Lemma token_index_octal (n : nat) : forall (j acc : Z),
  fold_left (fun j c => 8 * j + alphabet_position c) (octal n j) acc =
  acc * 8 ^ Z.of_nat n + j mod 8 ^ Z.of_nat n.
Proof.
  induction n as [|n IH]; intros j acc.
  - cbn [octal fold_left]. change (8 ^ Z.of_nat 0) with 1. rewrite Z.mod_1_r. lia.
  - cbn [octal fold_left]. rewrite IH, alphabet_position_digit.
    rewrite Nat2Z.inj_succ, Z.pow_succ_r by lia.
    assert (Hp : 0 < 8 ^ Z.of_nat n) by (apply Z.pow_pos_nonneg; lia).
    set (P := 8 ^ Z.of_nat n) in *.
    rewrite (Z.mul_comm 8 P), Z.rem_mul_r by lia. lia.
Qed.

Lemma token_index_bin_token (n : nat) (j : Z) :
  0 <= j < 8 ^ Z.of_nat n -> token_index (bin_token n j) = j.
Proof.
  intros Hj. unfold token_index, bin_token. rewrite list_ascii_string_inv.
  rewrite token_index_octal, Z.mod_small by exact Hj. lia.
Qed.

Lemma shiftr_bound (x p : Z) :
  0 <= x <= 4294967295 -> 0 <= p <= 10 ->
  0 <= Z.shiftr x (32 - 3 * p) < 8 ^ Z.of_nat (Z.to_nat p).
Proof.
  intros Hx Hp. rewrite Z.shiftr_div_pow2 by lia. rewrite Z2Nat.id by lia.
  replace (8 ^ p) with (2 ^ (3 * p)) by (rewrite Z.pow_mul_r by lia; reflexivity).
  assert (Hq : 0 < 2 ^ (32 - 3 * p)) by (apply Z.pow_pos_nonneg; lia).
  split; [apply Z.div_pos; lia|].
  apply Z.div_lt_upper_bound; [exact Hq|].
  rewrite <- Z.pow_add_r by lia. replace (32 - 3 * p + 3 * p) with 32 by lia.
  change (2 ^ 32) with 4294967296. lia.
Qed.

(** The characters [encode] writes for an address of the range. *)
Lemma enc_chars_top_bits (x p : Z) :
  0 <= x <= 4294967295 -> 0 <= p <= 10 ->
  fst (enc_chars (Z.to_nat p) (PyInt x) (f_zero, f_top)) =
  octal (Z.to_nat p) (Z.shiftr x (32 - 3 * p)).
Proof.
  intros Hx Hp. set (n := Z.to_nat p).
  rewrite <- (enc_chars_firstn _ n 10) by lia. rewrite enc_chars_full by exact Hx.
  replace 10%nat with (n + (10 - n))%nat at 1 by lia.
  rewrite octal_firstn. f_equal.
  rewrite Z.shiftr_div_pow2 by lia.
  change 4 with (2 ^ 2). rewrite Z.div_div by (try apply Z.pow_pos_nonneg; lia).
  replace (8 ^ Z.of_nat (10 - n)) with (2 ^ (3 * Z.of_nat (10 - n)))
    by (rewrite Z.pow_mul_r by lia; reflexivity).
  rewrite <- Z.pow_add_r by lia. f_equal. f_equal. lia.
Qed.

(** X1. For every integer [x] in [0, 4294967295] and precision [p] in [0, 10],
    [encode(x, p)] is the numeral in base 8, of [p] digits written
    [0 1 a b c d e f], of the leading [3p] bits of [x] as a 32-bit number,
    [x >> (32 - 3p)]. *)
Theorem encode_top_bits (x p : Z) :
  0 <= x <= 4294967295 -> 0 <= p <= 10 ->
  encode (PyInt x) p = Return (bin_token (Z.to_nat p) (Z.shiftr x (32 - 3 * p))).
Proof.
  intros Hx Hp. rewrite encode_chars. rewrite (Z.min_l p 10) by lia.
  unfold bin_token. now rewrite enc_chars_top_bits.
Qed.

Lemma encode_top_bits_witness :
  encode (PyInt 1113628805) 5 = Return (bin_token 5 (Z.shiftr 1113628805 17)).
Proof. apply (encode_top_bits 1113628805 5); lia. Defined.

(** X2. Two addresses of the range have the same token of [p] characters
    exactly when their leading [3p] bits agree. *)
Theorem encode_same_token (x y p : Z) :
  0 <= x <= 4294967295 -> 0 <= y <= 4294967295 -> 0 <= p <= 10 ->
  (encode (PyInt x) p = encode (PyInt y) p <->
   Z.shiftr x (32 - 3 * p) = Z.shiftr y (32 - 3 * p)).
Proof.
  intros Hx Hy Hp. rewrite !encode_chars. rewrite (Z.min_l p 10) by lia.
  rewrite !enc_chars_top_bits by assumption.
  fold (bin_token (Z.to_nat p) (Z.shiftr x (32 - 3 * p))).
  fold (bin_token (Z.to_nat p) (Z.shiftr y (32 - 3 * p))). split.
  - intros H0.
    assert (H : bin_token (Z.to_nat p) (Z.shiftr x (32 - 3 * p)) =
                bin_token (Z.to_nat p) (Z.shiftr y (32 - 3 * p))) by congruence.
    rewrite <- (token_index_bin_token (Z.to_nat p) (Z.shiftr x (32 - 3 * p)))
      by now apply shiftr_bound.
    rewrite H. apply token_index_bin_token. now apply shiftr_bound.
  - intros ->. reflexivity.
Qed.

Lemma encode_same_token_witness :
  encode (PyInt 1113628805) 8 = encode (PyInt 1113628900) 8 <->
  Z.shiftr 1113628805 (32 - 3 * 8) = Z.shiftr 1113628900 (32 - 3 * 8).
Proof. apply (encode_same_token 1113628805 1113628900 8); lia. Defined.

(** ** Comparing floats *)

Lemma repr_pos (m : positive) (e : Z) :
  Z.log2 (Z.pos m) = 52 -> 0 <= e + 60 ->
  2 ^ 52 * 2 ^ (e + 60) <= Z.pos m * 2 ^ (e + 60) < 2 ^ 53 * 2 ^ (e + 60).
Proof.
  intros Hl He. pose proof (Z.log2_spec (Z.pos m) ltac:(lia)) as Hs.
  rewrite Hl in Hs. change (Z.succ 52) with 53 in Hs.
  pose proof (Z.pow_pos_nonneg 2 (e + 60) ltac:(lia) He). nia.
Qed.

(** Python's [f < g] on two represented floats. *)
Lemma SFltb_repr (f g : float) (N M : Z) :
  repr f N -> repr g M -> SFltb f g = (N <? M).
Proof.
  intros [[-> ->] | (m1 & e1 & -> & Hl1 & He1 & ->)]
         [[-> ->] | (m2 & e2 & -> & Hl2 & He2 & ->)]; unfold SFltb; cbn [SFcompare].
  - reflexivity.
  - pose proof (repr_pos m2 e2 Hl2 ltac:(lia)).
    pose proof (Z.pow_pos_nonneg 2 (e2 + 60) ltac:(lia) ltac:(lia)).
    symmetry. apply Z.ltb_lt. nia.
  - pose proof (repr_pos m1 e1 Hl1 ltac:(lia)).
    pose proof (Z.pow_pos_nonneg 2 (e1 + 60) ltac:(lia) ltac:(lia)).
    symmetry. apply Z.ltb_ge. nia.
  - pose proof (repr_pos m1 e1 Hl1 ltac:(lia)) as H1.
    pose proof (repr_pos m2 e2 Hl2 ltac:(lia)) as H2.
    destruct (Z.compare_spec e1 e2) as [E|E|E].
    + subst e2. fold (Pos.compare m1 m2).
      pose proof (Z.pow_pos_nonneg 2 (e1 + 60) ltac:(lia) ltac:(lia)) as Hp.
      destruct (Pos.compare_spec m1 m2) as [E|E|E]; symmetry.
      * subst. apply Z.ltb_irrefl.
      * apply Z.ltb_lt. apply Z.mul_lt_mono_pos_r; [exact Hp | lia].
      * apply Z.ltb_ge. apply Z.mul_le_mono_nonneg_r; lia.
    + symmetry. apply Z.ltb_lt.
      assert (2 ^ 53 * 2 ^ (e1 + 60) <= 2 ^ 52 * 2 ^ (e2 + 60)).
      { rewrite <- !Z.pow_add_r by lia. apply Z.pow_le_mono_r; lia. }
      lia.
    + symmetry. apply Z.ltb_ge.
      assert (2 ^ 53 * 2 ^ (e2 + 60) <= 2 ^ 52 * 2 ^ (e1 + 60)).
      { rewrite <- !Z.pow_add_r by lia. apply Z.pow_le_mono_r; lia. }
      lia.
Qed.

(** The encoder's comparisons for a represented float, on the integers. *)
Lemma decisions_float (n : nat) :
  forall (k : nat) (j : Z) (g : float) (G : Z) (iv : interval) (ziv : zinterval),
  (k + n <= 31)%nat -> repr g G -> repr_iv iv ziv -> Near k j ziv ->
  decisions n (PyFloat g) iv = zdecisions n G ziv.
Proof.
  induction n as [|n IH]; intros k j g G iv ziv Hk Hg Hr HN; [reflexivity|].
  cbn [decisions zdecisions].
  destruct (sim_step 0 iv ziv Hr (Near_safe k j ziv ltac:(lia) HN)) as (Hm & _ & Hn).
  assert (Hd : decide (PyFloat g) iv = (zmid ziv <? G)).
  { unfold decide. cbn [num_gt]. now apply SFltb_repr. }
  rewrite Hd. f_equal.
  apply (IH (S k) (2 * j + Z.b2z (zmid ziv <? G))); [lia | exact Hg | apply Hn |].
  apply Near_step; [lia | exact HN].
Qed.

(** The float of an address is the address. *)
Lemma repr_float_of_int (x : Z) :
  0 <= x <= 4294967295 -> repr (float_of_int x) (x * 2 ^ 60).
Proof.
  intros Hx. unfold float_of_int, binary_normalize.
  destruct x as [|mx|mx]; [left; split; reflexivity | | lia].
  right. unfold binary_round.
  pose proof (digits_log2 mx) as Hd.
  pose proof (Z.log2_spec (Z.pos mx) ltac:(lia)) as Hs.
  assert (Hl : Z.log2 (Z.pos mx) < 32).
  { apply Z.log2_lt_pow2; lia. }
  pose proof (Z.log2_nonneg (Z.pos mx)) as Hl0.
  set (d := Z.log2 (Z.pos mx)) in *.
  assert (Hf : fexp prec emax (Z.pos (digits2_pos mx) + 0) = d - 52).
  { unfold fexp, emin, prec, emax. rewrite Hd.
    change IntDef.Z.max with Z.max. lia. }
  rewrite Hf.
  pose proof (shl_align_fst mx 0 (d - 52) ltac:(lia)) as Hz.
  assert (He : snd (shl_align mx 0 (d - 52)) = d - 52).
  { unfold shl_align. destruct (d - 52 - 0) eqn:E; try lia. reflexivity. }
  destruct (shl_align mx 0 (d - 52)) as [mz ez]. cbn [fst snd] in *. subst ez.
  replace (0 - (d - 52)) with (52 - d) in Hz by lia.
  assert (Hlz : Z.log2 (Z.pos mz) = 52).
  { rewrite Hz. rewrite Z.log2_mul_pow2 by lia. fold d. lia. }
  destruct (binary_round_aux_pos mz (d - 52) ltac:(lia) ltac:(lia) ltac:(lia))
    as (m & e & Hr & Hm & He & Hv).
  rewrite Hr. unfold rnd53 in Hv. cbv zeta in Hv. rewrite Hlz in Hv.
  change (52 - 52 <=? 0) with true in Hv. cbn iota in Hv.
  assert (Hee : e = d - 52).
  { destruct (Z.eq_dec e (d - 52)) as [E|E]; [exact E|exfalso].
    assert (Hge : 1 <= e - (d - 52)) by lia.
    pose proof (Z.log2_mul_pow2 (Z.pos m) (e - (d - 52)) ltac:(lia) ltac:(lia)) as Hlm.
    rewrite Hv, Hlz, Hm in Hlm. lia. }
  subst e. rewrite Z.sub_diag, Z.mul_1_r in Hv.
  exists m, (d - 52). split; [reflexivity|]. split; [exact Hm|]. split; [lia|].
  rewrite Hv, Hz, <- Z.mul_assoc, <- Z.pow_add_r by lia.
  f_equal. f_equal. lia.
Qed.

Lemma decisions_top (x : Z) (n : nat) :
  (n <= 30)%nat ->
  decisions n (PyInt x) (f_zero, f_top) = zdecisions n (x * 2 ^ 60) ztop.
Proof.
  intros Hn. apply (decisions_int n 0 0 x _ ztop ltac:(lia) repr_top Near_top).
Qed.

(** X3. An address of the range gets the same token whether [encode] is
    handed the [int] or the [float] of it. *)
Theorem encode_float_of_address (x p : Z) :
  0 <= x <= 4294967295 ->
  encode (PyFloat (float_of_int x)) p = encode (PyInt x) p.
Proof.
  intros Hx. rewrite !encode_spell. do 3 f_equal.
  set (n := (3 * Z.to_nat (Z.min p 10))%nat).
  assert (Hn : (n <= 30)%nat) by (unfold n; lia).
  rewrite decisions_top by exact Hn.
  apply (decisions_float n 0 0 _ _ _ ztop ltac:(lia));
    [now apply repr_float_of_int | apply repr_top | apply Near_top].
Qed.

Lemma encode_float_of_address_witness :
  encode (PyFloat (float_of_int 1113628805)) 10 = encode (PyInt 1113628805) 10.
Proof. apply (encode_float_of_address 1113628805 10). lia. Defined.

(** ** Any number, in order

    [encode] is documented for a float and called with an [int]; its
    comparisons are the same for both once the number is scaled by 2^60
    and rounded up. *)

Lemma valid_mantissa (m : positive) (e : Z) :
  bounded prec emax m e = true ->
  Z.pos m < 2 ^ 53 /\ (-1074 < e -> 2 ^ 52 <= Z.pos m).
Proof.
  unfold bounded, canonical_mantissa, fexp, emin, prec, emax.
  intros H. apply andb_true_iff in H as [H _]. apply Z.eqb_eq in H.
  rewrite digits_log2 in H. change IntDef.Z.max with Z.max in H.
  pose proof (Z.log2_spec (Z.pos m) ltac:(lia)) as Hs.
  pose proof (Z.log2_nonneg (Z.pos m)) as Hl.
  split.
  - assert (Hle : Z.log2 (Z.pos m) <= 52) by lia.
    assert (2 ^ Z.succ (Z.log2 (Z.pos m)) <= 2 ^ 53) by (apply Z.pow_le_mono_r; lia).
    lia.
  - intros He. assert (Heq : Z.log2 (Z.pos m) = 52) by lia.
    rewrite Heq in Hs. lia.
Qed.

(** Python's [f < g] for a represented float [f] and any float [g] of
    binary64. *)
Lemma SFltb_scaled (f g : float) (N : Z) :
  repr f N -> finite_binary64 g -> SFltb f g = (N <? scaled_ceiling g).
Proof.
  intros Hf [Hfin Hval]. pose proof (repr_nonneg f N Hf) as HN.
  destruct g as [s|s| |s m e]; try discriminate Hfin.
  - (* zero *)
    cbn [scaled_ceiling].
    destruct Hf as [[-> ->] | (m1 & e1 & -> & _)]; unfold SFltb; cbn [SFcompare].
    + reflexivity.
    + symmetry. apply Z.ltb_ge. exact HN.
  - cbn [valid_binary] in Hval. destruct (valid_mantissa m e Hval) as [Hm Hnorm].
    cbn [scaled_ceiling]. cbv zeta.
    destruct s.
    + (* negative *)
      assert (Hneg : (if 0 <=? e + 60 then Z.neg m * 2 ^ (e + 60)
                      else - (- Z.neg m / 2 ^ (- (e + 60)))) <= 0).
      { destruct (Z.leb_spec 0 (e + 60)).
        - pose proof (Z.pow_pos_nonneg 2 (e + 60) ltac:(lia) ltac:(lia)). nia.
        - assert (0 <= - Z.neg m / 2 ^ (- (e + 60))); [|lia].
          apply Z.div_pos; [lia|]. apply Z.pow_pos_nonneg; lia. }
      replace (N <? _) with false by (symmetry; apply Z.ltb_ge; lia).
      destruct Hf as [[-> ->] | (m1 & e1 & -> & _)]; reflexivity.
    + (* positive *)
      destruct Hf as [[-> ->] | (m1 & e1 & -> & Hl1 & He1 & ->)];
        unfold SFltb; cbn [SFcompare].
      * symmetry. apply Z.ltb_lt.
        destruct (Z.leb_spec 0 (e + 60)).
        -- pose proof (Z.pow_pos_nonneg 2 (e + 60) ltac:(lia) ltac:(lia)). nia.
        -- assert (Hp : 0 < 2 ^ (- (e + 60))) by (apply Z.pow_pos_nonneg; lia).
           assert (- Z.pos m / 2 ^ (- (e + 60)) < 0); [|lia].
           apply Z.div_lt_upper_bound; lia.
      * pose proof (repr_pos m1 e1 Hl1 ltac:(lia)) as H1.
        destruct (Z.compare_spec e1 e) as [E|E|E].
        -- subst e. replace (0 <=? e1 + 60) with true by (symmetry; apply Z.leb_le; lia).
           fold (Pos.compare m1 m).
           pose proof (Z.pow_pos_nonneg 2 (e1 + 60) ltac:(lia) ltac:(lia)) as Hp.
           destruct (Pos.compare_spec m1 m) as [E|E|E]; symmetry.
           ++ subst. apply Z.ltb_irrefl.
           ++ apply Z.ltb_lt. apply Z.mul_lt_mono_pos_r; [exact Hp | lia].
           ++ apply Z.ltb_ge. apply Z.mul_le_mono_nonneg_r; lia.
        -- replace (0 <=? e + 60) with true by (symmetry; apply Z.leb_le; lia).
           symmetry. apply Z.ltb_lt.
           specialize (Hnorm ltac:(lia)).
           assert (2 ^ 53 * 2 ^ (e1 + 60) <= 2 ^ 52 * 2 ^ (e + 60)).
           { rewrite <- !Z.pow_add_r by lia. apply Z.pow_le_mono_r; lia. }
           pose proof (Z.pow_pos_nonneg 2 (e + 60) ltac:(lia) ltac:(lia)). nia.
        -- symmetry. apply Z.ltb_ge.
           destruct (Z.leb_spec 0 (e + 60)).
           ++ assert (2 ^ 53 * 2 ^ (e + 60) <= 2 ^ 52 * 2 ^ (e1 + 60)).
              { rewrite <- !Z.pow_add_r by lia. apply Z.pow_le_mono_r; lia. }
              pose proof (Z.pow_pos_nonneg 2 (e + 60) ltac:(lia) ltac:(lia)). nia.
           ++ assert (Hp : 2 <= 2 ^ (- (e + 60))).
              { change 2 with (2 ^ 1) at 1. apply Z.pow_le_mono_r; lia. }
              assert (- (2 ^ 52) <= - Z.pos m / 2 ^ (- (e + 60))).
              { apply Z.div_le_lower_bound; [lia|].
                change (2 ^ 53) with (2 * 2 ^ 52) in Hm. nia. }
              pose proof (Z.pow_pos_nonneg 2 (e1 + 60) ltac:(lia) ltac:(lia)).
              nia.
Qed.

(** The encoder's comparisons for a float of binary64, on the integers. *)
Lemma decisions_finite_float (n : nat) :
  forall (k : nat) (j : Z) (g : float) (iv : interval) (ziv : zinterval),
  (k + n <= 31)%nat -> finite_binary64 g -> repr_iv iv ziv -> Near k j ziv ->
  decisions n (PyFloat g) iv = zdecisions n (scaled_ceiling g) ziv.
Proof.
  induction n as [|n IH]; intros k j g iv ziv Hk Hg Hr HN; [reflexivity|].
  cbn [decisions zdecisions].
  destruct (sim_step 0 iv ziv Hr (Near_safe k j ziv ltac:(lia) HN)) as (Hm & _ & Hn).
  assert (Hd : decide (PyFloat g) iv = (zmid ziv <? scaled_ceiling g)).
  { unfold decide. cbn [num_gt]. now apply SFltb_scaled. }
  rewrite Hd. f_equal.
  apply (IH (S k) (2 * j + Z.b2z (zmid ziv <? scaled_ceiling g)));
    [lia | exact Hg | apply Hn |].
  apply Near_step; [lia | exact HN].
Qed.

(** [scaled_ceiling g] is [2^60 * g] rounded up. *)
Lemma scaled_ceiling_spec (g : float) :
  is_finite g = true ->
  (inject_Z (scaled_ceiling g) - 1 < F2Q g * 1152921504606846976 /\
   F2Q g * 1152921504606846976 <= inject_Z (scaled_ceiling g))%Q.
Proof.
  intros Hfin. destruct g as [s|s| |s m e]; try discriminate Hfin.
  - cbn [scaled_ceiling F2Q]. split; [reflexivity | discriminate].
  - cbn [scaled_ceiling F2Q]. cbv zeta. set (v := if s then Z.neg m else Z.pos m).
    change 1152921504606846976%Q with (inject_Z (2 ^ 60)).
    destruct (Z.leb_spec 0 e) as [He|He].
    + replace (0 <=? e + 60) with true by (symmetry; apply Z.leb_le; lia).
      rewrite Z.pow_add_r by lia. rewrite <- inject_Z_mult, Z.mul_assoc.
      split; [|apply Qle_refl].
      unfold Qlt, Qminus, Qplus, Qopp, inject_Z. cbn [Qnum Qden]. lia.
    + assert (Hp : 0 < 2 ^ (- e)) by (apply Z.pow_pos_nonneg; lia).
      unfold Qlt, Qle, Qminus, Qplus, Qopp, Qmult, inject_Z. cbn [Qnum Qden].
      rewrite ?Pos.mul_1_r, ?Z.mul_1_r. rewrite Z2Pos.id by exact Hp.
      destruct (Z.leb_spec 0 (e + 60)) as [H60|H60].
      * assert (Hs : 2 ^ 60 = 2 ^ (e + 60) * 2 ^ (- e)).
        { rewrite <- Z.pow_add_r by lia. f_equal. lia. }
        rewrite Hs. split; nia.
      * assert (Hk : 0 < 2 ^ (- (e + 60))) by (apply Z.pow_pos_nonneg; lia).
        assert (Hs : 2 ^ (- e) = 2 ^ 60 * 2 ^ (- (e + 60))).
        { rewrite <- Z.pow_add_r by lia. f_equal. lia. }
        rewrite Hs. set (K := 2 ^ (- (e + 60))) in *.
        pose proof (Z.div_mod (- v) K ltac:(lia)) as Hd.
        pose proof (Z.mod_pos_bound (- v) K Hk) as Hr.
        change (2 ^ 60) with 1152921504606846976. split; nia.
Qed.

Lemma inject_Z_abs_le (a b c : Z) :
  Z.abs (a - b) <= c ->
  (inject_Z a - inject_Z b <= inject_Z c /\ inject_Z b - inject_Z a <= inject_Z c)%Q.
Proof.
  intros H. unfold Qle, Qminus, Qplus, Qopp, inject_Z. cbn [Qnum Qden]. lia.
Qed.

Lemma inside_start (X : Z) : 0 <= X <= 4294967295 * 2 ^ 60 -> inside X ztop.
Proof. intros HX. unfold inside, ztop. cbn [fst snd]. lia. Qed.

Lemma scaled_spec (v : number) :
  is_number v ->
  (inject_Z (scaled v) - 1 < value_of v * 1152921504606846976 /\
   value_of v * 1152921504606846976 <= inject_Z (scaled v))%Q.
Proof.
  destruct v as [z|f]; cbn [is_number value_of scaled].
  - intros _. rewrite inject_Z_mult.
    change (inject_Z (2 ^ 60)) with 1152921504606846976%Q. split; lra.
  - intros [Hfin _]. now apply scaled_ceiling_spec.
Qed.

Lemma inject_Z_lt_succ (a b : Z) : (inject_Z a - 1 < inject_Z b)%Q -> a <= b.
Proof.
  unfold Qlt, Qminus, Qplus, Qopp, inject_Z. cbn [Qnum Qden]. lia.
Qed.

Lemma scaled_mono (v w : number) :
  is_number v -> is_number w -> (value_of v <= value_of w)%Q -> scaled v <= scaled w.
Proof.
  intros Hv Hw Hle.
  destruct (scaled_spec v Hv) as [Hv1 _]. destruct (scaled_spec w Hw) as [_ Hw2].
  apply inject_Z_lt_succ. lra.
Qed.

Lemma scaled_nonpos (v : number) :
  is_number v -> (value_of v <= 0)%Q -> scaled v <= 0.
Proof.
  intros Hv Hle. destruct (scaled_spec v Hv) as [Hv1 _].
  apply inject_Z_lt_succ. change (inject_Z 0) with 0%Q. lra.
Qed.

Lemma scaled_top (v : number) :
  is_number v -> (4294967295 <= value_of v)%Q -> 4294967295 * 2 ^ 60 <= scaled v.
Proof.
  intros Hv Hle. destruct (scaled_spec v Hv) as [_ Hv2].
  rewrite Zle_Qle. change (inject_Z (4294967295 * 2 ^ 60))
    with (4294967295 * 1152921504606846976)%Q. lra.
Qed.

(** The comparisons [encode] makes for a number, on the integers. *)
Lemma decisions_number (v : number) (n : nat) :
  is_number v -> (n <= 30)%nat ->
  decisions n v (f_zero, f_top) = zdecisions n (scaled v) ztop.
Proof.
  intros Hv Hn. destruct v as [z|f]; cbn [is_number scaled] in *.
  - apply (decisions_int n 0 0 z _ ztop ltac:(lia) repr_top Near_top).
  - apply (decisions_finite_float n 0 0 f _ ztop ltac:(lia) Hv repr_top Near_top).
Qed.

Lemma zdecisions_mono (n : nat) : forall (X Y : Z) (iv : zinterval),
  X <= Y -> bits_le (zdecisions n X iv) (zdecisions n Y iv).
Proof.
  induction n as [|n IH]; intros X Y iv HXY; [exact I|].
  cbn [zdecisions bits_le].
  destruct (Z.ltb_spec (zmid iv) X) as [Hx|Hx].
  - right. replace (zmid iv <? Y) with true by (symmetry; apply Z.ltb_lt; lia).
    split; [reflexivity|]. now apply IH.
  - destruct (Z.ltb_spec (zmid iv) Y) as [Hy|Hy]; [left; split; reflexivity|].
    right. split; [reflexivity|]. now apply IH.
Qed.

(** X4. [encode] is monotone: for numbers [v <= w], each an [int] or a finite
    float of binary64, in the range or not, and every precision, the token of [v]
    is not after the token of [w] in Python's order on strings; sorting
    tokens of one precision sorts the addresses by bin. *)
Theorem encode_monotone (v w : number) (p : Z) :
  is_number v -> is_number w -> (value_of v <= value_of w)%Q ->
  exists tv tw,
    encode v p = Return tv /\ encode w p = Return tw /\ (tv <=? tw)%string = true.
Proof.
  intros Hv Hw Hle. rewrite !encode_spell. eexists. eexists.
  split; [reflexivity|]. split; [reflexivity|].
  set (n := (3 * Z.to_nat (Z.min p 10))%nat).
  assert (Hn : (n <= 30)%nat) by (unfold n; lia).
  rewrite !decisions_number by assumption.
  apply spell_mono; [now rewrite !zdecisions_length|].
  apply zdecisions_mono. now apply scaled_mono.
Qed.

Lemma encode_monotone_witness :
  exists tv tw,
    encode (PyInt 1113628805) 4 = Return tv /\
    encode (PyFloat (S754_finite false 4680346122542912 (-22))) 4 = Return tw /\
    (tv <=? tw)%string = true.
Proof.
  apply (encode_monotone (PyInt 1113628805)
           (PyFloat (S754_finite false 4680346122542912 (-22))) 4).
  - exact I.
  - split; reflexivity.
  - vm_compute. discriminate.
Defined.

(** ** Numbers outside the range *)

Lemma zmid_pos (iv : zinterval) : safe iv -> 0 < zmid iv.
Proof.
  intros Hs. destruct (midZ_error _ _ Hs) as [_ Herr]. unfold zmid.
  unfold safe in Hs. change (2 ^ 60) with 1152921504606846976 in *.
  change (2 ^ 40) with 1099511627776 in *. lia.
Qed.

Lemma zmid_below_top (k : nat) (j : Z) (iv : zinterval) :
  (k <= 30)%nat -> Near k j iv -> zmid iv < 4294967295 * 2 ^ 60.
Proof.
  intros Hk HN. pose proof (Near_mid k j iv Hk HN) as Hm.
  destruct HN as (Hj0 & Hj1 & _).
  pose proof (W_total (S k) ltac:(lia)) as Ht.
  pose proof (W_lower (S k) ltac:(lia)) as Hw.
  assert (Hp : 2 ^ Z.of_nat (S k) = 2 * 2 ^ Z.of_nat k)
    by (rewrite Nat2Z.inj_succ, Z.pow_succ_r by lia; reflexivity).
  rewrite Hp in Ht.
  assert (Hk' : (Z.of_nat k + 1) * 2 ^ 39 <= 31 * 2 ^ 39) by nia.
  assert ((2 * j + 1) * W (S k) <= (2 * 2 ^ Z.of_nat k - 1) * W (S k)) by nia.
  change (2 ^ 39) with 549755813888 in *. change (2 ^ 29) with 536870912 in *.
  change (2 ^ 60) with 1152921504606846976 in *. lia.
Qed.

Lemma zdecisions_saturate (n : nat) : forall (k : nat) (j : Z) (X : Z) (iv : zinterval),
  (k + n <= 31)%nat -> Near k j iv ->
  (X <= 0 -> zdecisions n X iv = repeat false n) /\
  (4294967295 * 2 ^ 60 <= X -> zdecisions n X iv = repeat true n).
Proof.
  induction n as [|n IH]; intros k j X iv Hk HN; [split; reflexivity|].
  cbn [zdecisions repeat].
  pose proof (zmid_pos iv (Near_safe k j iv ltac:(lia) HN)) as Hpos.
  pose proof (zmid_below_top k j iv ltac:(lia) HN) as Htop.
  split; intros HX.
  - replace (zmid iv <? X) with false by (symmetry; apply Z.ltb_ge; lia).
    f_equal. apply (IH (S k) (2 * j + Z.b2z false)); [lia | | exact HX].
    apply Near_step; [lia | exact HN].
  - replace (zmid iv <? X) with true by (symmetry; apply Z.ltb_lt; lia).
    f_equal. apply (IH (S k) (2 * j + Z.b2z true)); [lia | | exact HX].
    apply Near_step; [lia | exact HN].
Qed.

Lemma spell_repeat (b : bool) (n : nat) :
  spell (repeat b (3 * n)) = repeat (symbol b b b) n.
Proof.
  induction n as [|n IH]; [reflexivity|].
  replace (3 * S n)%nat with (S (S (S (3 * n)))) by lia.
  cbn [repeat spell]. now rewrite IH.
Qed.

(** X5. [encode] raises nothing for a number outside the range and
    saturates: a number at or below 0 gets the token of [0]s and a number at
    or above 4294967295 the token of [f]s, at every precision. *)
Theorem encode_out_of_range (v : number) (p : Z) :
  is_number v ->
  ((value_of v <= 0)%Q -> encode v p = Return (run "0" (Z.min p 10))) /\
  ((4294967295 <= value_of v)%Q -> encode v p = Return (run "f" (Z.min p 10))).
Proof.
  intros Hv. unfold run. rewrite !encode_spell.
  set (n := Z.to_nat (Z.min p 10)).
  assert (Hn : (3 * n <= 30)%nat) by (unfold n; lia).
  rewrite decisions_number by assumption.
  destruct (zdecisions_saturate (3 * n) 0 0 (scaled v) ztop ltac:(lia) Near_top)
    as [Hlo Hhi].
  split; intros H.
  - rewrite Hlo by now apply scaled_nonpos. now rewrite spell_repeat.
  - rewrite Hhi by now apply scaled_top. now rewrite spell_repeat.
Qed.

Lemma encode_out_of_range_witness :
  encode (PyInt (-7)) 10 = Return (run "0" (Z.min 10 10)) /\
  encode (PyFloat (S754_finite false 4503599627370496 (-20))) 10
  = Return (run "f" (Z.min 10 10)).
Proof.
  split.
  - apply (proj1 (encode_out_of_range (PyInt (-7)) 10 I)). vm_compute. discriminate.
  - apply (proj2 (encode_out_of_range
                    (PyFloat (S754_finite false 4503599627370496 (-20))) 10
                    (conj eq_refl eq_refl))).
    vm_compute. discriminate.
Defined.

Lemma decisions_nan (n : nat) : forall (iv : interval),
  decisions n (PyFloat S754_nan) iv = repeat false n.
Proof.
  induction n as [|n IH]; intros iv; [reflexivity|].
  cbn [decisions repeat].
  assert (Hd : decide (PyFloat S754_nan) iv = false).
  { unfold decide. cbn [num_gt]. unfold SFltb.
    destruct (midpoint iv); reflexivity. }
  rewrite Hd. f_equal. apply IH.
Qed.

Lemma decisions_infinity (s : bool) (n : nat) :
  forall (k : nat) (j : Z) (iv : interval) (ziv : zinterval),
  (k + n <= 31)%nat -> repr_iv iv ziv -> Near k j ziv ->
  decisions n (PyFloat (S754_infinity s)) iv = repeat (negb s) n.
Proof.
  induction n as [|n IH]; intros k j iv ziv Hk Hr HN; [reflexivity|].
  cbn [decisions repeat].
  destruct (sim_step 0 iv ziv Hr (Near_safe k j ziv ltac:(lia) HN)) as (Hm & _ & Hn).
  assert (Hd : decide (PyFloat (S754_infinity s)) iv = negb s).
  { unfold decide. cbn [num_gt]. unfold SFltb.
    destruct Hm as [[-> _] | (m & e & -> & _)]; destruct s; reflexivity. }
  rewrite Hd. f_equal.
  apply (IH (S k) (2 * j + Z.b2z (negb s)) _ (znarrow (negb s) ziv));
    [lia | apply Hn | apply Near_step; [lia | exact HN]].
Qed.

(** X6. [encode] raises nothing for a float that is not a number: every
    comparison with NaN is false, so NaN gets the token of [0]s, as minus
    infinity does; plus infinity gets the token of [f]s. *)
Theorem encode_not_a_number (p : Z) :
  encode (PyFloat S754_nan) p = Return (run "0" (Z.min p 10)) /\
  encode (PyFloat (S754_infinity true)) p = Return (run "0" (Z.min p 10)) /\
  encode (PyFloat (S754_infinity false)) p = Return (run "f" (Z.min p 10)).
Proof.
  unfold run. rewrite !encode_spell. set (n := Z.to_nat (Z.min p 10)).
  assert (Hn : (3 * n <= 30)%nat) by (unfold n; lia).
  rewrite decisions_nan.
  rewrite !(decisions_infinity _ (3 * n) 0 0 _ ztop ltac:(lia) repr_top Near_top).
  rewrite !spell_repeat. repeat split.
Qed.

(** ** Tokens as sequences of comparisons *)

Lemma alphabet_spell (cs : list ascii) :
  forallb in_alphabet cs = true ->
  exists bs, cs = spell bs /\ List.length bs = (3 * List.length cs)%nat.
Proof.
  induction cs as [|c cs IH]; intros Hall.
  - exists []. split; reflexivity.
  - cbn [forallb] in Hall. apply andb_true_iff in Hall as [Hc Hcs].
    destruct (in_alphabet_symbol c Hc) as (b1 & b2 & b3 & ->).
    destruct (IH Hcs) as (bs & -> & Hlen).
    exists (b1 :: b2 :: b3 :: bs). split; [reflexivity|].
    cbn [List.length]. lia.
Qed.

Lemma spell_length (n : nat) : forall (bs : list bool),
  List.length bs = (3 * n)%nat -> List.length (spell bs) = n.
Proof.
  induction n as [|n IH]; intros bs Hlen.
  - destruct bs; [reflexivity | discriminate Hlen].
  - destruct bs as [|b1 [|b2 [|b3 bs]]]; try (cbn in Hlen; lia).
    cbn [spell List.length]. f_equal. apply IH. cbn in Hlen. lia.
Qed.

Lemma decode_loop_spell (n : nat) : forall (bs : list bool) (iv : interval) (r : float),
  List.length bs = (3 * n)%nat ->
  decode_loop (spell bs) (iv, r) = Return (follow bs iv, Nat.iter (3 * n) halve r).
Proof.
  induction n as [|n IH]; intros bs iv r Hlen.
  - destruct bs; [reflexivity | discriminate Hlen].
  - destruct bs as [|b1 [|b2 [|b3 bs]]]; try (cbn in Hlen; lia).
    cbn [spell decode_loop follow]. rewrite dict_get_symbol. cbn [bind].
    rewrite decode_masks. rewrite IH by (cbn in Hlen; lia).
    now rewrite iter_halve_triple.
Qed.

Lemma token_index_spell (n : nat) : forall (bs : list bool) (j : Z),
  List.length bs = (3 * n)%nat ->
  fold_left (fun j c => 8 * j + alphabet_position c) (spell bs) j = index_from j bs.
Proof.
  induction n as [|n IH]; intros bs j Hlen.
  - destruct bs; [reflexivity | discriminate Hlen].
  - destruct bs as [|b1 [|b2 [|b3 bs]]]; try (cbn in Hlen; lia).
    cbn [spell fold_left]. rewrite !index_from_cons.
    rewrite IH by (cbn in Hlen; lia). f_equal.
    unfold alphabet_position. rewrite dict_get_symbol.
    unfold code_of. destruct b1, b2, b3; cbn [Z.b2z]; lia.
Qed.

Lemma follow_app (bs cs : list bool) : forall (iv : interval),
  follow (bs ++ cs) iv = follow cs (follow bs iv).
Proof. induction bs as [|b bs IH]; intros iv; [reflexivity | apply IH]. Qed.

(** The value decoded along a sequence of comparisons, as an integer. *)
Lemma follow_value (bs : list bool) :
  (List.length bs <= 30)%nat ->
  repr (midpoint (follow bs (f_zero, f_top))) (zmid (zfollow bs ztop)) /\
  Near (List.length bs) (index_from 0 bs) (zfollow bs ztop).
Proof.
  intros Hlen.
  pose proof (Near_follow bs 0 0 ztop ltac:(cbn; lia) Near_top) as HN.
  cbn [Nat.add] in HN. split; [|exact HN].
  pose proof (repr_follow bs 0 0 _ ztop ltac:(cbn; lia) repr_top Near_top) as Hr.
  apply (sim_step 0 _ _ Hr (Near_safe (List.length bs) _ _ ltac:(lia) HN)).
Qed.

(** What [decode_exactly] returns for the token of a sequence of
    comparisons. *)
Lemma decode_exactly_spell (n : nat) (bs : list bool) :
  List.length bs = (3 * n)%nat ->
  decode_exactly (string_of_list_ascii (spell bs)) =
  Return (midpoint (follow bs (f_zero, f_top)), margin_of_length n).
Proof.
  intros Hlen. unfold decode_exactly. rewrite list_ascii_string_inv.
  rewrite (decode_loop_spell n) by exact Hlen. reflexivity.
Qed.

Lemma string_spell (t : string) :
  over_alphabet t = true ->
  exists bs, t = string_of_list_ascii (spell bs) /\
             List.length bs = (3 * String.length t)%nat.
Proof.
  intros Hall. destruct (alphabet_spell _ Hall) as (bs & Hs & Hlen).
  exists bs. split.
  - rewrite <- Hs. symmetry. apply string_of_list_ascii_of_string.
  - now rewrite string_length_chars.
Qed.

(** ** The value of a token *)

(** X7. For every token [t] of at most 10 characters of the alphabet,
    [decode(t)] is the centre of bin number [token_index t] among the
    [8^len(t)] equal bins of [0, 4294967295], that is
    [(2 * index + 1) * 2147483647.5 / 8^len(t)], up to the rounding of the
    midpoints, which is less than 2^-16. *)
Theorem decode_bin_centre (t : string) :
  over_alphabet t = true -> (String.length t <= 10)%nat ->
  exists value,
    decode t = Return value /\ is_finite value = true /\
    (Qabs (F2Q value - inject_Z (2 * token_index t + 1) * ideal_margin (String.length t))
     <= rounding_allowance)%Q.
Proof.
  intros Hall Hlen. destruct (string_spell t Hall) as (bs & Ht & Hbs).
  remember (String.length t) as n eqn:Hn. subst t.
  unfold decode. rewrite (decode_exactly_spell n) by exact Hbs.
  cbn [bind]. eexists. split; [reflexivity|].
  destruct (follow_value bs ltac:(lia)) as [Hr HN].
  split; [exact (repr_finite _ _ Hr)|].
  assert (Hi : token_index (string_of_list_ascii (spell bs)) = index_from 0 bs).
  { unfold token_index. rewrite list_ascii_string_inv.
    now apply (token_index_spell n). }
  rewrite Hi, (F2Q_repr _ _ Hr), (margin_scaled n) by lia.
  pose proof (Near_mid (List.length bs) _ _ ltac:(lia) HN) as Hm. rewrite Hbs in Hm.
  set (G := zmid (zfollow bs ztop)) in *. set (J := index_from 0 bs) in *.
  set (w := W (S (3 * n))) in *.
  assert (Hk : Z.of_nat (3 * n) + 1 <= 31) by lia.
  set (k := Z.of_nat (3 * n) + 1) in *.
  apply Qabs_Qle_condition. unfold rounding_allowance.
  unfold Qle, Qminus, Qplus, Qopp, Qmult, inject_Z. cbn [Qnum Qden].
  rewrite ?Pos.mul_1_l, ?Pos.mul_1_r.
  change (Z.pos (2 ^ 60 * 2 ^ 60)) with (2 ^ 60 * 2 ^ 60).
  change (Z.pos (2 ^ 60)) with (2 ^ 60). change (Z.pos 65536) with 65536.
  change (2 ^ 60) with 1152921504606846976 in *. change (2 ^ 39) with 549755813888 in *.
  split; nia.
Qed.

Lemma decode_bin_centre_witness :
  exists value,
    decode "a0d01" = Return value /\ is_finite value = true /\
    (Qabs (F2Q value - inject_Z (2 * token_index "a0d01" + 1) * ideal_margin 5)
     <= rounding_allowance)%Q.
Proof. apply (decode_bin_centre "a0d01"); [reflexivity | cbn; lia]. Defined.

Lemma W_add (k m : nat) :
  (k + m <= 60)%nat -> W k = 2 ^ Z.of_nat m * W (k + m).
Proof.
  intros H. unfold W.
  replace (60 - Z.of_nat k) with (Z.of_nat m + (60 - Z.of_nat (k + m))) by lia.
  rewrite Z.pow_add_r by lia. ring.
Qed.

Lemma index_from_split (bs : list bool) (j : Z) :
  exists r, index_from j bs = j * 2 ^ Z.of_nat (List.length bs) + r /\
            0 <= r < 2 ^ Z.of_nat (List.length bs).
Proof.
  pose proof (index_from_div bs j) as Hd.
  assert (Hp : 0 < 2 ^ Z.of_nat (List.length bs)) by (apply Z.pow_pos_nonneg; lia).
  exists (index_from j bs mod 2 ^ Z.of_nat (List.length bs)). split.
  - rewrite <- Hd at 2. rewrite Z.mul_comm. apply Z.div_mod. lia.
  - apply Z.mod_pos_bound. exact Hp.
Qed.

(** Midpoints further down a path differ from the midpoint at its start by
    less than half the width there, and lie on the side the path takes. *)
Lemma zmid_descendant (k : nat) (j : Z) (iv : zinterval) (bs : list bool) :
  (k + List.length bs <= 30)%nat -> Near k j iv ->
  let G := zmid (zfollow bs iv) in
  Z.abs (G - zmid iv) < W (S k) /\
  match bs with
  | [] => True
  | b :: _ => if b then zmid iv < G else G < zmid iv
  end.
Proof.
  intros Hk HN G.
  pose proof (Near_follow bs k j iv ltac:(lia) HN) as HN'.
  pose proof (Near_mid k j iv ltac:(lia) HN) as Hm.
  pose proof (Near_mid (k + List.length bs) _ _ ltac:(lia) HN') as Hm'. fold G in Hm'.
  set (L := List.length bs) in *.
  rewrite (W_add (S k) L) in * by lia.
  replace (S (k + L)) with (S k + L)%nat in Hm' by lia.
  pose proof (W_lower (S k + L) ltac:(lia)) as Hw.
  set (w := W (S k + L)) in *.
  assert (HE1 : (Z.of_nat k + 1) * 2 ^ 39 <= 31 * 2 ^ 39) by nia.
  assert (HE2 : (Z.of_nat (k + L) + 1) * 2 ^ 39 <= 31 * 2 ^ 39) by nia.
  assert (Hp : 0 < 2 ^ Z.of_nat L) by (apply Z.pow_pos_nonneg; lia).
  set (P := 2 ^ Z.of_nat L) in *.
  change (2 ^ 39) with 549755813888 in *. change (2 ^ 29) with 536870912 in *.
  split.
  - destruct (index_from_split bs j) as (r & Hr & Hr0). fold L P in Hr, Hr0.
    rewrite Hr in Hm'.
    assert (Hd : (2 * (j * P + r) + 1) * w - (2 * j + 1) * (P * w) = (2 * r + 1 - P) * w)
      by ring.
    assert (Hb1 : (2 * r + 1 - P) * w <= (P - 1) * w) by (apply Z.mul_le_mono_nonneg_r; lia).
    assert (Hb2 : - ((P - 1) * w) <= (2 * r + 1 - P) * w).
    { rewrite <- Z.mul_opp_l. apply Z.mul_le_mono_nonneg_r; lia. }
    assert (Hb3 : (P - 1) * w = P * w - w) by ring.
    lia.
  - destruct bs as [|b bs]; [exact I|].
    cbn [List.length] in L. 
    destruct (index_from_split bs (2 * j + Z.b2z b)) as (r & Hr & Hr0).
    change (index_from j (b :: bs)) with (index_from (2 * j + Z.b2z b) bs) in Hm'.
    rewrite Hr in Hm'.
    assert (HP : P = 2 * 2 ^ Z.of_nat (List.length bs)).
    { unfold P, L. rewrite Nat2Z.inj_succ, Z.pow_succ_r by lia. reflexivity. }
    assert (Hq : 0 < 2 ^ Z.of_nat (List.length bs)) by (apply Z.pow_pos_nonneg; lia).
    set (Q := 2 ^ Z.of_nat (List.length bs)) in *.
    rewrite HP in *.
    destruct b; cbn [Z.b2z] in *.
    + assert (Hd : (2 * ((2 * j + 1) * Q + r) + 1) * w - (2 * j + 1) * (2 * Q * w)
                   = (2 * r + 1) * w) by ring.
      assert (Hb : 1 * w <= (2 * r + 1) * w) by (apply Z.mul_le_mono_nonneg_r; lia).
      lia.
    + assert (Hd : (2 * j + 1) * (2 * Q * w) - (2 * ((2 * j + 0) * Q + r) + 1) * w
                   = (2 * Q - 2 * r - 1) * w) by ring.
      assert (Hb : 1 * w <= (2 * Q - 2 * r - 1) * w) by (apply Z.mul_le_mono_nonneg_r; lia).
      lia.
Qed.

(** Encoding the value decoded along a path takes the same path. *)
Lemma zdecisions_retrace (bs cs : list bool) : forall (k : nat) (j : Z) (iv : zinterval),
  (k + List.length (bs ++ cs) <= 30)%nat -> Near k j iv ->
  zdecisions (List.length bs) (zmid (zfollow (bs ++ cs) iv)) iv = bs.
Proof.
  induction bs as [|b bs IH]; intros k j iv Hk HN; [reflexivity|].
  cbn [List.length app zdecisions] in *.
  destruct (zmid_descendant k j iv (b :: bs ++ cs) ltac:(cbn [List.length]; lia) HN)
    as [_ Hside].
  cbn [zfollow] in *.
  assert (Hd : (zmid iv <? zmid (zfollow (bs ++ cs) (znarrow b iv))) = b).
  { destruct b; [apply Z.ltb_lt | apply Z.ltb_ge]; lia. }
  rewrite Hd. f_equal.
  apply (IH (S k) (2 * j + Z.b2z b)); [lia|]. apply Near_step; [lia | exact HN].
Qed.

(** X8. For every token [t] of at most 10 characters of the alphabet,
    encoding the value [decode(t)] at the precision [len(t)] gives [t]
    back. *)
Theorem decode_encode_round_trip (t : string) :
  over_alphabet t = true -> (String.length t <= 10)%nat ->
  exists value,
    decode t = Return value /\
    encode (PyFloat value) (Z.of_nat (String.length t)) = Return t.
Proof.
  intros Hall Hlen. destruct (string_spell t Hall) as (bs & Ht & Hbs).
  remember (String.length t) as n eqn:Hn. subst t.
  unfold decode. rewrite (decode_exactly_spell n) by exact Hbs.
  cbn [bind]. eexists. split; [reflexivity|].
  destruct (follow_value bs ltac:(lia)) as [Hr HN].
  rewrite encode_spell. rewrite Z.min_l by lia. rewrite Nat2Z.id.
  do 3 f_equal.
  rewrite (decisions_float (3 * n) 0 0 _ _ _ ztop ltac:(lia) Hr repr_top Near_top).
  rewrite <- Hbs. rewrite <- (app_nil_r bs) at 2.
  rewrite (zdecisions_retrace bs [] 0 0 ztop); [reflexivity | | apply Near_top].
  rewrite app_nil_r. cbn [Nat.add]. lia.
Qed.

Lemma decode_encode_round_trip_witness :
  exists value,
    decode "a0d01" = Return value /\
    encode (PyFloat value) (Z.of_nat (String.length "a0d01")) = Return "a0d01"%string.
Proof. apply (decode_encode_round_trip "a0d01"); [reflexivity | cbn; lia]. Defined.

Lemma list_ascii_append (s u : string) :
  list_ascii_of_string (s ++ u) = (list_ascii_of_string s ++ list_ascii_of_string u)%list.
Proof. induction s as [|c s IH]; cbn; [reflexivity | now rewrite IH]. Qed.

Lemma spell_app (n : nat) : forall (bs cs : list bool),
  List.length bs = (3 * n)%nat -> spell (bs ++ cs) = (spell bs ++ spell cs)%list.
Proof.
  induction n as [|n IH]; intros bs cs Hlen.
  - destruct bs; [reflexivity | discriminate Hlen].
  - destruct bs as [|b1 [|b2 [|b3 bs]]]; try (cbn in Hlen; lia).
    cbn [spell app]. f_equal. apply IH. cbn in Hlen. lia.
Qed.

Lemma over_alphabet_app (t u : string) :
  over_alphabet (t ++ u) = over_alphabet t && over_alphabet u.
Proof. unfold over_alphabet. rewrite list_ascii_append. apply forallb_app. Qed.

(** X9. Longer tokens refine shorter ones: for tokens [t] and [u] of the
    alphabet with at most 10 characters together, [decode(t + u)] lies
    strictly within the margin [decode_exactly(t)] returns of the value it
    returns. *)
Theorem decode_refines (t u : string) :
  over_alphabet t = true -> over_alphabet u = true ->
  (String.length t + String.length u <= 10)%nat ->
  exists value margin finer,
    decode_exactly t = Return (value, margin) /\
    decode (t ++ u) = Return finer /\
    (Qabs (F2Q finer - F2Q value) < F2Q margin)%Q.
Proof.
  intros Ht Hu Hlen.
  destruct (string_spell t Ht) as (bs & Et & Hbs).
  destruct (string_spell u Hu) as (cs & Eu & Hcs).
  remember (String.length t) as n eqn:Hn. remember (String.length u) as m eqn:Hm.
  assert (Etu : (t ++ u)%string = string_of_list_ascii (spell (bs ++ cs))).
  { rewrite (spell_app n) by exact Hbs.
    rewrite <- (string_of_list_ascii_of_string (t ++ u)), list_ascii_append.
    rewrite Et at 1. rewrite Eu at 1. now rewrite !list_ascii_string_inv. }
  rewrite Etu. subst t u.
  unfold decode. rewrite (decode_exactly_spell n) by exact Hbs.
  rewrite (decode_exactly_spell (n + m)) by (rewrite length_app; lia).
  cbn [bind]. eexists. eexists. eexists.
  split; [reflexivity|]. split; [reflexivity|].
  destruct (follow_value bs ltac:(lia)) as [Hr HN].
  destruct (follow_value (bs ++ cs) ltac:(rewrite length_app; lia)) as [Hr' _].
  destruct (margin_of_length_exact n ltac:(lia)) as [_ Hmg].
  rewrite Hmg, (margin_scaled n) by lia.
  rewrite (F2Q_repr _ _ Hr), (F2Q_repr _ _ Hr').
  rewrite zfollow_app in *.
  destruct (zmid_descendant (List.length bs) _ _ cs ltac:(lia) HN) as [Hd _].
  cbv zeta in Hd. rewrite Hbs in Hd.
  set (G' := zmid (zfollow cs (zfollow bs ztop))) in *.
  set (G := zmid (zfollow bs ztop)) in *. set (w := W (S (3 * n))) in *.
  apply Qabs_Qlt_condition.
  unfold Qlt, Qminus, Qplus, Qopp. cbn [Qnum Qden].
  change (Z.pos (2 ^ 60 * 2 ^ 60)) with (2 ^ 60 * 2 ^ 60).
  change (Z.pos (2 ^ 60)) with (2 ^ 60).
  change (2 ^ 60) with 1152921504606846976 in *.
  split; nia.
Qed.

Lemma decode_refines_witness :
  exists value margin finer,
    decode_exactly "a0d" = Return (value, margin) /\
    decode ("a0d" ++ "01") = Return finer /\
    (Qabs (F2Q finer - F2Q value) < F2Q margin)%Q.
Proof. apply (decode_refines "a0d" "01"); [reflexivity | reflexivity | cbn; lia]. Defined.

(** ** The round trip of a float *)

(** X10. For every finite float [g] of binary64 in [0, 4294967295] and precision
    [p] in [1, 10], [decode_exactly(encode(g, p))] returns a value and a margin
    with [|value - g| <= margin], up to the rounding of the midpoints, which
    is less than 2^-16. *)
Theorem decode_within_margin_of_float (g : float) (p : Z) :
  finite_binary64 g -> (0 <= F2Q g <= 4294967295)%Q -> 1 <= p <= 10 ->
  exists value margin,
    roundtrip_float g p = Return (value, margin) /\
    is_finite value = true /\
    (Qabs (F2Q value - F2Q g) <= F2Q margin + rounding_allowance)%Q.
Proof.
  intros Hg Hrange Hp. unfold roundtrip_float.
  rewrite encode_spell. cbn [bind]. rewrite (Z.min_l p 10) by lia.
  set (n := Z.to_nat p). assert (Hn : (1 <= n <= 10)%nat) by lia.
  set (X := scaled_ceiling g).
  rewrite (decisions_finite_float (3 * n) 0 0 g _ ztop ltac:(lia) Hg repr_top Near_top).
  fold X. set (bs := zdecisions (3 * n) X ztop).
  assert (Hbs : List.length bs = (3 * n)%nat) by apply zdecisions_length.
  rewrite (decode_exactly_spell n) by exact Hbs.
  eexists. eexists. split; [reflexivity|].
  destruct (follow_value bs ltac:(lia)) as [Hr HN].
  split; [exact (repr_finite _ _ Hr)|].
  destruct (scaled_ceiling_spec g (proj1 Hg)) as [Hlo Hhi]. fold X in Hlo, Hhi.
  assert (HX : 0 <= X <= 4294967295 * 2 ^ 60).
  { change (2 ^ 60) with 1152921504606846976. split.
    - assert (H0 : (inject_Z 0 <= inject_Z X)%Q) by (change (inject_Z 0) with 0%Q; lra).
      now rewrite <- Zle_Qle in H0.
    - assert (Hlt : (inject_Z X - 1 < inject_Z (4294967295 * 1152921504606846976))%Q).
      { change (inject_Z (4294967295 * 1152921504606846976))
          with (4294967295 * 1152921504606846976)%Q. lra. }
      unfold Qlt, Qminus, Qplus, Qopp, inject_Z in Hlt. cbn [Qnum Qden] in Hlt. lia. }
  pose proof (inside_follow (3 * n) X ztop (inside_start X HX)) as Hin. fold bs in Hin.
  rewrite Hbs in *.
  destruct (margin_of_length_exact n ltac:(lia)) as [_ Hmg].
  rewrite Hmg, (margin_scaled n), (F2Q_repr _ _ Hr) by lia.
  set (V := zmid (zfollow bs ztop)) in *. set (w := W (S (3 * n))) in *.
  assert (HV : Z.abs (V - X) <= w + 31 * 2 ^ 39).
  { assert (HI : Inv (3 * n) (zfollow bs ztop) X).
    { destruct HN as (Hj0 & Hj1 & Hl & Hh). destruct Hin as [Hi1 Hi2].
      exists (index_from 0 bs). repeat split; try assumption; lia. }
    pose proof (zmid_within (3 * n) _ _ ltac:(lia) HI) as Hz. fold V w in Hz.
    assert (Z.of_nat (3 * n) <= 30) by lia.
    change (2 ^ 39) with 549755813888 in *. lia. }
  apply inject_Z_abs_le in HV as [HV1 HV2].
  rewrite inject_Z_plus in HV1, HV2.
  assert (EV : (V # 2 ^ 60 == inject_Z V * (1 # 2 ^ 60))%Q).
  { unfold Qeq, Qmult, inject_Z. cbn [Qnum Qden]. lia. }
  assert (EW : (w # 2 ^ 60 == inject_Z w * (1 # 2 ^ 60))%Q).
  { unfold Qeq, Qmult, inject_Z. cbn [Qnum Qden]. lia. }
  rewrite EV, EW. unfold rounding_allowance.
  change (inject_Z (31 * 2 ^ 39)) with (17042430230528%Q) in *.
  change (1 # 2 ^ 60)%Q with (1 # 1152921504606846976)%Q.
  apply Qabs_Qle_condition. split; lra.
Qed.

Lemma decode_within_margin_of_float_witness :
  exists value margin,
    roundtrip_float (S754_finite false 4680346122542912 (-22)) 5 = Return (value, margin) /\
    is_finite value = true /\
    (Qabs (F2Q value - F2Q (S754_finite false 4680346122542912 (-22)))
     <= F2Q margin + rounding_allowance)%Q.
Proof.
  apply (decode_within_margin_of_float (S754_finite false 4680346122542912 (-22)) 5).
  - split; reflexivity.
  - split; vm_compute; discriminate.
  - lia.
Defined.

(** ** The two tables *)

(** X11. The table [__decodemap] built when the module is loaded is the
    inverse of indexing [__base32]: [__decodemap[c] == i] exactly when
    [i >= 0] and [__base32[i] == c]; the character [encode] writes for a
    number is the one [decode_exactly] reads as that number. *)
Theorem decodemap_inverts_base32 (c : ascii) (i : Z) :
  dict_get decodemap c = Return i <-> 0 <= i /\ str_index base32 i = Return c.
Proof.
  split.
  - intros H. destruct (in_alphabet c) eqn:Hc.
    + destruct (in_alphabet_symbol c Hc) as (b1 & b2 & b3 & ->).
      rewrite dict_get_symbol in H. injection H as <-.
      destruct b1, b2, b3; split; try reflexivity; cbn; lia.
    + rewrite dict_get_foreign in H by exact Hc. discriminate H.
  - intros [Hi H]. unfold str_index, list_index in H.
    cbn [base32 list_ascii_of_string List.length] in H.
    change (Z.of_nat 8) with 8 in H.
    cbv zeta in H.
    assert (E1 : (i <? 0) = false) by (apply Z.ltb_ge; lia).
    rewrite E1 in H. cbv iota in H. rewrite E1 in H. cbn [orb] in H.
    destruct (8 <=? i) eqn:Hb; [discriminate H|]. apply Z.leb_gt in Hb.
    assert (Hc : i = 0 \/ i = 1 \/ i = 2 \/ i = 3 \/ i = 4 \/ i = 5 \/ i = 6 \/ i = 7)
      by lia.
    repeat (destruct Hc as [-> | Hc]); try subst i;
      cbn in H; injection H as <-; reflexivity.
Qed.

(** ** Numerals in other bases, short forms, and text after the address *)

Lemma int_base16_pack (w : Z) :
  int_base16 (bytes_hex (pack w)) = Return (w mod 4294967296).
Proof.
  unfold pack. rewrite int_base16_bytes_hex, !byte_to_of_Z. f_equal.
  unfold word. Z.div_mod_to_equations. lia.
Qed.

Lemma inet_aton_loop_packs (slots : nat) : forall (cp : list ascii) (stored : list Z) (bs : bytes),
  inet_aton_loop slots cp stored = Some bs -> exists w, bs = pack w.
Proof.
  induction slots as [|slots IH]; intros cp stored bs H;
    destruct cp as [|c cp]; cbn [inet_aton_loop] in H; try discriminate H;
    destruct (is_digit c); try discriminate H;
    destruct (strtoul0 (c :: cp)) as [val rest];
    destruct (4294967295 <? val); try discriminate H.
  - destruct rest as [|r rest].
    + destruct (_ && _); [|discriminate H]. injection H as <-. eexists. reflexivity.
    + destruct (Ascii.eqb r ".") eqn:Er.
      * apply Ascii.eqb_eq in Er. subst r. discriminate H.
      * destruct r as [[] [] [] [] [] [] [] []]; try discriminate Er;
          (destruct (_ && _); [|discriminate H]); injection H as <-;
          eexists; reflexivity.
  - destruct rest as [|r rest].
    + destruct (_ && _); [|discriminate H]. injection H as <-. eexists. reflexivity.
    + destruct (Ascii.eqb r ".") eqn:Er.
      * apply Ascii.eqb_eq in Er. subst r.
        destruct (255 <? val); [discriminate H|]. now apply IH in H.
      * destruct r as [[] [] [] [] [] [] [] []]; try discriminate Er;
          (destruct (_ && _); [|discriminate H]); injection H as <-;
          eexists; reflexivity.
Qed.

Lemma int_base16_pack_small (w : Z) :
  0 <= w <= 4294967295 -> int_base16 (bytes_hex (pack w)) = Return w.
Proof. intros Hw. rewrite int_base16_pack, Z.mod_small by lia. reflexivity. Qed.

Lemma iptoint_numerals (ns : list Z) (bs : bytes) :
  Forall (fun n => 0 <= n) ns ->
  inet_aton_loop 3 (dotted ns) [] = Some bs ->
  iptoint (string_of_list_ascii (dotted ns)) = int_base16 (bytes_hex bs).
Proof.
  intros Hns H. unfold iptoint, inet_aton. rewrite list_ascii_string_inv.
  rewrite no_nul_dotted by exact Hns. rewrite H. reflexivity.
Qed.

(** X12. [iptoint] on decimal numerals joined by dots: four octets [a.b.c.d]
    give [a*2^24 + b*2^16 + c*2^8 + d]; in the short forms the last numeral
    fills the bytes left, [a.b.n] with [n <= 65535], [a.n] with
    [n <= 16777215], and [n] alone with [n <= 4294967295]. *)
Theorem iptoint_numeral_forms (a b c n : Z) :
  (is_octet a -> is_octet b -> is_octet c -> is_octet n ->
   iptoint (string_of_list_ascii (dotted [a; b; c; n])) =
   Return (a * 16777216 + b * 65536 + c * 256 + n)) /\
  (is_octet a -> is_octet b -> 0 <= n <= 65535 ->
   iptoint (string_of_list_ascii (dotted [a; b; n])) =
   Return (a * 16777216 + b * 65536 + n)) /\
  (is_octet a -> 0 <= n <= 16777215 ->
   iptoint (string_of_list_ascii (dotted [a; n])) = Return (a * 16777216 + n)) /\
  (0 <= n <= 4294967295 ->
   iptoint (string_of_list_ascii (dotted [n])) = Return n).
Proof.
  split; [|split; [|split]].
  - intros Ha Hb Hc Hn. apply (iptoint_dotted_quad a b c n); assumption.
  - unfold is_octet. intros Ha Hb Hn.
    rewrite (iptoint_numerals [a; b; n] (pack (a * 16777216 + b * 65536 + n))).
    + apply int_base16_pack_small. lia.
    + repeat (apply Forall_cons; [lia|]). apply Forall_nil.
    + cbn [dotted]. rewrite !inet_aton_loop_dot, inet_aton_loop_last by lia.
      cbn [List.length app max_last nth]. repeat decide_cmp.
      do 2 f_equal; unfold word_of_parts;
        cbn [List.length seq combine fold_left Z.of_nat];
        change (256 ^ (3 - 0)) with 16777216;
        change (256 ^ (3 - Z.of_nat 1)) with 65536; lia.
  - unfold is_octet. intros Ha Hn.
    rewrite (iptoint_numerals [a; n] (pack (a * 16777216 + n))).
    + apply int_base16_pack_small. lia.
    + repeat (apply Forall_cons; [lia|]). apply Forall_nil.
    + cbn [dotted]. rewrite inet_aton_loop_dot, inet_aton_loop_last by lia.
      cbn [List.length app max_last nth]. repeat decide_cmp.
      do 2 f_equal; unfold word_of_parts;
        cbn [List.length seq combine fold_left Z.of_nat];
        change (256 ^ (3 - 0)) with 16777216; lia.
  - intros Hn.
    rewrite (iptoint_numerals [n] (pack n)).
    + apply int_base16_pack_small. lia.
    + repeat (apply Forall_cons; [lia|]). apply Forall_nil.
    + cbn [dotted]. rewrite inet_aton_loop_last by lia.
      cbn [List.length max_last nth]. repeat decide_cmp. reflexivity.
Qed.

Lemma iptoint_numeral_forms_witness :
  iptoint "1.2.3.4" = Return (1 * 16777216 + 2 * 65536 + 3 * 256 + 4) /\
  iptoint "1.2.772" = Return (1 * 16777216 + 2 * 65536 + 772) /\
  iptoint "1.131844" = Return (1 * 16777216 + 131844) /\
  iptoint "16909060" = Return 16909060.
Proof.
  split; [|split; [|split]].
  - apply (proj1 (iptoint_numeral_forms 1 2 3 4)); unfold is_octet; lia.
  - apply (proj1 (proj2 (iptoint_numeral_forms 1 2 0 772))); unfold is_octet; lia.
  - apply (proj1 (proj2 (proj2 (iptoint_numeral_forms 1 0 0 131844)))); unfold is_octet; lia.
  - apply (proj2 (proj2 (proj2 (iptoint_numeral_forms 0 0 0 16909060)))). lia.
Defined.

Lemma digits_nonempty (base n : Z) :
  2 <= base <= 16 -> 0 <= n ->
  exists d tl, 0 <= d < base /\ digits base n = digit_char d :: tl.
Proof.
  intros Hb Hn. destruct (Z.eq_dec n 0) as [-> | Hne].
  - exists 0, []. split; [lia|]. apply digits_zero. lia.
  - destruct (digits_head base n ltac:(lia) ltac:(lia)) as (d & tl & Hd & E).
    exists d, tl. split; [lia | exact E].
Qed.

(** A part that starts with [0] is read in base 8. *)
Lemma strtoul0_octal (n : Z) (rest : list ascii) :
  0 <= n ->
  strtoul0 ("0"%char :: digits 8 n ++ "."%char :: rest) = (n, "."%char :: rest).
Proof.
  intros Hn.
  pose proof (read_digits_numeral 8 n ("."%char :: rest) ltac:(lia) Hn) as Hr.
  destruct (digits_nonempty 8 n ltac:(lia) Hn) as (d & tl & Hd & E).
  rewrite E in *. cbn [app] in *.
  assert (Hx : (code (digit_char d) =? 120) || (code (digit_char d) =? 88) = false).
  { rewrite code_digit_char by lia.
    replace (d <? 10) with true by (symmetry; apply Z.ltb_lt; lia).
    repeat decide_cmp. reflexivity. }
  assert (Hgo : strtoul0 ("0"%char :: digit_char d :: tl ++ "."%char :: rest) =
                read_digits 8 0 ("0"%char :: digit_char d :: tl ++ "."%char :: rest)).
  { destruct tl as [|t tl]; cbn [app strtoul0]; rewrite Hx; reflexivity. }
  rewrite Hgo. cbn [read_digits].
  change (digit_in_base 8 "0") with (Some 0). cbv iota.
  change (0 * 8 + 0) with 0. cbn [read_digits] in Hr. exact Hr.
Qed.

(** A part that starts with [0x] is read in base 16. *)
Lemma strtoul0_hex (n : Z) (rest : list ascii) :
  0 <= n ->
  strtoul0 ("0"%char :: "x"%char :: digits 16 n ++ "."%char :: rest)
  = (n, "."%char :: rest).
Proof.
  intros Hn.
  pose proof (read_digits_numeral 16 n ("."%char :: rest) ltac:(lia) Hn) as Hr.
  destruct (digits_nonempty 16 n ltac:(lia) Hn) as (d & tl & Hd & E).
  rewrite E in *. cbn [app] in *. cbn [strtoul0].
  change ((code "x" =? 120) || (code "x" =? 88)) with true.
  rewrite hex_digit_char by lia. cbn [andb]. exact Hr.
Qed.

Lemma inet_aton_loop_first (val : Z) (cp rest : list ascii) :
  0 <= val <= 255 ->
  strtoul0 ("0"%char :: cp) = (val, "."%char :: rest) ->
  inet_aton_loop 3 ("0"%char :: cp) [] = inet_aton_loop 2 rest [val].
Proof.
  intros Hv Hs. cbn [inet_aton_loop].
  change (is_digit "0") with true. cbv iota. rewrite Hs.
  repeat decide_cmp. reflexivity.
Qed.

Lemma iptoint_tail (a b c d : Z) :
  is_octet a -> is_octet b -> is_octet c -> is_octet d ->
  packed <- match inet_aton_loop 2 (dotted [b; c; d]) [a] with
            | Some packed => Return packed
            | None => Raise OSError
            end ;;
  int_base16 (bytes_hex packed) = Return (word a b c d).
Proof.
  intros Ha Hb Hc Hd. pose proof Ha as Ha'. pose proof Hb as Hb'.
  pose proof Hc as Hc'. pose proof Hd as Hd'. unfold is_octet in Ha', Hb', Hc', Hd'.
  cbn [dotted]. rewrite !inet_aton_loop_dot, inet_aton_loop_last by lia.
  cbn [List.length app max_last nth]. repeat decide_cmp.
  cbn [bind]. unfold pack. rewrite int_base16_bytes_hex, !byte_to_of_Z.
  rewrite word_of_three.
  destruct (word_bytes a b c d Ha Hb Hc Hd) as (-> & -> & -> & ->). reflexivity.
Qed.

(** X13. [iptoint] reads a part that starts with [0] in base 8 and one that
    starts with [0x] in base 16: for octets [a], [b], [c], [d], the first
    written in octal after a [0], or in hexadecimal after [0x], the result
    is that of the decimal quad [a.b.c.d]. *)
Theorem iptoint_octal_and_hex (a b c d : Z) :
  is_octet a -> is_octet b -> is_octet c -> is_octet d ->
  iptoint (string_of_list_ascii
             ("0"%char :: digits 8 a ++ "."%char :: dotted [b; c; d]))
  = Return (word a b c d) /\
  iptoint (string_of_list_ascii
             ("0"%char :: "x"%char :: digits 16 a ++ "."%char :: dotted [b; c; d]))
  = Return (word a b c d).
Proof.
  intros Ha Hb Hc Hd. pose proof Ha as Ha'. pose proof Hb as Hb'.
  pose proof Hc as Hc'. pose proof Hd as Hd'. unfold is_octet in Ha', Hb', Hc', Hd'.
  assert (Hnul : existsb (fun c => code c =? 0) (dotted [b; c; d]) = false)
    by (apply no_nul_dotted; repeat constructor; lia).
  split; unfold iptoint, inet_aton; rewrite list_ascii_string_inv.
  - cbn [existsb]. rewrite existsb_app, no_nul_digits by lia.
    cbn [existsb orb]. rewrite Hnul.
    change ((code "0" =? 0) || ((code "." =? 0) || false)) with false. cbv iota.
    rewrite (inet_aton_loop_first a _ (dotted [b; c; d]) Ha' (strtoul0_octal a _ ltac:(lia))).
    now apply iptoint_tail.
  - cbn [existsb]. rewrite existsb_app, no_nul_digits by lia.
    cbn [existsb orb]. rewrite Hnul.
    change ((code "0" =? 0) || ((code "x" =? 0) || ((code "." =? 0) || false)))
      with false. cbv iota.
    rewrite (inet_aton_loop_first a _ (dotted [b; c; d]) Ha' (strtoul0_hex a _ ltac:(lia))).
    now apply iptoint_tail.
Qed.

Lemma iptoint_octal_and_hex_witness :
  iptoint "010.0.0.1" = Return (word 8 0 0 1) /\
  iptoint "0x8.0.0.1" = Return (word 8 0 0 1).
Proof. apply (iptoint_octal_and_hex 8 0 0 1); unfold is_octet; lia. Defined.

Lemma is_space_inv (c : ascii) :
  is_space c = true ->
  c = " "%char \/ c = "009"%char \/ c = "010"%char \/ c = "011"%char \/
  c = "012"%char \/ c = "013"%char.
Proof.
  intros H. destruct c as [[] [] [] [] [] [] [] []]; try discriminate H; tauto.
Qed.

(** A numeral followed by white space is read whole. *)
Lemma strtoul0_numeral_space (n : Z) (sp : ascii) (rest : list ascii) :
  0 <= n -> is_space sp = true ->
  strtoul0 (digits 10 n ++ sp :: rest) = (n, sp :: rest).
Proof.
  intros Hn Hsp. destruct (Z.eq_dec n 0) as [-> | Hne].
  - rewrite digits_zero by lia.
    apply is_space_inv in Hsp.
    destruct rest as [|h r];
      repeat (destruct Hsp as [-> | Hsp]); try subst sp; reflexivity.
  - destruct (digits_head 10 n ltac:(lia) ltac:(lia)) as (d & tl & Hd & E).
    pose proof (read_digits_numeral 10 n (sp :: rest) ltac:(lia) Hn) as Hr.
    rewrite E in Hr |- *. cbn [app] in Hr |- *.
    rewrite strtoul0_decimal_head by lia. rewrite Hr.
    apply is_space_inv in Hsp.
    repeat (destruct Hsp as [-> | Hsp]); try subst sp; reflexivity.
Qed.

(** A numeral followed by white space ends the address, whatever comes
    after the white space. *)
Lemma inet_aton_loop_space (slots : nat) (v : Z) (sp : ascii) (rest : list ascii)
    (stored : list Z) :
  0 <= v -> is_space sp = true ->
  inet_aton_loop slots (digits 10 v ++ sp :: rest) stored =
  if 4294967295 <? v then None
  else if v <=? max_last (List.length stored)
       then Some (pack (word_of_parts stored v))
       else None.
Proof.
  intros Hv Hsp.
  pose proof (strtoul0_numeral_space v sp rest Hv Hsp) as Hs.
  destruct (digits_cons v Hv) as (c & tl & E & Hc).
  rewrite E in Hs |- *. cbn [app] in Hs |- *.
  apply is_space_inv in Hsp.
  destruct slots; cbn [inet_aton_loop]; rewrite Hc, Hs;
    repeat (destruct Hsp as [-> | Hsp]); try subst sp; reflexivity.
Qed.

(** X14. [iptoint] reads nothing past white space: a decimal quad followed
    by a white-space character and any text without a null character gives
    the integer of the quad. *)
Theorem iptoint_ignores_trailing_text (a b c d : Z) (sp : ascii) (rest : string) :
  is_octet a -> is_octet b -> is_octet c -> is_octet d ->
  is_space sp = true -> no_nul rest ->
  iptoint (dotted_quad a b c d ++ String sp rest) = Return (word a b c d).
Proof.
  intros Ha Hb Hc Hd Hsp Hnul. pose proof Ha as Ha'. pose proof Hb as Hb'.
  pose proof Hc as Hc'. pose proof Hd as Hd'. unfold is_octet in Ha', Hb', Hc', Hd'.
  unfold iptoint, inet_aton, dotted_quad.
  rewrite list_ascii_append, list_ascii_string_inv.
  cbn [list_ascii_of_string]. rewrite existsb_app.
  rewrite no_nul_dotted by (repeat constructor; lia).
  cbn [existsb orb]. unfold no_nul in Hnul. rewrite Hnul, orb_false_r.
  replace (code sp =? 0) with false.
  2:{ apply is_space_inv in Hsp.
      repeat (destruct Hsp as [-> | Hsp]); try subst sp; reflexivity. }
  cbn [dotted]. rewrite <- !app_assoc. cbn [app]. rewrite <- !app_assoc. cbn [app].
  rewrite <- !app_assoc. cbn [app].
  rewrite !inet_aton_loop_dot, inet_aton_loop_space by (try exact Hsp; lia).
  cbn [List.length app max_last nth]. repeat decide_cmp.
  cbn [bind]. unfold pack. rewrite int_base16_bytes_hex, !byte_to_of_Z.
  rewrite word_of_three.
  destruct (word_bytes a b c d Ha Hb Hc Hd) as (-> & -> & -> & ->). reflexivity.
Qed.

Lemma iptoint_ignores_trailing_text_witness :
  iptoint (dotted_quad 66 96 160 133 ++ String " " "or not") = Return (word 66 96 160 133).
Proof.
  apply (iptoint_ignores_trailing_text 66 96 160 133 " " "or not");
    try (unfold is_octet; lia); reflexivity.
Defined.

(** ** From any accepted text to the canonical one *)

Lemma iptoint_range (s : string) (n : Z) :
  iptoint s = Return n -> 0 <= n <= 4294967295.
Proof.
  unfold iptoint, inet_aton. destruct (existsb _ _); [discriminate|].
  destruct (inet_aton_loop 3 _ []) as [bs|] eqn:E; [|discriminate].
  apply inet_aton_loop_packs in E as [w ->]. cbn [bind].
  rewrite int_base16_pack. intros H. injection H as <-.
  pose proof (Z.mod_pos_bound w 4294967296 ltac:(lia)). lia.
Qed.

Lemma octet_numeral (a : Z) :
  is_octet a ->
  canonical_octet (digits 10 a) = true /\
  forallb (fun c => negb (Ascii.eqb c ".")) (digits 10 a) = true.
Proof.
  intros Ha. unfold is_octet in Ha.
  assert (H : forallb (fun k => canonical_octet (digits 10 (Z.of_nat k)) &&
                                forallb (fun c => negb (Ascii.eqb c "."))
                                        (digits 10 (Z.of_nat k)))
                      (seq 0 256) = true) by (vm_compute; reflexivity).
  rewrite forallb_forall in H. specialize (H (Z.to_nat a)).
  rewrite Z2Nat.id in H by lia. apply andb_true_iff. apply H.
  apply in_seq. lia.
Qed.

Lemma split_dots_part (p rest : list ascii) :
  forallb (fun c => negb (Ascii.eqb c ".")) p = true ->
  split_dots (p ++ "."%char :: rest) = p :: split_dots rest.
Proof.
  induction p as [|c p IH]; intros H; [reflexivity|].
  cbn [forallb] in H. apply andb_true_iff in H as [Hc Hp].
  cbn [app split_dots]. apply negb_true_iff in Hc. rewrite Hc, (IH Hp). reflexivity.
Qed.

Lemma split_dots_one (p : list ascii) :
  forallb (fun c => negb (Ascii.eqb c ".")) p = true -> split_dots p = [p].
Proof.
  induction p as [|c p IH]; intros H; [reflexivity|].
  cbn [forallb] in H. apply andb_true_iff in H as [Hc Hp].
  cbn [split_dots]. apply negb_true_iff in Hc. rewrite Hc, (IH Hp). reflexivity.
Qed.

Lemma canonical_quad_octets (a b c d : Z) :
  is_octet a -> is_octet b -> is_octet c -> is_octet d ->
  canonical_quad (dotted_quad a b c d) = true.
Proof.
  intros Ha Hb Hc Hd.
  destruct (octet_numeral a Ha) as [Ca Da]. destruct (octet_numeral b Hb) as [Cb Db].
  destruct (octet_numeral c Hc) as [Cc Dc]. destruct (octet_numeral d Hd) as [Cd Dd].
  unfold canonical_quad, dotted_quad. rewrite list_ascii_string_inv.
  cbn [dotted]. rewrite !split_dots_part, split_dots_one by assumption.
  cbn [List.length Nat.eqb forallb]. now rewrite Ca, Cb, Cc, Cd.
Qed.

(** X15. Whatever string [iptoint] accepts, its result [n] is in
    [0, 4294967295], [inttoip(n)] returns the dotted quad without leading
    zeros of the same address, and [iptoint] of that quad is [n] again. *)
Theorem iptoint_normalises (s : string) (n : Z) :
  iptoint s = Return n ->
  0 <= n <= 4294967295 /\
  exists s', inttoip n = Return s' /\ canonical_quad s' = true /\
             iptoint s' = Return n.
Proof.
  intros H. pose proof (iptoint_range s n H) as Hn. split; [exact Hn|].
  destruct (word_octets n ltac:(lia)) as (a & b & c & d & Ha & Hb & Hc & Hd & ->).
  exists (dotted_quad a b c d). split; [now apply inttoip_word|].
  split; [now apply canonical_quad_octets | now apply iptoint_dotted_quad].
Qed.

Lemma iptoint_normalises_witness :
  0 <= 134217729 <= 4294967295 /\
  exists s', inttoip 134217729 = Return s' /\ canonical_quad s' = true /\
             iptoint s' = Return 134217729.
Proof. apply (iptoint_normalises "010.0.0.1" 134217729). vm_compute. reflexivity. Defined.

(** ** inttoip, in the range and out of it *)

(** X16. For every integer [n] in [0, 4294967295], [inttoip(n)] is the four
    bytes of [n], most significant first, in decimal and joined by dots. *)
Theorem inttoip_octets (n : Z) :
  0 <= n <= 4294967295 ->
  inttoip n =
  Return (dotted_quad (n / 16777216) (n / 65536 mod 256) (n / 256 mod 256) (n mod 256)).
Proof.
  intros Hn.
  assert (E : n = word (n / 16777216) (n / 65536 mod 256) (n / 256 mod 256) (n mod 256)).
  { unfold word. Z.div_mod_to_equations. lia. }
  rewrite E at 1.
  apply inttoip_word; unfold is_octet; Z.div_mod_to_equations; lia.
Qed.

Lemma inttoip_octets_witness :
  inttoip 1113628805 =
  Return (dotted_quad (1113628805 / 16777216) (1113628805 / 65536 mod 256)
            (1113628805 / 256 mod 256) (1113628805 mod 256)).
Proof. apply (inttoip_octets 1113628805). lia. Defined.

Lemma unhexlify_foreign (n : nat) : forall (bs : bytes),
  (List.length bs <= 2 * n)%nat ->
  Exists (fun b => digit_in_base 16 (ascii_of_byte b) = None) bs ->
  unhexlify bs = Raise ValueError.
Proof.
  induction n as [|n IH]; intros bs Hlen Hex.
  - destruct bs; [inversion Hex | cbn in Hlen; lia].
  - destruct bs as [|h [|l rest]]; [inversion Hex | reflexivity |].
    cbn [unhexlify].
    destruct (digit_in_base 16 (ascii_of_byte h)) as [dh|] eqn:Eh; [|reflexivity].
    destruct (digit_in_base 16 (ascii_of_byte l)) as [dl|] eqn:El; [|reflexivity].
    rewrite IH; [reflexivity | cbn in Hlen; lia |].
    apply Exists_cons in Hex as [Hex | Hex]; [congruence|].
    apply Exists_cons in Hex as [Hex | Hex]; [congruence | exact Hex].
Qed.

Lemma unhexlify_digits (n : nat) : forall (cs : list ascii),
  (List.length cs <= 2 * n)%nat ->
  Forall (fun c => exists d, 0 <= d < 16 /\ c = digit_char d) cs ->
  if Nat.even (List.length cs)
  then exists bs, unhexlify (map byte_of_ascii cs) = Return bs /\
                  (2 * List.length bs = List.length cs)%nat
  else unhexlify (map byte_of_ascii cs) = Raise ValueError.
Proof.
  induction n as [|n IH]; intros cs Hlen HF.
  - destruct cs; [|cbn in Hlen; lia]. exists []. split; reflexivity.
  - destruct cs as [|h [|l rest]].
    + exists []. split; reflexivity.
    + reflexivity.
    + apply Forall_cons_iff in HF as [(dh & Hdh & ->) HF].
      apply Forall_cons_iff in HF as [(dl & Hdl & ->) HF].
      cbn [map unhexlify List.length Nat.even]. rewrite !ascii_of_byte_of_ascii.
      rewrite !hex_digit_char by lia.
      specialize (IH rest ltac:(cbn in Hlen; lia) HF).
      destruct (Nat.even (List.length rest)).
      * destruct IH as (bs & -> & Hbs). cbn [bind]. eexists. split; [reflexivity|].
        cbn [List.length]. lia.
      * rewrite IH. reflexivity.
Qed.

Lemma read_digits_bound (cs : list ascii) : forall (acc : Z),
  0 <= acc ->
  fst (read_digits 16 acc cs) < (acc + 1) * 16 ^ Z.of_nat (List.length cs).
Proof.
  induction cs as [|c cs IH]; intros acc Hacc.
  - cbn. lia.
  - cbn [read_digits List.length]. rewrite Nat2Z.inj_succ, Z.pow_succ_r by lia.
    assert (Hp : 0 < 16 ^ Z.of_nat (List.length cs)) by (apply Z.pow_pos_nonneg; lia).
    destruct (digit_in_base 16 c) as [d|] eqn:E.
    + assert (Hd : 0 <= d < 16).
      { unfold digit_in_base in E. cbv zeta in E.
        destruct ((0 <=? _) && (_ <? 16)) eqn:Hb; [|discriminate E].
        injection E as <-. bool_to_Z. lia. }
      specialize (IH (acc * 16 + d) ltac:(lia)). nia.
    + cbn [fst]. nia.
Qed.

Lemma digits16_long (n : Z) :
  4294967296 <= n -> (9 <= List.length (digits 16 n))%nat.
Proof.
  intros Hn.
  pose proof (read_digits_numeral 16 n [] ltac:(lia) ltac:(lia)) as Hr.
  rewrite app_nil_r in Hr. cbn [read_digits] in Hr.
  pose proof (read_digits_bound (digits 16 n) 0 ltac:(lia)) as Hb.
  rewrite Hr in Hb. cbn [fst] in Hb.
  destruct (Nat.le_gt_cases 9 (List.length (digits 16 n))) as [H|H]; [exact H|exfalso].
  assert (16 ^ Z.of_nat (List.length (digits 16 n)) <= 16 ^ 8)
    by (apply Z.pow_le_mono_r; lia).
  change (16 ^ 8) with 4294967296 in *. lia.
Qed.

Lemma inet_ntoa_wrong_length (bs : bytes) :
  List.length bs <> 4%nat -> inet_ntoa bs = Raise OSError.
Proof.
  intros H. destruct bs as [|a [|b [|c [|d [|e bs]]]]]; try reflexivity.
  now contradiction H.
Qed.

Lemma inttoip_negative (n : Z) : n < 0 -> inttoip n = Raise ValueError.
Proof.
  intros Hn. unfold inttoip, hex.
  replace (n <? 0) with true by (symmetry; apply Z.ltb_lt; lia).
  unfold str_drop. rewrite list_ascii_string_inv. cbn [skipn].
  unfold zfill. rewrite list_ascii_string_inv.
  change ((code "x" =? 43) || (code "x" =? 45)) with false. cbv iota.
  unfold str_encode. rewrite list_ascii_string_inv.
  set (cs := (repeat "0"%char _ ++ _)%list).
  rewrite (unhexlify_foreign (List.length (map byte_of_ascii cs))); [reflexivity | lia |].
  unfold cs. rewrite map_app. apply Exists_app. right.
  cbn [map]. apply Exists_cons_hd. reflexivity.
Qed.

Lemma inttoip_too_large (n : Z) :
  4294967295 < n -> inttoip n = Raise ValueError \/ inttoip n = Raise OSError.
Proof.
  intros Hn. unfold inttoip, hex.
  replace (n <? 0) with false by (symmetry; apply Z.ltb_ge; lia).
  unfold str_drop. rewrite list_ascii_string_inv. cbn [skipn].
  unfold zfill. rewrite list_ascii_string_inv.
  destruct (digits16_not_sign n ltac:(lia)) as (c0 & tl & E & Hsign).
  pose proof (digits16_long n ltac:(lia)) as Hlen.
  pose proof (to_digits_chars 16 (S (Z.to_nat (Z.log2 n))) n ltac:(lia) ltac:(lia)) as HF.
  fold (digits 16 n) in HF.
  rewrite E in *. rewrite Hsign.
  replace (8 - List.length (c0 :: tl))%nat with 0%nat by lia. cbn [repeat app].
  unfold str_encode. rewrite list_ascii_string_inv.
  pose proof (unhexlify_digits (List.length (c0 :: tl)) (c0 :: tl) ltac:(lia) HF) as Hu.
  destruct (Nat.even (List.length (c0 :: tl))).
  - destruct Hu as (bs & -> & Hbs). cbn [bind]. right.
    apply inet_ntoa_wrong_length. lia.
  - rewrite Hu. left. reflexivity.
Qed.

(** X17. Outside [0, 4294967295] [inttoip] returns nothing: a negative
    integer raises [ValueError] (the sign leaves an [x] among the hexadecimal
    digits), and an integer above the range raises [ValueError] (an odd
    number of digits) or [OSError] (more than four bytes). *)
Theorem inttoip_out_of_range (n : Z) :
  (n < 0 -> inttoip n = Raise ValueError) /\
  (4294967295 < n -> inttoip n = Raise ValueError \/ inttoip n = Raise OSError).
Proof. split; [apply inttoip_negative | apply inttoip_too_large]. Qed.

Lemma inttoip_out_of_range_witness :
  inttoip (-1) = Raise ValueError /\
  (inttoip 4294967296 = Raise ValueError \/ inttoip 4294967296 = Raise OSError).
Proof.
  split.
  - apply (proj1 (inttoip_out_of_range (-1))). lia.
  - apply (proj2 (inttoip_out_of_range 4294967296)). lia.
Defined.

(** ** random_range *)








